(** * The compensation engine of [src/ibo.py]

    A shallow embedding of the two classes of the program, [AmwayIBO] and
    [DifferentialBonus], together with the fragment of Python they run on:
    unbounded integers, binary64 floating-point numbers with their
    rounding, the exceptions the methods can end in, the built-ins
    [float], [sum], [max] and [min], and the strings the program formats.

    The definitions come first: Python, the two classes, the construction
    of participants, the text the program prints, its random downline,
    and the vocabulary of the statements.  The lemmas and the theorems
    about the program follow. *)

From Stdlib Require Import ZArith QArith Qpower Bool String Ascii List Lia Lqa.
From Stdlib Require Import SpecFloat.
Import ListNotations.

Local Open Scope Z_scope.

(* ===================================================================== *)
(** * Python: exceptions *)
(* ===================================================================== *)

(** The two exceptions that the arithmetic and the methods of the program
    can raise. *)
Inductive exn : Type :=
| ValueError (msg : string)
| OverflowError (msg : string).

(** The outcome of evaluating a Python expression. *)
Inductive result (A : Type) : Type :=
| Ok (a : A)
| Raise (e : exn).
Arguments Ok {A} a.
Arguments Raise {A} e.

Definition bind {A B : Type} (c : result A) (k : A -> result B) : result B :=
  match c with
  | Ok a => k a
  | Raise e => Raise e
  end.

Notation "x <- c ;; k" := (bind c (fun x => k))
  (at level 61, c at next level, right associativity).

(* ===================================================================== *)
(** * Python: numbers *)
(* ===================================================================== *)

(** A Python [float] is an IEEE 754 binary64 number: 53 bits of precision,
    infinities at exponent 1024. *)
Definition prec : Z := 53.

Definition emax : Z := 1024.

Abbreviation float := spec_float.

Definition fadd : float -> float -> float := SFadd prec emax.

Definition fsub : float -> float -> float := SFsub prec emax.

Definition fmul : float -> float -> float := SFmul prec emax.

Definition fdiv : float -> float -> float := SFdiv prec emax.

(** The float nearest to an integer (ties to even, infinite past the
    largest finite float). *)
Definition float_of_Z (n : Z) : float := binary_normalize prec emax n 0 false.

(** The float a decimal literal [n / d] denotes, [d] a power of ten: the
    correctly rounded quotient.  Numerator and denominator of every
    literal of the program are below [2^53], hence exact as floats. *)
Definition dec (n d : Z) : float := fdiv (float_of_Z n) (float_of_Z d).

Definition fzero : float := S754_zero false.

Definition finf : float := S754_infinity false.

(** Python's two numeric types as the program uses them. *)
Inductive pynum : Type :=
| PyInt (n : Z)
| PyFloat (f : float).

(** Comparisons in Python, also between an [int] and a [float], compare
    the numbers denoted, exactly; a NaN is unordered.  The number a value
    denotes is a rational, an infinity or no number. *)
Inductive xval : Type :=
| XNaN
| XInf (neg : bool)
| XFin (q : Q).

(** A finite float denotes [(-1)^s * m * 2^e]. *)
Definition float_val (f : float) : xval :=
  match f with
  | S754_zero _ => XFin 0
  | S754_infinity s => XInf s
  | S754_nan => XNaN
  | S754_finite s m e => XFin (inject_Z (cond_Zopp s (Zpos m)) * Qpower 2 e)
  end.

Definition value (x : pynum) : xval :=
  match x with
  | PyInt n => XFin (inject_Z n)
  | PyFloat f => float_val f
  end.

Definition xcompare (a b : xval) : option comparison :=
  match a, b with
  | XNaN, _ | _, XNaN => None
  | XInf s1, XInf s2 =>
      Some (match s1, s2 with
            | true, false => Lt
            | false, true => Gt
            | _, _ => Eq
            end)
  | XInf s, XFin _ => Some (if s then Lt else Gt)
  | XFin _, XInf s => Some (if s then Gt else Lt)
  | XFin p, XFin q => Some (p ?= q)%Q
  end.

Definition py_compare (x y : pynum) : option comparison :=
  xcompare (value x) (value y).

(** [x < y], [x <= y], [x > y], [x >= y], [x == y]. *)
Definition py_lt (x y : pynum) : bool :=
  match py_compare x y with Some Lt => true | _ => false end.

Definition py_le (x y : pynum) : bool :=
  match py_compare x y with Some Lt | Some Eq => true | _ => false end.

Definition py_gt (x y : pynum) : bool := py_lt y x.

Definition py_ge (x y : pynum) : bool := py_le y x.

Definition py_eq (x y : pynum) : bool :=
  match py_compare x y with Some Eq => true | _ => false end.

Definition overflow_error : exn :=
  OverflowError "int too large to convert to float".

(** The conversion of an operand of mixed arithmetic: an [int] becomes the
    nearest float, and one too large for a finite float raises. *)
Definition to_float (x : pynum) : result float :=
  match x with
  | PyFloat f => Ok f
  | PyInt n =>
      match float_of_Z n with
      | S754_infinity _ => Raise overflow_error
      | f => Ok f
      end
  end.
Arguments to_float : simpl never.

Definition binop (iop : Z -> Z -> Z) (fop : float -> float -> float)
    (x y : pynum) : result pynum :=
  match x, y with
  | PyInt a, PyInt b => Ok (PyInt (iop a b))
  | _, _ => a <- to_float x ;; b <- to_float y ;; Ok (PyFloat (fop a b))
  end.

Definition py_add : pynum -> pynum -> result pynum := binop Z.add fadd.

Definition py_sub : pynum -> pynum -> result pynum := binop Z.sub fsub.

Definition py_mul : pynum -> pynum -> result pynum := binop Z.mul fmul.

(* ===================================================================== *)
(** * Python: built-ins *)
(* ===================================================================== *)

(** [sum(items)]: the items are added from left to right onto the [int]
    0.  The items come from a generator, so an item is evaluated just
    before it is added; an item that raises ends the sum.  (From
    version 3.12 on CPython adds floats with a compensated sum; the sums
    of integers, which the group volumes of the theorems are, are exact in
    every version, and no theorem below depends on how floats are
    summed.) *)
Definition py_sum (items : list (result pynum)) : result pynum :=
  fold_left (fun acc item => a <- acc ;; x <- item ;; py_add a x)
            items (Ok (PyInt 0)).

(** [max(a, b)] and [min(a, b)] keep the first argument unless the second
    is strictly larger, respectively smaller. *)
Definition py_max (a b : pynum) : pynum := if py_gt b a then b else a.

Definition py_min (a b : pynum) : pynum := if py_lt b a then b else a.

(** The value of a decimal digit. *)
Definition digit (c : ascii) : option Z :=
  let n := Z.of_nat (nat_of_ascii c) - 48 in
  if (0 <=? n) && (n <=? 9) then Some n else None.

(** The digits of [s] as a numerator and a power of ten; [seen] tells
    that a digit was read, [den] that the point was. *)
Fixpoint scan (s : string) (seen : bool) (num : Z) (den : option Z)
  : option (Z * Z) :=
  match s with
  | EmptyString =>
      if seen then Some (num, match den with Some d => d | None => 1 end)
      else None
  | String c r =>
      if Ascii.eqb c "."
      then match den with
           | None => scan r seen num (Some 1)
           | Some _ => None
           end
      else match digit c with
           | Some k => scan r true (10 * num + k) (option_map (Z.mul 10) den)
           | None => None
           end
  end.

(** [float(s)] for a string of decimal digits with at most one point,
    which the keys of the schedule are. *)
Definition py_float (s : string) : result pynum :=
  match scan s false 0 None with
  | Some (n, d) => Ok (PyFloat (dec n d))
  | None => Raise (ValueError "could not convert string to float")
  end.

(* ===================================================================== *)
(** * class AmwayIBO: constants *)
(* ===================================================================== *)

(** An entry of the [BONUS_SCHEDULE] dictionary: the key and the two
    fields of its value. *)
Record tier : Type := mkTier {
  percent : string;
  pv_min : pynum;
  pv_max : pynum
}.

(** The dictionary in its insertion order, the order [.items()] yields. *)
Definition BONUS_SCHEDULE : list tier :=
  [ mkTier "0.03" (PyInt 100) (PyFloat (dec 29999 100));
    mkTier "0.06" (PyInt 300) (PyFloat (dec 59999 100));
    mkTier "0.09" (PyInt 600) (PyFloat (dec 99999 100));
    mkTier "0.12" (PyInt 1000) (PyFloat (dec 149999 100));
    mkTier "0.15" (PyInt 1500) (PyFloat (dec 249999 100));
    mkTier "0.18" (PyInt 2500) (PyFloat (dec 399999 100));
    mkTier "0.21" (PyInt 4000) (PyFloat (dec 599999 100));
    mkTier "0.23" (PyInt 6000) (PyFloat (dec 749999 100));
    mkTier "0.25" (PyInt 7500) (PyFloat finf) ].

Definition BV_TO_PV_RATIO : pynum := PyFloat (dec 336 100).

Definition IBO_LEVEL_IBO : Z := 0.

(* ===================================================================== *)
(** * class AmwayIBO: volume and bonus percentage *)
(* ===================================================================== *)

(** An IBO with the IBOs below it.  The calculations read an object's own
    fields and, through [frontline], those of its descendants; [sponsor],
    the reference back to the parent, is read by none of them and is kept
    in the object store of the construction interface below. *)
#[warnings="-register-all"]
Inductive AmwayIBO : Type :=
| mkIBO (registration_month : Z) (frontline : list AmwayIBO)
        (_personal_pv _vcs_pv : pynum) (level : Z).

Definition registration_month (self : AmwayIBO) : Z :=
  match self with mkIBO m _ _ _ _ => m end.

Definition frontline (self : AmwayIBO) : list AmwayIBO :=
  match self with mkIBO _ fl _ _ _ => fl end.

Definition _personal_pv (self : AmwayIBO) : pynum :=
  match self with mkIBO _ _ pv _ _ => pv end.

Definition _vcs_pv (self : AmwayIBO) : pynum :=
  match self with mkIBO _ _ _ vcs _ => vcs end.

Definition level (self : AmwayIBO) : Z :=
  match self with mkIBO _ _ _ _ l => l end.

Fixpoint calculate_group_pv (self : AmwayIBO) : result pynum :=
  match self with
  | mkIBO _ fl pv _ _ =>
      s <- py_sum (map calculate_group_pv fl) ;;
      py_add pv s
  end.

Definition calculate_group_bv (self : AmwayIBO) : result pynum :=
  g <- calculate_group_pv self ;;
  py_mul g BV_TO_PV_RATIO.

Definition calculate_personal_bv (self : AmwayIBO) : result pynum :=
  py_mul (_personal_pv self) BV_TO_PV_RATIO.

(** The loop of [calculate_bonus_percentage] over the items of a
    schedule: the first tier whose range holds [total_pv] sets the
    percentage and ends the loop. *)
Fixpoint schedule_loop (items : list tier) (total_pv bonus_percentage : pynum)
  : result pynum :=
  match items with
  | [] => Ok bonus_percentage
  | pv_range :: rest =>
      if py_le (pv_min pv_range) total_pv && py_le total_pv (pv_max pv_range)
      then py_float (percent pv_range)
      else schedule_loop rest total_pv bonus_percentage
  end.

(** The body of [calculate_bonus_percentage] after its first line. *)
Definition bonus_percentage_of (total_pv : pynum) : result pynum :=
  schedule_loop BONUS_SCHEDULE total_pv (PyFloat fzero).

Definition calculate_bonus_percentage (self : AmwayIBO) : result pynum :=
  total_pv <- calculate_group_pv self ;;
  bonus_percentage_of total_pv.

Definition qualification_error : exn :=
  ValueError "VCS PV must be at least 60% of personal PV to qualify for the bonus.".

Definition calculate_personal_bonus (self : AmwayIBO) : result pynum :=
  threshold <- py_mul (PyFloat (dec 6 10)) (_personal_pv self) ;;
  if py_lt (_vcs_pv self) threshold
  then Raise qualification_error
  else
    p <- calculate_bonus_percentage self ;;
    bv <- calculate_personal_bv self ;;
    py_mul p bv.

(* ===================================================================== *)
(** * class DifferentialBonus *)
(* ===================================================================== *)

Record DifferentialBonus : Type := mkDifferentialBonus {
  ibo1 : AmwayIBO;
  ibo2 : AmwayIBO
}.

Definition calculate_multiplier (self : DifferentialBonus) : result pynum :=
  p1 <- calculate_bonus_percentage (ibo1 self) ;;
  p2 <- calculate_bonus_percentage (ibo2 self) ;;
  d <- py_sub p1 p2 ;;
  Ok (py_max (PyFloat fzero) d).

Definition calculate_amount (self : DifferentialBonus) : result pynum :=
  m <- calculate_multiplier self ;;
  g <- calculate_group_pv (ibo2 self) ;;
  mg <- py_mul m g ;;
  py_mul mg BV_TO_PV_RATIO.

(* ===================================================================== *)
(** * class AmwayIBO: earnings *)
(* ===================================================================== *)

Definition differential_bonus_list (self : AmwayIBO) : list DifferentialBonus :=
  map (fun ibo => mkDifferentialBonus self ibo) (frontline self).

Definition calculate_differential_bonus (self : AmwayIBO) : result pynum :=
  py_sum (map calculate_amount (differential_bonus_list self)).

Definition calculate_csi_percentage (self : AmwayIBO) : result pynum :=
  p <- calculate_bonus_percentage self ;;
  d <- py_sub (PyFloat (dec 1 10)) p ;;
  Ok (py_max (PyFloat fzero) d).

(** The product of [calculate_csi_bonus] before the cap. *)
Definition uncapped_csi_bonus (self : AmwayIBO) : result pynum :=
  csi_percentage <- calculate_csi_percentage self ;;
  a <- py_mul csi_percentage (_vcs_pv self) ;;
  py_mul a BV_TO_PV_RATIO.

Definition calculate_csi_bonus (self : AmwayIBO) : result pynum :=
  csi_bonus <- uncapped_csi_bonus self ;;
  Ok (py_min csi_bonus (PyFloat (dec 750 10))).

Definition calculate_retail_profit (self : AmwayIBO) : result pynum :=
  a <- py_mul (PyFloat (dec 1 10)) (_vcs_pv self) ;;
  py_mul a BV_TO_PV_RATIO.

Definition calculate_total_earnings (self : AmwayIBO) : result pynum :=
  personal <- calculate_personal_bonus self ;;
  differential <- calculate_differential_bonus self ;;
  s1 <- py_add personal differential ;;
  csi <- calculate_csi_bonus self ;;
  s2 <- py_add s1 csi ;;
  retail <- calculate_retail_profit self ;;
  py_add s2 retail.

(* ===================================================================== *)
(** * The construction interface *)
(* ===================================================================== *)

(** Objects refer to each other, a sponsor to its frontline and an IBO
    back to its sponsor, and [add_frontline] updates the sponsor in place:
    the objects live in a store and a reference is an index into it. *)
Record object : Type := mkObject {
  sponsor : option nat;
  o_registration_month : Z;
  o_frontline : list nat;
  o_personal_pv : pynum;
  o_vcs_pv : pynum;
  o_level : Z
}.

Definition store : Type := list object.

Fixpoint update (ref : nat) (f : object -> object) (st : store) : store :=
  match st, ref with
  | [], _ => []
  | o :: rest, O => f o :: rest
  | o :: rest, S ref' => o :: update ref' f rest
  end.

(** [self.frontline.append(ibo)] *)
Definition add_frontline (self ibo : nat) (st : store) : store :=
  update self
    (fun o => mkObject (sponsor o) (o_registration_month o)
                       (o_frontline o ++ [ibo])
                       (o_personal_pv o) (o_vcs_pv o) (o_level o))
    st.

(** [AmwayIBO(sponsor, registration_month)]: the new object and, when it
    has a sponsor, its entry in the sponsor's frontline. *)
Definition __init__ (sponsor : option nat) (registration_month : Z)
    (st : store) : store * nat :=
  let self := length st in
  let st' := st ++ [mkObject sponsor registration_month []
                             (PyInt 150) (PyInt 90) IBO_LEVEL_IBO] in
  (match sponsor with
   | Some s => add_frontline s self st'
   | None => st'
   end, self).

(** The stores the constructor builds; a sponsor is an object that
    exists. *)
Inductive constructed : store -> Prop :=
| constructed_empty : constructed []
| constructed_new st sponsor registration_month :
    constructed st ->
    (forall s, sponsor = Some s -> (s < length st)%nat) ->
    constructed (fst (__init__ sponsor registration_month st)).

(** All of the results, when none is missing. *)
Fixpoint sequence {A : Type} (l : list (option A)) : option (list A) :=
  match l with
  | [] => Some []
  | x :: rest =>
      match x, sequence rest with
      | Some a, Some r => Some (a :: r)
      | _, _ => None
      end
  end.

(** The participant at a reference with the participants below it, as the
    methods reach them through [frontline]; [None] when the references
    run deeper than [fuel] or dangle. *)
Fixpoint tree_of (st : store) (fuel : nat) (ref : nat) : option AmwayIBO :=
  match fuel with
  | O => None
  | S fuel' =>
      match nth_error st ref with
      | None => None
      | Some o =>
          match sequence (map (tree_of st fuel') (o_frontline o)) with
          | None => None
          | Some fl =>
              Some (mkIBO (o_registration_month o) fl
                          (o_personal_pv o) (o_vcs_pv o) (o_level o))
          end
      end
  end.

(* ===================================================================== *)
(** * Python: strings and formatting *)
(* ===================================================================== *)

(** A [str] is held as the bytes of its UTF-8 encoding.  [len] is taken
    of strings of ASCII characters only, where bytes and characters
    agree. *)
Definition len (s : string) : Z := Z.of_nat (String.length s).

(** [s * n]: [n] copies of [s], none when [n <= 0]. *)
Fixpoint copies (n : nat) (s : string) : string :=
  match n with
  | O => EmptyString
  | S k => (s ++ copies k s)%string
  end.

Definition str_mul (s : string) (n : Z) : string := copies (Z.to_nat n) s.

(** [s.ljust(width)] and the format [<width]: blanks after [s] up to
    [width] characters, none when [s] is as long or longer. *)
Definition ljust (s : string) (width : Z) : string :=
  (s ++ str_mul " " (width - len s))%string.

(** The format [>width]: the blanks come first. *)
Definition rjust (s : string) (width : Z) : string :=
  (str_mul " " (width - len s) ++ s)%string.

(** The line feed. *)
Definition newline : string := String "010" EmptyString.

(** The character of a decimal digit. *)
Definition digit_char (d : Z) : ascii := ascii_of_nat (Z.to_nat (48 + d)).

(** The decimal digits of [n >= 0] before [acc], the last digit first;
    the fuel bounds their number. *)
Fixpoint digits_before (fuel : nat) (n : Z) (acc : string) : string :=
  match fuel with
  | O => acc
  | S k =>
      let acc' := String (digit_char (n mod 10)) acc in
      if n <? 10 then acc' else digits_before k (n / 10) acc'
  end.

(** [str(n)] for an [int] [n >= 0]; a number has no more decimal digits
    than binary ones. *)
Definition str_of_nat (n : Z) : string :=
  digits_before (S (Z.to_nat (Z.log2 n))) n EmptyString.

(** The last [p] decimal digits of [n] before [acc], zeros included. *)
Fixpoint fraction_digits (p : nat) (n : Z) (acc : string) : string :=
  match p with
  | O => acc
  | S k => fraction_digits k (n / 10) (String (digit_char (n mod 10)) acc)
  end.

(** The integer nearest to [m * 2^e * 10^p], of two nearest the even
    one: the digits of a float in a format with [p] decimals are those of
    its exact value, correctly rounded. *)
Definition scaled (m : positive) (e : Z) (p : nat) : Z :=
  let num := Zpos m * 10 ^ Z.of_nat p in
  if 0 <=? e then num * 2 ^ e
  else
    let den := 2 ^ (- e) in
    let q := num / den in
    let r := num mod den in
    if (den <? 2 * r) || ((den =? 2 * r) && Z.odd q) then q + 1 else q.

(** [n / 10^p] written with [p] decimals; no point without decimals. *)
Definition fixed_point (p : nat) (n : Z) : string :=
  (str_of_nat (n / 10 ^ Z.of_nat p) ++
   match p with
   | O => EmptyString
   | S _ => String "." (fraction_digits p (n mod 10 ^ Z.of_nat p) EmptyString)
   end)%string.

(** [format(f, '.pf')] for a float: the sign is that of the float, also
    before a zero and before digits that round to zero. *)
Definition format_float (p : nat) (f : float) : string :=
  match f with
  | S754_nan => "nan"
  | S754_infinity s => (if s then "-inf" else "inf")%string
  | S754_zero s => ((if s then "-" else "") ++ fixed_point p 0)%string
  | S754_finite s m e =>
      ((if s then "-" else "") ++ fixed_point p (scaled m e p))%string
  end.

(** [format(x, '.pf')]: an [int] is converted to a float first. *)
Definition format_f (p : nat) (x : pynum) : result string :=
  f <- to_float x ;;
  Ok (format_float p f).

(** [int(x)]: a float is cut at the point, towards zero. *)
Definition py_int (x : pynum) : result Z :=
  match x with
  | PyInt n => Ok n
  | PyFloat S754_nan =>
      Raise (ValueError "cannot convert float NaN to integer")
  | PyFloat (S754_infinity _) =>
      Raise (OverflowError "cannot convert float infinity to integer")
  | PyFloat (S754_zero _) => Ok 0
  | PyFloat (S754_finite s m e) =>
      Ok (cond_Zopp s (if 0 <=? e then Zpos m * 2 ^ e
                       else Zpos m / 2 ^ (- e)))
  end.

(** [str(n)] for an [int]. *)
Definition str_of_int (n : Z) : string :=
  if n <? 0 then ("-" ++ str_of_nat (- n))%string else str_of_nat n.

(* ===================================================================== *)
(** * class AmwayIBO: the table of levels *)
(* ===================================================================== *)

(** The dictionary [IBO_LEVELS] in its insertion order. *)
Definition IBO_LEVELS : list (string * Z) :=
  [ ("IBO"%string, 0);
    ("Silver Producer"%string, 1);
    ("Gold Producer"%string, 2);
    ("Platinum"%string, 3);
    ("Founders Platinum"%string, 4);
    ("Ruby"%string, 5);
    ("Founders Ruby"%string, 6);
    ("Sapphire"%string, 7);
    ("Founders Sapphire"%string, 8);
    ("Emerald"%string, 9);
    ("Founders Emerald"%string, 10);
    ("Diamond"%string, 11);
    ("Founders Diamond"%string, 12);
    ("Executive Diamond"%string, 13);
    ("Founders Executive Diamond"%string, 14);
    ("Double Diamond"%string, 15);
    ("Founders Double Diamond"%string, 16);
    ("Triple Diamond"%string, 17);
    ("Founders Triple Diamond"%string, 18);
    ("Crown"%string, 19);
    ("Founders Crown"%string, 20);
    ("Crown Ambassador"%string, 21);
    ("Founders Crown Ambassador"%string, 8) ].

(** [d[key]] on a dictionary held as the list of its items; [None] is
    the [KeyError] of a missing key. *)
Definition getitem {V : Type} (d : list (string * V)) (key : string) : option V :=
  option_map snd (find (fun item => String.eqb (fst item) key) d).

(* ===================================================================== *)
(** * class AmwayIBO: the tree as text *)
(* ===================================================================== *)

(** The characters of the drawing, in UTF-8: the vertical bar U+2502,
    the horizontal bar U+2500, the corner U+2514 and the tee U+251C. *)
Definition vertical : string :=
  String "226" (String "148" (String "130" EmptyString)).

Definition horizontal : string :=
  String "226" (String "148" (String "128" EmptyString)).

Definition corner : string :=
  String "226" (String "148" (String "148" EmptyString)).

Definition tee : string :=
  String "226" (String "148" (String "156" EmptyString)).

(** The first line of [get_tree_structure]: the f-string evaluates its
    fields from left to right. *)
Definition tree_line (self : AmwayIBO) (depth : Z) (last_frontline : bool)
  : result string :=
  let indent := str_mul (vertical ++ "    ") depth in
  let branch :=
    ((if last_frontline then corner else tee) ++ horizontal ++ " ")%string in
  p <- calculate_bonus_percentage self ;;
  p100 <- py_mul p (PyInt 100) ;;
  label <- py_int p100 ;;
  gpv <- calculate_group_pv self ;;
  gpv_s <- format_f 2 gpv ;;
  gbv <- calculate_group_bv self ;;
  gbv_s <- format_f 2 gbv ;;
  ppv_s <- format_f 2 (_personal_pv self) ;;
  pbv <- calculate_personal_bv self ;;
  pbv_s <- format_f 2 pbv ;;
  Ok (indent ++ branch ++ "[" ++ str_of_int label ++ "%] Group PV/BV: " ++
      gpv_s ++ "/" ++ gbv_s ++ ", Personal PV/BV: " ++
      ppv_s ++ "/" ++ pbv_s)%string.

(** The loop of [get_tree_structure] over [enumerate(self.frontline)],
    from [index] on: [count] is [len(self.frontline)] and [structure] the
    method itself. *)
Fixpoint tree_loop (structure : AmwayIBO -> Z -> bool -> result string)
    (count depth : Z) (items : list AmwayIBO) (index : Z) (info : string)
  : result string :=
  match items with
  | [] => Ok info
  | frontline :: rest =>
      let last := index =? count - 1 in
      s <- structure frontline (depth + 1) last ;;
      tree_loop structure count depth rest (index + 1) (info ++ newline ++ s)%string
  end.

Fixpoint get_tree_structure (self : AmwayIBO) (depth : Z) (last_frontline : bool)
  {struct self} : result string :=
  info <- tree_line self depth last_frontline ;;
  match self with
  | mkIBO _ fl _ _ _ =>
      tree_loop get_tree_structure (Z.of_nat (length fl)) depth fl 0 info
  end.

(* ===================================================================== *)
(** * class DifferentialBonus: the bonus as text *)
(* ===================================================================== *)

(** The field [{x * 100:.0f}] of an f-string. *)
Definition percent_field (x : pynum) : result string :=
  x100 <- py_mul x (PyInt 100) ;;
  format_f 0 x100.

(** The text [f"{group_pv:.2f}/{group_bv:.2f}\n"] of [ibo2]. *)
Definition volume_fields (self : DifferentialBonus) : result string :=
  gpv <- calculate_group_pv (ibo2 self) ;;
  gpv_s <- format_f 2 gpv ;;
  gbv <- calculate_group_bv (ibo2 self) ;;
  gbv_s <- format_f 2 gbv ;;
  Ok (gpv_s ++ "/" ++ gbv_s ++ newline)%string.

(** The text [f"{amount:.2f}\n"]. *)
Definition amount_field (self : DifferentialBonus) : result string :=
  a <- calculate_amount self ;;
  a_s <- format_f 2 a ;;
  Ok (a_s ++ newline)%string.

(** The text [f"{m * 100:.0f}% ({p1 * 100:.0f}% - {p2 * 100:.0f}%)\n"]. *)
Definition multiplier_fields (self : DifferentialBonus) : result string :=
  m <- calculate_multiplier self ;;
  m_s <- percent_field m ;;
  p1 <- calculate_bonus_percentage (ibo1 self) ;;
  p1_s <- percent_field p1 ;;
  p2 <- calculate_bonus_percentage (ibo2 self) ;;
  p2_s <- percent_field p2 ;;
  Ok (m_s ++ "% (" ++ p1_s ++ "% - " ++ p2_s ++ "%)" ++ newline)%string.

(** [max(a, b, c)] on lengths. *)
Definition max3 (a b c : Z) : Z := Z.max (Z.max a b) c.

(** [__repr__]: the three texts are built once with their labels, for
    the width of the longest, and once more behind the labels filled to
    that width. *)
Definition __repr__ (self : DifferentialBonus) : result string :=
  v <- volume_fields self ;;
  let gpv_str := ("PV/BV: " ++ v)%string in
  a <- amount_field self ;;
  let diff_bonus_str := ("Differential Bonus: " ++ a)%string in
  m <- multiplier_fields self ;;
  let diff_multiplier_str := ("Differential Multiplier: " ++ m)%string in
  let max_width :=
    max3 (len diff_bonus_str) (len diff_multiplier_str) (len gpv_str) in
  v <- volume_fields self ;;
  let gpv_str := (ljust "PV/BV:" max_width ++ v)%string in
  a <- amount_field self ;;
  let diff_bonus_str := (ljust "Differential Bonus:" max_width ++ a)%string in
  m <- multiplier_fields self ;;
  let diff_multiplier_str :=
    (ljust "Differential Multiplier:" max_width ++ m)%string in
  Ok (gpv_str ++ diff_multiplier_str ++ diff_bonus_str)%string.

(* ===================================================================== *)
(** * class AmwayIBO: the table of earnings *)
(* ===================================================================== *)





(* ===================================================================== *)
(** * class AmwayIBO: a random downline *)
(* ===================================================================== *)

Section Random.

(** The generator of the module [random]: its state, [seed(n)], and the
    draw of a number below [n] that [choice] makes. *)
Variable rng : Type.
Variable seed : Z -> rng.
Variable randbelow : rng -> nat -> nat * rng.

(** [random.choice(seq)], for a [seq] that is not empty: the element at
    the index drawn below [len(seq)]; [None] is the [IndexError] of an
    index outside the list. *)
Definition choice (seq : list nat) (g : rng) : option (nat * rng) :=
  let (i, g') := randbelow g (length seq) in
  match nth_error seq i with
  | Some x => Some (x, g')
  | None => None
  end.

(** The first loop: [count] IBOs sponsored by [ibo]. *)
Fixpoint frontline_loop (count : nat) (ibo : nat) (month_number : Z)
    (st : store) (downline_ibo_list : list nat) : store * list nat :=
  match count with
  | O => (st, downline_ibo_list)
  | S k =>
      let (st', new_ibo) := __init__ (Some ibo) month_number st in
      frontline_loop k ibo month_number st' (downline_ibo_list ++ [new_ibo])
  end.

(** The second loop: it ends at once when [current_frontline] is empty;
    otherwise an IBO is sponsored by a member of [current_frontline]
    chosen at random, and [current_frontline] is extended by the
    frontline of the new IBO. *)
Fixpoint downline_loop (count : nat) (month_number : Z)
    (current_frontline : list nat) (st : store) (g : rng)
    (downline_ibo_list : list nat) : option (list nat * store * rng) :=
  match count with
  | O => Some (downline_ibo_list, st, g)
  | S k =>
      match current_frontline with
      | [] => Some (downline_ibo_list, st, g)
      | _ :: _ =>
          match choice current_frontline g with
          | None => None
          | Some (random_frontline, g') =>
              let (st', new_ibo) :=
                __init__ (Some random_frontline) month_number st in
              match nth_error st' new_ibo with
              | None => None
              | Some o =>
                  downline_loop k month_number
                    (current_frontline ++ o_frontline o) st' g'
                    (downline_ibo_list ++ [new_ibo])
              end
          end
      end
  end.

(** [create_random_downline(ibo, month_number, frontline_count,
    downline_count)] on a store and a generator: the list returned, the
    store and the generator after the call.  The state the generator had
    before is replaced by the seed.  [None] stands for an exception of a
    list index or of a reference that is not in the store. *)
Definition create_random_downline (ibo : nat)
    (month_number frontline_count downline_count : Z)
    (st : store) (g : rng) : option (list nat * store * rng) :=
  let g := seed month_number in
  let (st, downline_ibo_list) :=
    frontline_loop (Z.to_nat frontline_count) ibo month_number st [] in
  match nth_error st ibo with
  | None => None
  | Some o =>
      downline_loop (Z.to_nat downline_count) month_number (o_frontline o)
        st g downline_ibo_list
  end.


End Random.

(* ===================================================================== *)
(** * Vocabulary of the statements *)
(* ===================================================================== *)

(** ** The order of the numbers *)

(** [a <= b] on the numbers denoted. *)
Definition xle (a b : xval) : Prop :=
  match a, b with
  | XNaN, _ | _, XNaN => False
  | XInf true, _ => True
  | _, XInf false => True
  | XInf false, _ => False
  | _, XInf true => False
  | XFin p, XFin q => (p <= q)%Q
  end.

(** [a < b] on the numbers denoted. *)
Definition xlt (a b : xval) : Prop :=
  match a, b with
  | XNaN, _ | _, XNaN => False
  | XInf s1, XInf s2 => s1 = true /\ s2 = false
  | XInf s, XFin _ => s = true
  | XFin _, XInf s => s = false
  | XFin p, XFin q => (p < q)%Q
  end.

(** The value is a NaN. *)
Definition is_nan (x : pynum) : bool :=
  match value x with XNaN => true | _ => false end.

(** ** Outcomes and floats *)

(** A computation that raises, raises [OverflowError]. *)
Definition only_overflow {A : Type} (r : result A) : Prop :=
  forall e, r = Raise e -> e = overflow_error.

(** A value of type [float]. *)
Definition is_float (x : pynum) : Prop := exists f, x = PyFloat f.

(** [+0.0], a positive finite float or [+inf]. *)
Definition nonneg (f : float) : bool :=
  match f with
  | S754_zero s => negb s
  | S754_finite s _ _ => negb s
  | S754_infinity s => negb s
  | S754_nan => false
  end.

(** [+0.0] or a positive finite float. *)
Definition finite_nonneg (f : float) : bool :=
  match f with
  | S754_zero s => negb s
  | S754_finite s _ _ => negb s
  | _ => false
  end.

(** The float of a mantissa [2^52 <= m2 <= 2^53] at the exponent [E]:
    a mantissa of [2^53] is carried to the next exponent, and an exponent
    past the largest gives [+inf]. *)
Definition rounded (m2 E : Z) : float :=
  if m2 <? 2 ^ 53
  then (if E <=? 971 then S754_finite false (Z.to_pos m2) E
        else S754_infinity false)
  else (if E + 1 <=? 971 then S754_finite false (Z.to_pos (2 ^ 52)) (E + 1)
        else S754_infinity false).




(** The number [m * 2^e] of a positive finite float. *)
Definition number (m : positive) (e : Z) : Q := inject_Z (Zpos m) * 2 ^ e.

(** Two numbers that differ by no more than the rounding of two
    products each: the factor between them is at most
    [((2^52 + 1) / (2^52 - 1))^2]. *)
Definition close (a b : Q) : Prop :=
  (inject_Z (2 ^ 52 - 1) ^ 2 * a <= inject_Z (2 ^ 52 + 1) ^ 2 * b)%Q /\
  (inject_Z (2 ^ 52 - 1) ^ 2 * b <= inject_Z (2 ^ 52 + 1) ^ 2 * a)%Q.



(** A number that is finite and not negative: an [int] from 0 to below
    [2^1023], which converts to a float, or a float that is a zero or
    positive and finite. *)
Definition finite_nonneg_number (x : pynum) : bool :=
  match x with
  | PyInt n => (0 <=? n) && (n <? 2 ^ 1023)
  | PyFloat (S754_zero _) => true
  | PyFloat (S754_finite s _ _) => negb s
  | PyFloat _ => false
  end.

(** ** The schedule *)

(** The test of the loop: the range of a tier holds [v], bounds included. *)
Definition contains (t : tier) (v : pynum) : bool :=
  py_le (pv_min t) v && py_le v (pv_max t).

(** [v] lies strictly between the maximum of a tier and the minimum of the
    tier after it. *)
Fixpoint in_gap (items : list tier) (v : pynum) : bool :=
  match items with
  | t :: rest =>
      match rest with
      | t' :: _ => (py_lt (pv_max t) v && py_lt v (pv_min t')) || in_gap rest v
      | [] => false
      end
  | [] => false
  end.

(** A relation holds from every tier to every later one. *)
Fixpoint pairwise (R : tier -> tier -> bool) (items : list tier) : bool :=
  match items with
  | [] => true
  | t :: rest => forallb (R t) rest && pairwise R rest
  end.

(** The relations and properties of tiers that the schedule of the
    program is checked for. *)
Definition below (t t' : tier) : bool := py_lt (pv_max t) (pv_min t').

Definition percent_le (t t' : tier) : bool :=
  match py_float (percent t), py_float (percent t') with
  | Ok p, Ok p' => py_le p p'
  | _, _ => false
  end.

Definition percent_positive (t : tier) : bool :=
  match py_float (percent t) with
  | Ok p => py_lt (PyFloat fzero) p
  | Raise _ => false
  end.

Definition bounds_not_nan (t : tier) : bool :=
  negb (is_nan (pv_min t)) && negb (is_nan (pv_max t)).

Definition min_le_max (t : tier) : bool := py_le (pv_min t) (pv_max t).

(** The default and the percentages of the nine tiers. *)
Definition percentages : list float :=
  [ fzero; dec 3 100; dec 6 100; dec 9 100; dec 12 100; dec 15 100;
    dec 18 100; dec 21 100; dec 23 100; dec 25 100 ].

(** The multiplier of two percentages, [max(0.0, pu - pc)]. *)
Definition multiplier_of (pu pc : float) : pynum :=
  py_max (PyFloat fzero) (PyFloat (fsub pu pc)).

(** The multiplier is [+0.0] or positive and finite, and [+0.0] when
    [pc >= pu]. *)
Definition multiplier_ok (pu pc : float) : bool :=
  match multiplier_of pu pc with
  | PyFloat m =>
      finite_nonneg m &&
      (if py_ge (PyFloat pc) (PyFloat pu)
       then match m with S754_zero false => true | _ => false end
       else true)
  | PyInt _ => false
  end.

(** The multiplier is positive when [pc < pu]. *)
Definition multiplier_positive (pu pc : float) : bool :=
  if py_lt (PyFloat pc) (PyFloat pu)
  then py_lt (PyFloat fzero) (multiplier_of pu pc)
  else true.

(** The multiplier is [+0.0] or a normal float between [2^-8] and
    [2^-1]. *)
Definition multiplier_normal (pu pc : float) : bool :=
  match multiplier_of pu pc with
  | PyFloat (S754_zero false) => true
  | PyFloat (S754_finite false m e) =>
      (2 ^ 52 <=? Zpos m) && (Zpos m <? 2 ^ 53) && (-60 <=? e) && (e <=? -54)
  | _ => false
  end.

(** The CSI percentage of a bonus percentage, [max(0.0, 0.1 - p)]. *)
Definition csi_percentage_of (p : float) : pynum :=
  py_max (PyFloat fzero) (PyFloat (fsub (dec 1 10) p)).

(** The CSI percentage is [+0.0] or positive and finite, at most 0.1,
    [+0.0] when [p >= 0.1] and the positive difference when [p < 0.1]. *)
Definition csi_percentage_ok (p : float) : bool :=
  match csi_percentage_of p with
  | PyFloat c =>
      finite_nonneg c && py_le (PyFloat c) (PyFloat (dec 1 10)) &&
      (if py_ge (PyFloat p) (PyFloat (dec 1 10))
       then match c with S754_zero false => true | _ => false end
       else py_lt (PyFloat fzero) (PyFloat c) &&
            py_eq (PyFloat c) (PyFloat (fsub (dec 1 10) p)))
  | PyInt _ => false
  end.

(** ** Participants *)

(** Every personal PV at and below a participant is a non-negative
    [int], as the constructor sets it. *)
Fixpoint nonneg_int_volumes (self : AmwayIBO) : bool :=
  match self with
  | mkIBO _ fl pv _ _ =>
      match pv with
      | PyInt n => 0 <=? n
      | PyFloat _ => false
      end && forallb nonneg_int_volumes fl
  end.

(** Every participant at and below this one has the volumes the
    constructor sets. *)
Fixpoint constructor_volumes (self : AmwayIBO) : bool :=
  match self with
  | mkIBO _ fl pv vcs _ =>
      match pv, vcs with
      | PyInt p, PyInt v => (p =? 150) && (v =? 90)
      | _, _ => false
      end && forallb constructor_volumes fl
  end.

(** The number of participants at and below this one. *)
Fixpoint participants (self : AmwayIBO) : Z :=
  match self with
  | mkIBO _ fl _ _ _ => 1 + fold_right Z.add 0 (map participants fl)
  end.

(** The invariant of construction: the volumes are those of the
    constructor and every reference of a frontline points to a later
    object of the store. *)
Definition well_formed (st : store) : Prop :=
  forall i o, nth_error st i = Some o ->
    o_personal_pv o = PyInt 150 /\ o_vcs_pv o = PyInt 90 /\
    Forall (fun j => (i < j < length st)%nat) (o_frontline o).

(** The product the method returns past the gate. *)
Definition percentage_times_personal_bv (self : AmwayIBO) : result pynum :=
  p <- calculate_bonus_percentage self ;;
  bv <- calculate_personal_bv self ;;
  py_mul p bv.

(** The test of the gate: [vcs_pv < 0.6 * personal_pv]. *)
Definition below_gate (self : AmwayIBO) : Prop :=
  exists t, py_mul (PyFloat (dec 6 10)) (_personal_pv self) = Ok t /\
            py_lt (_vcs_pv self) t = true.

(** A participant without frontline; all fields but the two volumes as the
    constructor sets them. *)
Definition childless (pv vcs : pynum) : AmwayIBO :=
  mkIBO 1 [] pv vcs IBO_LEVEL_IBO.

(** A participant as the constructor creates it. *)
Definition new_ibo : AmwayIBO := childless (PyInt 150) (PyInt 90).

(** An upline whose group PV of 6150 puts it in the 23% tier, over forty
    participants without frontline, each in the 3% tier. *)
Definition upline_of_forty : AmwayIBO :=
  mkIBO 1 (repeat new_ibo 40) (PyInt 150) (PyInt 90) IBO_LEVEL_IBO.

(** A participant whose group PV is the maximum 1499.99 of the 12%
    tier. *)
Definition at_tier_maximum : AmwayIBO :=
  childless (PyFloat (dec 149999 100)) (PyInt 90).

(** A participant with a personal PV of 128.11 over one IBO with a
    personal PV of 1371.88: the float sum [128.11 + (0 + 1371.88)] is
    1499.9900000000002, between the maximum 1499.99 of the 12% tier and
    the minimum 1500 of the 15% tier. *)
Definition gap_upline : AmwayIBO :=
  mkIBO 1 [childless (PyFloat (dec 137188 100)) (PyInt 90)]
        (PyFloat (dec 12811 100)) (PyInt 90) IBO_LEVEL_IBO.

(** A participant in the 3% tier whose CSI bonus before the cap is
    exactly [200.0]: [(0.1 - 0.03) * 850.3401360544217 * 3.36]. *)
Definition retail_heavy : AmwayIBO :=
  childless (PyInt 150) (PyFloat (dec 8503401360544217 10000000000000)).

(** A root, two IBOs sponsored by it and one sponsored by the first of
    these. *)
Definition small_store : store :=
  fst (__init__ (Some 1%nat) 2
    (fst (__init__ (Some 0%nat) 1
      (fst (__init__ (Some 0%nat) 1
        (fst (__init__ None 1 []))))))).



(** The amount as the claim has it: the multiplier times the group BV
    of the child. *)
Definition multiplier_times_group_bv (self : DifferentialBonus) : result pynum :=
  m <- calculate_multiplier self ;;
  bv <- calculate_group_bv (ibo2 self) ;;
  py_mul m bv.

(** A participant in the 12% tier with a VCS PV of 600. *)
Definition twelve_percent : AmwayIBO := childless (PyInt 1000) (PyInt 600).



(** A participant with a personal PV of 1e308 over one with the same:
    the group PV [1e308 + (0 + 1e308)] is past the largest float and the
    float sum is [+inf]. *)
Definition overflowing_child : AmwayIBO :=
  mkIBO 1 [childless (PyFloat (dec (10 ^ 308) 1)) (PyInt 90)]
        (PyFloat (dec (10 ^ 308) 1)) (PyInt 90) IBO_LEVEL_IBO.

(** An upline of [overflowing_child]. *)
Definition overflowing_upline : AmwayIBO :=
  mkIBO 1 [overflowing_child] (PyInt 150) (PyInt 90) IBO_LEVEL_IBO.

(** An upline with a personal PV of 150 over a participant with a
    personal PV of [10^308]: both are in the 25% tier, and the group BV
    of the child, [1e308 * 3.36], is past the largest float. *)
Definition huge_child : AmwayIBO := childless (PyInt (10 ^ 308)) (PyInt 90).

Definition huge_upline : AmwayIBO :=
  mkIBO 1 [huge_child] (PyInt 150) (PyInt 90) IBO_LEVEL_IBO.

(** ** The claims that fail, as they are stated *)

(** The lookup never decreases. *)
Definition tier_monotonicity : Prop :=
  forall v1 v2 p1 p2,
    py_lt v1 v2 = true ->
    bonus_percentage_of v1 = Ok p1 -> bonus_percentage_of v2 = Ok p2 ->
    py_le p1 p2 = true.

(** Every value from 100 on lies in a tier. *)
Definition full_coverage : Prop :=
  forall v, py_ge v (PyInt 100) = true ->
    exists t, In t BONUS_SCHEDULE /\ contains t v = true.

(** The claim that a participant with [vcs_pv = 0.59 * personal_pv] fails
    the gate, whatever its personal PV. *)
Definition gate_fails_at_59_percent : Prop :=
  forall self,
    py_mul (PyFloat (dec 59 100)) (_personal_pv self) = Ok (_vcs_pv self) ->
    calculate_personal_bonus self = Raise qualification_error.

(** The claim that the amount is the multiplier times the group BV of the
    child. *)
Definition amount_is_multiplier_times_group_bv : Prop :=
  forall U C a b,
    In C (frontline U) ->
    calculate_amount (mkDifferentialBonus U C) = Ok a ->
    (m <- calculate_multiplier (mkDifferentialBonus U C) ;;
     bv <- calculate_group_bv C ;;
     py_mul m bv) = Ok b ->
    py_eq a b = true.


(** The claim on the differential bonus, for all pairs. *)
Definition differential_nonnegativity : Prop :=
  forall U C pu pc a,
    In C (frontline U) ->
    calculate_bonus_percentage U = Ok pu ->
    calculate_bonus_percentage C = Ok pc ->
    calculate_amount (mkDifferentialBonus U C) = Ok a ->
    py_ge a (PyInt 0) = true /\
    (py_ge pc pu = true -> py_eq a (PyInt 0) = true).

(** ** Text, stores and generators *)

(** A generator for examples: a linear congruential sequence. *)
Definition lcg_seed (n : Z) : Z := n mod 2 ^ 31.

Definition lcg_randbelow (g : Z) (n : nat) : nat * Z :=
  let g' := (1103515245 * g + 12345) mod 2 ^ 31 in
  (Z.to_nat (g' mod Z.of_nat n), g').

(** The percentage the schedule holds for an integer volume: the steps
    are at the minimum of each tier. *)
Definition percentage_of_int (n : Z) : float :=
  if n <? 100 then fzero
  else if n <? 300 then dec 3 100
  else if n <? 600 then dec 6 100
  else if n <? 1000 then dec 9 100
  else if n <? 1500 then dec 12 100
  else if n <? 2500 then dec 15 100
  else if n <? 4000 then dec 18 100
  else if n <? 6000 then dec 21 100
  else if n <? 7500 then dec 23 100
  else dec 25 100.

(** The same participant with the VCS PV [x] for itself and for every
    participant below it. *)
Fixpoint with_vcs (x : pynum) (self : AmwayIBO) : AmwayIBO :=
  match self with
  | mkIBO m fl pv _ l => mkIBO m (map (with_vcs x) fl) pv x l
  end.

(** The label of a percentage in a line of the tree,
    [int(p * 100)]. *)
Definition percent_label (p : pynum) : result Z :=
  p100 <- py_mul p (PyInt 100) ;;
  py_int p100.

(** The label of a percentage is a number of hundredths from 0 to 25
    that denotes the very percentage, and the field [{p * 100:.0f}]
    shows the same number. *)
Definition label_exact (p : float) : bool :=
  match percent_label (PyFloat p), percent_field (PyFloat p) with
  | Ok n, Ok s =>
      (0 <=? n) && (n <=? 25) &&
      py_eq (PyFloat (dec n 100)) (PyFloat p) && String.eqb s (str_of_int n)
  | _, _ => false
  end.

(** The fields of [__repr__] agree: the multiplier shown is the
    difference of the two percentages shown, or 0. *)
Definition fields_agree (pu pc : float) : bool :=
  match percent_label (PyFloat pu), percent_label (PyFloat pc),
        percent_field (multiplier_of pu pc) with
  | Ok a, Ok b, Ok s => String.eqb s (str_of_int (Z.max 0 (a - b)))
  | _, _, _ => false
  end.

(** A participant below the gate: a VCS PV of 89 for a personal PV of
    150. *)
Definition unqualified : AmwayIBO := childless (PyInt 150) (PyInt 89).


(** The number of line feeds of a text, and the number of its lines. *)
Fixpoint line_feeds (s : string) : Z :=
  match s with
  | EmptyString => 0
  | String c rest => (if Ascii.eqb c "010" then 1 else 0) + line_feeds rest
  end.

Definition lines (s : string) : Z := 1 + line_feeds s.

(** The sponsor and the frontline of the object at a reference; none
    where the store has no object. *)
Definition sponsor_of (st : store) (ref : nat) : option nat :=
  match nth_error st ref with
  | Some o => sponsor o
  | None => None
  end.

Definition frontline_of (st : store) (ref : nat) : list nat :=
  match nth_error st ref with
  | Some o => o_frontline o
  | None => []
  end.

(** The two directions of the references agree: the frontline of an
    object lists, each once, the objects it sponsors, and a sponsor is
    an object created before. *)
Definition linked (st : store) : Prop :=
  forall s,
    NoDup (frontline_of st s) /\
    (forall i, In i (frontline_of st s) <-> sponsor_of st i = Some s) /\
    (forall p, sponsor_of st s = Some p -> (p < s < length st)%nat).

(** The sum of the lengths of the frontlines of the objects at
    [refs]. *)
Definition sponsored_by (st : store) (refs : list nat) : nat :=
  fold_right Nat.add 0%nat (map (fun i => length (frontline_of st i)) refs).

(** A store of a root, the [n] objects of its frontline and nothing
    else. *)
Definition star (n : nat) (st : store) : Prop :=
  length st = S n /\
  sponsor_of st 0 = None /\
  frontline_of st 0 = seq 1 n /\
  forall i, (1 <= i)%nat ->
    frontline_of st i = [] /\ ((i <= n)%nat -> sponsor_of st i = Some 0%nat).

(** A store of two levels below its root: the [n] objects of the
    frontline of the root, and [k] objects that each have a sponsor in
    that frontline and no frontline of their own. *)
Definition two_levels (n k : nat) (st : store) : Prop :=
  length st = S (n + k) /\
  sponsor_of st 0 = None /\
  frontline_of st 0 = seq 1 n /\
  (forall i, (1 <= i <= n)%nat ->
     sponsor_of st i = Some 0%nat /\
     Forall (fun j => (n < j)%nat) (frontline_of st i)) /\
  (forall i, (n < i)%nat -> frontline_of st i = []) /\
  (forall i, (n < i < length st)%nat ->
     exists s, sponsor_of st i = Some s /\ (1 <= s <= n)%nat) /\
  sponsored_by st (seq 1 n) = k.

(** The number of participants at and below each object of a store of
    two levels. *)
Definition group_size (n : nat) (st : store) (ref : nat) : Z :=
  if (ref =? 0)%nat then Z.of_nat (length st)
  else 1 + Z.of_nat (length (frontline_of st ref)).

(* ===================================================================== *)
(** * The order of Python's numbers *)
(* ===================================================================== *)

Section Order.

Lemma py_le_spec x y : py_le x y = true <-> xle (value x) (value y).
Proof.
  unfold py_le, py_compare.
  destruct (value x) as [|[|]|p], (value y) as [|[|]|q]; simpl;
    try (split; [discriminate | tauto]); try tauto.
  rewrite Qle_alt. destruct (p ?= q)%Q; split; congruence.
Qed.

Lemma py_lt_spec x y : py_lt x y = true <-> xlt (value x) (value y).
Proof.
  unfold py_lt, py_compare.
  destruct (value x) as [|[|]|p], (value y) as [|[|]|q]; simpl;
    try (split; [discriminate | intuition discriminate]); try tauto.
  rewrite Qlt_alt. destruct (p ?= q)%Q; split; congruence.
Qed.

Lemma xlt_xle a b : xlt a b -> xle a b.
Proof.
  destruct a as [|[|]|p], b as [|[|]|q]; simpl; try tauto;
    try (intuition discriminate).
  apply Qlt_le_weak.
Qed.

Lemma xle_trans a b c : xle a b -> xle b c -> xle a c.
Proof.
  destruct a as [|[|]|p], b as [|[|]|q], c as [|[|]|r]; simpl; try tauto.
  apply Qle_trans.
Qed.

Lemma xle_xlt_trans a b c : xle a b -> xlt b c -> xlt a c.
Proof.
  destruct a as [|[|]|p], b as [|[|]|q], c as [|[|]|r]; simpl; try tauto;
    try (intuition discriminate).
  apply Qle_lt_trans.
Qed.

Lemma xlt_xle_trans a b c : xlt a b -> xle b c -> xlt a c.
Proof.
  destruct a as [|[|]|p], b as [|[|]|q], c as [|[|]|r]; simpl; try tauto;
    try (intuition discriminate).
  apply Qlt_le_trans.
Qed.

Lemma xlt_irrefl a : ~ xlt a a.
Proof.
  destruct a as [|[|]|p]; simpl; try tauto; try (intuition discriminate).
  apply Qlt_irrefl.
Qed.

(** The order is total away from NaN. *)
Lemma xle_or_xlt a b : a <> XNaN -> b <> XNaN -> xle a b \/ xlt b a.
Proof.
  destruct a as [|[|]|p], b as [|[|]|q]; simpl; try tauto; intros _ _.
  destruct (Qlt_le_dec q p); auto.
Qed.

Lemma xle_not_nan_l a b : xle a b -> a <> XNaN.
Proof. destruct a; simpl; congruence || tauto. Qed.

Lemma xle_not_nan_r a b : xle a b -> b <> XNaN.
Proof. destruct a as [|[|]|p], b; simpl; congruence || tauto. Qed.

Lemma xlt_not_nan_l a b : xlt a b -> a <> XNaN.
Proof. intros H. apply xlt_xle in H. eauto using xle_not_nan_l. Qed.

Lemma xlt_not_nan_r a b : xlt a b -> b <> XNaN.
Proof. intros H. apply xlt_xle in H. eauto using xle_not_nan_r. Qed.

(** The same facts on the comparisons of the program. *)
Lemma py_lt_le x y : py_lt x y = true -> py_le x y = true.
Proof. rewrite py_lt_spec, py_le_spec. apply xlt_xle. Qed.

Lemma py_le_trans x y z :
  py_le x y = true -> py_le y z = true -> py_le x z = true.
Proof. rewrite !py_le_spec. apply xle_trans. Qed.

Lemma py_le_lt_trans x y z :
  py_le x y = true -> py_lt y z = true -> py_lt x z = true.
Proof. rewrite !py_le_spec, !py_lt_spec. apply xle_xlt_trans. Qed.

Lemma py_lt_le_trans x y z :
  py_lt x y = true -> py_le y z = true -> py_lt x z = true.
Proof. rewrite !py_le_spec, !py_lt_spec. apply xlt_xle_trans. Qed.

Lemma py_lt_trans x y z :
  py_lt x y = true -> py_lt y z = true -> py_lt x z = true.
Proof. intros H. apply py_le_lt_trans. now apply py_lt_le. Qed.

Lemma py_lt_irrefl x : py_lt x x = false.
Proof.
  destruct (py_lt x x) eqn:E; [|reflexivity].
  apply py_lt_spec in E. now apply xlt_irrefl in E.
Qed.

Lemma py_le_false_lt x y :
  is_nan x = false -> is_nan y = false ->
  py_le x y = false -> py_lt y x = true.
Proof.
  unfold is_nan. intros Hx Hy Hle. apply py_lt_spec.
  destruct (xle_or_xlt (value x) (value y)) as [H|H]; trivial.
  - intros E. now rewrite E in Hx.
  - intros E. now rewrite E in Hy.
  - apply py_le_spec in H. congruence.
Qed.

Lemma py_le_not_lt x y : py_le x y = true -> py_lt y x = false.
Proof.
  intros H. destruct (py_lt y x) eqn:E; [|reflexivity].
  pose proof (py_le_lt_trans _ _ _ H E) as F.
  now rewrite py_lt_irrefl in F.
Qed.

Lemma py_le_is_nan_l x y : py_le x y = true -> is_nan x = false.
Proof.
  rewrite py_le_spec. unfold is_nan. intros H.
  apply xle_not_nan_l in H. now destruct (value x).
Qed.

Lemma py_le_is_nan_r x y : py_le x y = true -> is_nan y = false.
Proof.
  rewrite py_le_spec. unfold is_nan. intros H.
  apply xle_not_nan_r in H. now destruct (value y).
Qed.

Lemma py_lt_is_nan_l x y : py_lt x y = true -> is_nan x = false.
Proof. intros H. apply py_lt_le in H. eauto using py_le_is_nan_l. Qed.

Lemma py_lt_is_nan_r x y : py_lt x y = true -> is_nan y = false.
Proof. intros H. apply py_lt_le in H. eauto using py_le_is_nan_r. Qed.

(** Between two [int]s the comparisons are those of the integers. *)
Lemma py_le_int a b : py_le (PyInt a) (PyInt b) = (a <=? b).
Proof.
  apply eq_true_iff_eq. rewrite py_le_spec, Z.leb_le. simpl.
  rewrite Zle_Qle. tauto.
Qed.

Lemma py_lt_int a b : py_lt (PyInt a) (PyInt b) = (a <? b).
Proof.
  apply eq_true_iff_eq. rewrite py_lt_spec, Z.ltb_lt. simpl.
  rewrite Zlt_Qlt. tauto.
Qed.

Lemma py_le_inf v : is_nan v = false -> py_le v (PyFloat finf) = true.
Proof.
  unfold is_nan. intros H. apply py_le_spec. simpl.
  destruct (value v) as [|[|]|q]; simpl; trivial; discriminate.
Qed.

End Order.

(* ===================================================================== *)
(** * Rounding *)
(* ===================================================================== *)

(** ** Signs *)

Section Signs.

Lemma finite_nonneg_nonneg f : finite_nonneg f = true -> nonneg f = true.
Proof. now destruct f. Qed.

Lemma nonneg_ge_zero f :
  nonneg f = true -> py_ge (PyFloat f) (PyFloat fzero) = true.
Proof.
  unfold py_ge. rewrite py_le_spec.
  destruct f as [[|]|[|]| |[|] m e]; simpl; trivial; try discriminate;
    try easy.
  intros _. apply Qmult_le_0_compat; [easy|].
  apply Qpower_0_le. easy.
Qed.

Lemma iter_pos_invariant {A : Type} (f : A -> A) (I : A -> Prop) :
  (forall x, I x -> I (f x)) -> forall p x, I x -> I (iter_pos f p x).
Proof.
  intros Hf. induction p as [p IH|p IH|]; intros x Hx; simpl; auto.
Qed.

Lemma shr_1_nonneg mrs : 0 <= shr_m mrs -> 0 <= shr_m (shr_1 mrs).
Proof.
  destruct mrs as [m r s]. simpl.
  destruct m as [|[p|p|]|[p|p|]]; simpl; lia.
Qed.

Lemma shr_fexp_nonneg m e l :
  0 <= m -> 0 <= shr_m (fst (shr_fexp prec emax m e l)).
Proof.
  intros Hm. unfold shr_fexp, shr.
  assert (H0 : 0 <= shr_m (shr_record_of_loc m l)) by (destruct l as [|[| |]]; exact Hm).
  destruct (fexp prec emax (Zdigits2 m + e) - e) as [|p|p]; simpl; trivial.
  apply iter_pos_invariant; [apply shr_1_nonneg|exact H0].
Qed.

Lemma round_nearest_even_nonneg m l : 0 <= m -> 0 <= round_nearest_even m l.
Proof.
  intros Hm. destruct l as [|[| |]]; simpl; try lia.
  destruct (Z.even m); lia.
Qed.

(** Rounding a non-negative mantissa with a positive sign gives a
    non-negative float. *)
Lemma binary_round_aux_nonneg m e l :
  0 <= m -> nonneg (binary_round_aux prec emax false m e l) = true.
Proof.
  intros Hm. unfold binary_round_aux.
  pose proof (shr_fexp_nonneg m e l Hm) as H1.
  destruct (shr_fexp prec emax m e l) as [mrs' e']. simpl in H1.
  pose proof (shr_fexp_nonneg _ e' loc_Exact
                (round_nearest_even_nonneg _ (loc_of_shr_record mrs') H1)) as H2.
  destruct (shr_fexp prec emax _ e' loc_Exact) as [mrs'' e'']. simpl in H2.
  destruct (shr_m mrs'') as [|p|p]; try reflexivity; [|lia].
  now destruct (e'' <=? emax - prec).
Qed.

Lemma fmul_finite_nonneg a b :
  finite_nonneg a = true -> finite_nonneg b = true -> nonneg (fmul a b) = true.
Proof.
  destruct a as [[|]| | |[|] ma ea], b as [[|]| | |[|] mb eb];
    simpl; try discriminate; trivial; intros _ _.
  apply binary_round_aux_nonneg. lia.
Qed.

Lemma fmul_nonneg_positive a m e :
  nonneg a = true -> nonneg (fmul a (S754_finite false m e)) = true.
Proof.
  destruct a as [[|]|[|]| |[|] ma ea]; simpl; try discriminate; trivial; intros _.
  apply binary_round_aux_nonneg. lia.
Qed.

Lemma float_of_Z_nonneg n : 0 <= n -> nonneg (float_of_Z n) = true.
Proof.
  intros Hn. unfold float_of_Z, binary_normalize.
  destruct n as [|p|p]; [reflexivity| |lia].
  unfold binary_round. destruct (shl_align _ _ _) as [mz ez].
  apply binary_round_aux_nonneg. lia.
Qed.

Lemma to_float_nonneg n f :
  0 <= n -> to_float (PyInt n) = Ok f -> finite_nonneg f = true.
Proof.
  intros Hn. unfold to_float. pose proof (float_of_Z_nonneg n Hn) as H.
  destruct (float_of_Z n) as [s|s| |s m e]; try discriminate;
    intros [= <-]; exact H.
Qed.

End Signs.

(** ** The rounded mantissa *)

Section Mantissa.

Lemma digits2_pos_bounds p :
  2 ^ (Zpos (digits2_pos p) - 1) <= Zpos p < 2 ^ Zpos (digits2_pos p).
Proof.
  induction p as [p IH|p IH|]; simpl digits2_pos.
  - rewrite Pos2Z.inj_succ.
    replace (Z.succ (Zpos (digits2_pos p)) - 1) with (Z.succ (Zpos (digits2_pos p) - 1)) by lia.
    rewrite !Z.pow_succ_r by lia. lia.
  - rewrite Pos2Z.inj_succ.
    replace (Z.succ (Zpos (digits2_pos p)) - 1) with (Z.succ (Zpos (digits2_pos p) - 1)) by lia.
    rewrite !Z.pow_succ_r by lia. lia.
  - simpl. lia.
Qed.

Lemma digits2_pos_unique p d :
  2 ^ (d - 1) <= Zpos p < 2 ^ d -> Zpos (digits2_pos p) = d.
Proof.
  intros [H1 H2]. pose proof (digits2_pos_bounds p) as [B1 B2].
  assert (0 < d).
  { destruct (Z.lt_ge_cases 0 d); trivial.
    assert (2 ^ d <= 1); [|lia].
    destruct (Z.eq_dec d 0) as [->|]; [simpl; lia|].
    rewrite Z.pow_neg_r; lia. }
  destruct (Z.lt_trichotomy (Zpos (digits2_pos p)) d) as [L|[E|G]]; trivial; exfalso.
  - assert (2 ^ Zpos (digits2_pos p) <= 2 ^ (d - 1)) by (apply Z.pow_le_mono_r; lia). lia.
  - assert (2 ^ d <= 2 ^ (Zpos (digits2_pos p) - 1)) by (apply Z.pow_le_mono_r; lia). lia.
Qed.

Lemma shr_1_m mrs : 0 <= shr_m mrs -> shr_m (shr_1 mrs) = shr_m mrs / 2.
Proof.
  destruct mrs as [m r s]. simpl.
  destruct m as [|[p|p|]|[p|p|]]; simpl shr_m; intros H; try lia;
    try reflexivity.
  - change (Z.pos p~1) with (2 * Z.pos p + 1).
    apply Z.div_unique with 1; lia.
  - change (Z.pos p~0) with (2 * Z.pos p).
    apply Z.div_unique with 0; lia.
Qed.

Lemma iter_shr_1_m p : forall mrs,
  0 <= shr_m mrs ->
  0 <= shr_m (iter_pos shr_1 p mrs) /\
  shr_m (iter_pos shr_1 p mrs) = shr_m mrs / 2 ^ Zpos p.
Proof.
  induction p as [p IH|p IH|]; intros mrs H; simpl iter_pos.
  - pose proof (shr_1_nonneg mrs H) as H1.
    destruct (IH _ H1) as [H2 E2]. destruct (IH _ H2) as [H3 E3].
    split; trivial. rewrite E3, E2, shr_1_m by trivial.
    rewrite !Z.div_div by lia. f_equal.
    rewrite (Pos2Z.inj_xI p).
    replace (2 * Zpos p + 1) with (1 + Zpos p + Zpos p) by lia.
    rewrite !Z.pow_add_r by lia. lia.
  - destruct (IH _ H) as [H2 E2]. destruct (IH _ H2) as [H3 E3].
    split; trivial. rewrite E3, E2.
    rewrite !Z.div_div by lia. f_equal.
    rewrite (Pos2Z.inj_xO p).
    replace (2 * Zpos p) with (Zpos p + Zpos p) by lia.
    rewrite !Z.pow_add_r by lia. lia.
  - split; [now apply shr_1_nonneg|]. now rewrite shr_1_m.
Qed.

Lemma fexp_normal x : -1074 <= x - 53 -> fexp prec emax x = x - 53.
Proof. unfold fexp, SpecFloat.emin, prec, emax. lia. Qed.

Lemma round_nearest_even_bounds m l :
  m <= round_nearest_even m l <= m + 1.
Proof.
  destruct l as [|[| |]]; simpl; try lia. destruct (Z.even m); lia.
Qed.

Lemma shr_fexp_normal p e l :
  let k := Zpos (digits2_pos p) - 53 in
  0 <= k -> -1074 <= e + k ->
  shr_m (fst (shr_fexp prec emax (Zpos p) e l)) = Zpos p / 2 ^ k /\
  snd (shr_fexp prec emax (Zpos p) e l) = e + k /\
  (k = 0 -> fst (shr_fexp prec emax (Zpos p) e l) = shr_record_of_loc (Zpos p) l).
Proof.
  intros k Hk He. unfold shr_fexp. simpl Zdigits2.
  rewrite fexp_normal by (unfold k in *; lia).
  replace (Zpos (digits2_pos p) + e - 53 - e) with k by (unfold k; lia).
  assert (M : shr_m (shr_record_of_loc (Zpos p) l) = Zpos p)
    by (destruct l as [|[| |]]; reflexivity).
  unfold shr. destruct k as [|q|q] eqn:Ek; simpl fst; simpl snd.
  - rewrite M, Z.div_1_r. repeat split; lia.
  - destruct (iter_shr_1_m q (shr_record_of_loc (Zpos p) l)) as [_ E]; [rewrite M; lia|].
    rewrite E, M. repeat split. lia.
  - lia.
Qed.

Lemma binary_round_aux_normal p e :
  let k := Zpos (digits2_pos p) - 53 in
  0 <= k -> -1074 <= e + k ->
  exists m2,
    Zpos p / 2 ^ k <= m2 <= Zpos p / 2 ^ k + 1 /\
    2 ^ 52 <= Zpos p / 2 ^ k < 2 ^ 53 /\
    (k = 0 -> m2 = Zpos p) /\
    binary_round_aux prec emax false (Zpos p) e loc_Exact = rounded m2 (e + k).
Proof.
  intros k Hk He.
  destruct (shr_fexp_normal p e loc_Exact Hk He) as (E1 & E2 & E3).
  fold k in E1, E2, E3.
  assert (B : 2 ^ 52 <= Zpos p / 2 ^ k < 2 ^ 53).
  { pose proof (digits2_pos_bounds p) as [B1 B2].
    replace (Zpos (digits2_pos p) - 1) with (52 + k) in B1 by (unfold k; lia).
    replace (Zpos (digits2_pos p)) with (53 + k) in B2 by (unfold k; lia).
    rewrite Z.pow_add_r in B1, B2 by lia.
    assert (0 < 2 ^ k) by (apply Z.pow_pos_nonneg; lia).
    split.
    - apply Z.div_le_lower_bound; lia.
    - apply Z.div_lt_upper_bound; lia. }
  unfold binary_round_aux.
  destruct (shr_fexp prec emax (Zpos p) e loc_Exact) as [mrs' e'].
  simpl in E1, E2, E3. subst e'.
  set (m2 := round_nearest_even (shr_m mrs') (loc_of_shr_record mrs')).
  pose proof (round_nearest_even_bounds (shr_m mrs') (loc_of_shr_record mrs')) as R.
  fold m2 in R. rewrite E1 in R.
  exists m2. split; [exact R|]. split; [exact B|]. split.
  { intros K. unfold m2. rewrite (E3 K). reflexivity. }
  assert (P : 0 < m2) by lia.
  destruct m2 as [|q|q] eqn:Em2; try lia.
  unfold rounded.
  destruct (Z.ltb_spec (Zpos q) (2 ^ 53)) as [L|L].
  - assert (D : Zpos (digits2_pos q) - 53 = 0).
    { rewrite (digits2_pos_unique q 53); [reflexivity|]. simpl Z.sub. lia. }
    destruct (shr_fexp_normal q (e + k) loc_Exact) as (F1 & F2 & F3);
      rewrite ?D; try lia.
    rewrite D in F1, F2, F3.
    destruct (shr_fexp prec emax (Zpos q) (e + k) loc_Exact) as [mrs'' e''].
    simpl in F1, F2, F3. rewrite (F3 eq_refl). simpl shr_m.
    subst e''. rewrite Z.add_0_r. simpl Z.to_pos. reflexivity.
  - assert (Q : Zpos q = 2 ^ 53) by lia.
    injection Q as ->.
    destruct (shr_fexp_normal (Z.to_pos (2 ^ 53)) (e + k) loc_Exact) as (F1 & F2 & F3);
      try (simpl; lia).
    change (Zpos (Z.to_pos (2 ^ 53))) with (2 ^ 53) in F1, F2, F3.
    simpl in F1, F2, F3 |- *.
    destruct (shr_fexp prec emax _ (e + k) loc_Exact) as [mrs'' e''].
    simpl in F1, F2. rewrite F1, F2. reflexivity.
Qed.

Lemma iter_xO p q : Zpos (Pos.iter xO p q) = Zpos p * 2 ^ Zpos q.
Proof.
  revert p. induction q as [q IH|q IH|]; intros p; simpl Pos.iter.
  - rewrite (Pos2Z.inj_xO (Pos.iter xO (Pos.iter xO p q) q)), !IH.
    rewrite (Pos2Z.inj_xI q).
    replace (2 * Zpos q + 1) with (1 + Zpos q + Zpos q) by lia.
    rewrite !Z.pow_add_r by lia. lia.
  - rewrite !IH. rewrite (Pos2Z.inj_xO q).
    replace (2 * Zpos q) with (Zpos q + Zpos q) by lia.
    rewrite !Z.pow_add_r by lia. lia.
  - rewrite (Pos2Z.inj_xO p). lia.
Qed.

(** The float of a positive integer: a mantissa of 53 bits, possibly
    carried to [2^53], at the exponent that leaves 53 bits. *)
Lemma float_of_Z_pos p :
  let d := Zpos (digits2_pos p) in
  exists M, 2 ^ 52 <= M <= 2 ^ 53 /\ float_of_Z (Zpos p) = rounded M (d - 53).
Proof.
  intros d. unfold float_of_Z, binary_normalize, binary_round.
  rewrite fexp_normal by lia. fold d. unfold shl_align.
  replace (d + 0 - 53 - 0) with (d - 53) by lia.
  pose proof (binary_round_aux_normal p 0) as N. cbv zeta in N. fold d in N.
  destruct (d - 53) as [|q|q] eqn:Ek.
  - destruct N as (m2 & R & B & K & E); try lia.
    exists m2. rewrite E. split; [|reflexivity].
    rewrite (K eq_refl). rewrite Z.pow_0_r, Z.div_1_r in B. lia.
  - destruct N as (m2 & R & B & K & E); try lia.
    exists m2. rewrite E. split; [lia|reflexivity].
  - clear N. pose proof (iter_xO p q) as I.
    pose proof (digits2_pos_bounds p) as [B1 B2]. fold d in B1, B2.
    assert (D : Zpos (digits2_pos (Pos.iter xO p q)) = 53).
    { apply digits2_pos_unique. rewrite I.
      assert (Hq : Zpos q = 53 - d) by lia. rewrite Hq.
      assert (P1 : 2 ^ (53 - 1) = 2 ^ (d - 1) * 2 ^ (53 - d))
        by (rewrite <- Z.pow_add_r by lia; f_equal; lia).
      assert (P2 : 2 ^ 53 = 2 ^ d * 2 ^ (53 - d))
        by (rewrite <- Z.pow_add_r by lia; f_equal; lia).
      assert (0 < 2 ^ (53 - d)) by (apply Z.pow_pos_nonneg; lia).
      rewrite P1, P2.
      split; [apply Z.mul_le_mono_nonneg_r|apply Z.mul_lt_mono_pos_r]; lia. }
    pose proof (binary_round_aux_normal (Pos.iter xO p q) (d + 0 - 53)) as N.
    cbv zeta in N. rewrite D in N.
    destruct N as (m2 & R & B & K & E); try lia.
    rewrite E. exists m2. rewrite (K eq_refl).
    change (2 ^ (53 - 53)) with 1 in B. rewrite Z.div_1_r in B.
    split; [lia|]. f_equal. lia.
Qed.

Lemma rounded_cases M E :
  2 ^ 52 <= M <= 2 ^ 53 ->
  (rounded M E = S754_infinity false /\
   (971 < E \/ (2 ^ 53 <= M /\ 970 < E))) \/
  (exists m e, rounded M E = S754_finite false m e /\
               2 ^ 52 <= Zpos m < 2 ^ 53 /\ E <= e <= 971 /\ e <= E + 1 /\
               Zpos m * 2 ^ (e - E) = M /\ (M < 2 ^ 53 -> e = E)).
Proof.
  intros HM. unfold rounded.
  destruct (Z.ltb_spec M (2 ^ 53)) as [L|L].
  - destruct (Z.leb_spec E 971) as [B|B]; [right|left; split; [reflexivity|lia]].
    exists (Z.to_pos M), E. rewrite Z2Pos.id by lia.
    rewrite Z.sub_diag, Z.pow_0_r. repeat split; lia.
  - destruct (Z.leb_spec (E + 1) 971) as [B|B]; [right|left; split; [reflexivity|lia]].
    exists (Z.to_pos (2 ^ 52)), (E + 1).
    replace (E + 1 - E) with 1 by lia.
    repeat split; try lia; try (simpl; lia).
Qed.

(** The float of a positive integer that converts is normal. *)
Lemma to_float_pos n x :
  1 <= n -> to_float (PyInt n) = Ok x ->
  exists mx ex, x = S754_finite false mx ex /\
                2 ^ 52 <= Zpos mx < 2 ^ 53 /\ -52 <= ex <= 971.
Proof.
  intros Hn. destruct n as [|p|p]; try lia. unfold to_float.
  destruct (float_of_Z_pos p) as (M & HM & E). rewrite E.
  destruct (rounded_cases M (Zpos (digits2_pos p) - 53) HM)
    as [[-> _]|(m & e & -> & Bm & Be & _ & _ & _)]; [discriminate|].
  intros [= <-]. exists m, e. repeat split; lia.
Qed.

(** Integers below [2^1023] convert. *)
Lemma to_float_total n :
  0 <= n < 2 ^ 1023 -> exists x, to_float (PyInt n) = Ok x.
Proof.
  intros [H0 Hn]. destruct n as [|p|p]; try lia.
  - eexists. reflexivity.
  - unfold to_float. destruct (float_of_Z_pos p) as (M & HM & E). rewrite E.
    pose proof (digits2_pos_bounds p) as [B1 _].
    assert (Hd : Zpos (digits2_pos p) <= 1023).
    { destruct (Z.lt_ge_cases 1023 (Zpos (digits2_pos p))) as [L|]; [|lia].
      assert (2 ^ 1023 <= 2 ^ (Zpos (digits2_pos p) - 1))
        by (apply Z.pow_le_mono_r; lia). lia. }
    destruct (rounded_cases M (Zpos (digits2_pos p) - 53) HM)
      as [[_ Hinf]|(m & e & -> & _)]; [lia|eauto].
Qed.

End Mantissa.

(** ** The numbers floats denote *)

Lemma pow2_scale m e e0 :
  e0 <= e -> (inject_Z m * 2 ^ e == inject_Z (m * 2 ^ (e - e0)) * 2 ^ e0)%Q.
Proof.
  intros H. replace e with ((e - e0) + e0) at 1 by lia.
  rewrite Qpower_plus by easy.
  rewrite inject_Z_mult, (Zpower_Qpower 2 (e - e0)) by lia.
  change (inject_Z 2) with 2%Q. ring.
Qed.

Lemma pow2_pos e : (0 < 2 ^ e)%Q.
Proof. apply Qpower_0_lt. reflexivity. Qed.

Lemma finite_lt m1 e1 m2 e2 e0 :
  e0 <= e1 -> e0 <= e2 ->
  Zpos m1 * 2 ^ (e1 - e0) < Zpos m2 * 2 ^ (e2 - e0) ->
  py_lt (PyFloat (S754_finite false m1 e1)) (PyFloat (S754_finite false m2 e2)) = true.
Proof.
  intros H1 H2 H. apply py_lt_spec. simpl.
  rewrite (pow2_scale _ e1 e0 H1), (pow2_scale _ e2 e0 H2).
  apply Qmult_lt_compat_r; [apply pow2_pos|].
  now rewrite <- Zlt_Qlt.
Qed.

(** The product of a float in [[0.5, 1)] and a normal float. *)
Lemma fmul_below_one mc mx ex :
  2 ^ 52 <= Zpos mc < 2 ^ 53 -> 2 ^ 52 <= Zpos mx < 2 ^ 53 ->
  -1000 <= ex <= 971 ->
  exists k m2 m e,
    0 <= k <= 53 /\
    Zpos mc * Zpos mx / 2 ^ k <= m2 <= Zpos mc * Zpos mx / 2 ^ k + 1 /\
    fmul (S754_finite false mc (-53)) (S754_finite false mx ex) =
      S754_finite false m e /\
    ex - 53 <= e /\
    Zpos m * 2 ^ (e - (ex - 53)) = m2 * 2 ^ k.
Proof.
  intros Hc Hx He. unfold fmul, SFmul. cbn [xorb].
  set (P := (mc * mx)%positive).
  assert (EP : Zpos P = Zpos mc * Zpos mx) by reflexivity.
  assert (BP : 2 ^ 104 <= Zpos P < 2 ^ 106).
  { rewrite EP. change (2 ^ 104) with (2 ^ 52 * 2 ^ 52).
    change (2 ^ 106) with (2 ^ 53 * 2 ^ 53). nia. }
  pose proof (digits2_pos_bounds P) as [D1 D2].
  set (d := Zpos (digits2_pos P)) in *.
  assert (Hd : 105 <= d <= 106).
  { split.
    - destruct (Z.lt_ge_cases d 105) as [L|]; [|lia].
      assert (2 ^ d <= 2 ^ 104) by (apply Z.pow_le_mono_r; lia). lia.
    - destruct (Z.lt_ge_cases 106 d) as [L|]; [|lia].
      assert (2 ^ 106 <= 2 ^ (d - 1)) by (apply Z.pow_le_mono_r; lia). lia. }
  pose proof (binary_round_aux_normal P (-53 + ex)) as N. cbv zeta in N.
  fold d in N. destruct N as (m2 & R & B & _ & E); try lia.
  rewrite E. rewrite EP in R, B.
  assert (M2 : m2 < 2 ^ 53 \/ d = 105).
  { destruct (Z.eq_dec d 105) as [|Hne]; [now right|left].
    assert (d = 106) by lia.
    assert (Zpos mc * Zpos mx / 2 ^ (d - 53) < Zpos mc); [|lia].
    apply Z.div_lt_upper_bound; [apply Z.pow_pos_nonneg; lia|].
    replace (d - 53) with 53 by lia. nia. }
  destruct (rounded_cases m2 (-53 + ex + (d - 53))) as [[_ Hinf]|(m & e & Em & Bm & Be & Be' & V & Hno)];
    [lia| |].
  - exfalso. lia.
  - exists (d - 53), m2, m, e. rewrite Em.
    repeat split; try lia.
    replace (e - (ex - 53)) with ((e - (-53 + ex + (d - 53))) + (d - 53)) by lia.
    rewrite Z.pow_add_r by lia. rewrite Z.mul_assoc, V. reflexivity.
Qed.

Lemma fmul_below_one_ordered mc1 mc2 mx ex :
  2 ^ 52 <= Zpos mc1 -> Zpos mc1 + 4 <= Zpos mc2 -> Zpos mc2 < 2 ^ 53 ->
  2 ^ 52 <= Zpos mx < 2 ^ 53 -> -1000 <= ex <= 971 ->
  py_lt (PyFloat (fmul (S754_finite false mc1 (-53)) (S754_finite false mx ex)))
        (PyFloat (fmul (S754_finite false mc2 (-53)) (S754_finite false mx ex)))
  = true.
Proof.
  intros H1 HD H2 Hx He.
  destruct (fmul_below_one mc1 mx ex) as (k1 & a & m1 & e1 & K1 & A & -> & E1 & V1);
    try lia.
  destruct (fmul_below_one mc2 mx ex) as (k2 & b & m2 & e2 & K2 & B & -> & E2 & V2);
    try lia.
  apply (finite_lt _ _ _ _ (ex - 53)); trivial.
  rewrite V1, V2.
  assert (P1 : 0 < 2 ^ k1 <= 2 ^ 53)
    by (split; [apply Z.pow_pos_nonneg|apply Z.pow_le_mono_r]; lia).
  assert (P2 : 0 < 2 ^ k2 <= 2 ^ 53)
    by (split; [apply Z.pow_pos_nonneg|apply Z.pow_le_mono_r]; lia).
  pose proof (Z.mul_div_le (Zpos mc1 * Zpos mx) (2 ^ k1) (proj1 P1)) as L1.
  pose proof (Z.mul_succ_div_gt (Zpos mc2 * Zpos mx) (2 ^ k2) (proj1 P2)) as L2.
  set (qa := Zpos mc1 * Zpos mx / 2 ^ k1) in *.
  set (qb := Zpos mc2 * Zpos mx / 2 ^ k2) in *.
  assert (U1 : a * 2 ^ k1 <= Zpos mc1 * Zpos mx + 2 ^ 53) by nia.
  assert (U2 : Zpos mc2 * Zpos mx - 2 ^ 53 < b * 2 ^ k2) by nia.
  assert (G : Zpos mc1 * Zpos mx + 2 ^ 54 <= Zpos mc2 * Zpos mx).
  { change (2 ^ 54) with (4 * 2 ^ 52). nia. }
  change (2 ^ 54) with (2 ^ 53 + 2 ^ 53) in G. lia.
Qed.

Lemma gate_59_below_60 n x :
  1 <= n -> to_float (PyInt n) = Ok x ->
  exists t59 t60,
    py_mul (PyFloat (dec 59 100)) (PyInt n) = Ok t59 /\
    py_mul (PyFloat (dec 6 10)) (PyInt n) = Ok t60 /\
    py_lt t59 t60 = true.
Proof.
  intros Hn Ex. destruct (to_float_pos n x Hn Ex) as (mx & ex & -> & Bm & Be).
  unfold py_mul, binop. cbn [to_float bind]. rewrite Ex. cbn [bind].
  do 2 eexists. repeat split.
  replace (dec 59 100) with (S754_finite false 5314247560297185 (-53))
    by (vm_compute; reflexivity).
  replace (dec 6 10) with (S754_finite false 5404319552844595 (-53))
    by (vm_compute; reflexivity).
  apply fmul_below_one_ordered; lia.
Qed.

(** ** Agreement with the IEEE comparison *)

Lemma Qcompare_intro p q c :
  match c with
  | Lt => (p < q)%Q
  | Eq => (p == q)%Q
  | Gt => (q < p)%Q
  end -> (p ?= q)%Q = c.
Proof.
  destruct c; intros H.
  - now apply Qeq_alt.
  - now apply Qlt_alt.
  - now apply Qgt_alt.
Qed.

Lemma valid_finite s m e :
  valid_binary prec emax (S754_finite s m e) = true ->
  -1074 <= e /\ Zpos (digits2_pos m) <= 53 /\
  (-1074 < e -> Zpos (digits2_pos m) = 53).
Proof.
  unfold valid_binary, bounded, canonical_mantissa, fexp, SpecFloat.emin, prec, emax.
  intros H. apply andb_true_iff in H as [H _]. apply Z.eqb_eq in H. lia.
Qed.

Lemma positive_value m e : (0 < inject_Z (Zpos m) * 2 ^ e)%Q.
Proof. apply Qmult_lt_0_compat; [reflexivity|apply pow2_pos]. Qed.

(** Of two valid positive floats, the one with the smaller exponent is
    the smaller. *)
Lemma smaller_exponent m1 e1 m2 e2 :
  valid_binary prec emax (S754_finite false m1 e1) = true ->
  valid_binary prec emax (S754_finite false m2 e2) = true ->
  e1 < e2 ->
  (inject_Z (Zpos m1) * 2 ^ e1 < inject_Z (Zpos m2) * 2 ^ e2)%Q.
Proof.
  intros V1 V2 H.
  destruct (valid_finite _ _ _ V1) as (L1 & D1 & _).
  destruct (valid_finite _ _ _ V2) as (_ & _ & D2). specialize (D2 ltac:(lia)).
  pose proof (digits2_pos_bounds m1) as [_ B1].
  pose proof (digits2_pos_bounds m2) as [B2 _]. rewrite D2 in B2.
  assert (Zpos m1 < 2 ^ 53).
  { assert (2 ^ Zpos (digits2_pos m1) <= 2 ^ 53) by (apply Z.pow_le_mono_r; lia). lia. }
  rewrite (pow2_scale (Zpos m2) e2 e1) by lia.
  apply Qmult_lt_compat_r; [apply pow2_pos|].
  rewrite <- Zlt_Qlt.
  assert (2 ^ 1 <= 2 ^ (e2 - e1)) by (apply Z.pow_le_mono_r; lia).
  change (2 ^ (53 - 1)) with (2 ^ 52) in B2. change (2 ^ 53) with (2 ^ 52 * 2 ^ 1) in *.
  nia.
Qed.

Lemma same_exponent (a b : Z) e :
  (inject_Z a * 2 ^ e ?= inject_Z b * 2 ^ e)%Q = (a ?= b).
Proof.
  apply Qcompare_intro. destruct (Z.compare_spec a b) as [->|H|H].
  - reflexivity.
  - apply Qmult_lt_compat_r; [apply pow2_pos|]. now rewrite <- Zlt_Qlt.
  - apply Qmult_lt_compat_r; [apply pow2_pos|]. now rewrite <- Zlt_Qlt.
Qed.

Lemma positive_compare m1 e1 m2 e2 :
  valid_binary prec emax (S754_finite false m1 e1) = true ->
  valid_binary prec emax (S754_finite false m2 e2) = true ->
  (inject_Z (Zpos m1) * 2 ^ e1 ?= inject_Z (Zpos m2) * 2 ^ e2)%Q =
  match e1 ?= e2 with
  | Lt => Lt
  | Gt => Gt
  | Eq => Pos.compare_cont Eq m1 m2
  end.
Proof.
  intros V1 V2. destruct (Z.compare_spec e1 e2) as [->|H|H].
  - apply same_exponent.
  - apply Qcompare_intro. now apply smaller_exponent.
  - apply Qcompare_intro. now apply smaller_exponent.
Qed.

Lemma negative_compare (p q : Q) : (- p ?= - q)%Q = CompOpp (p ?= q)%Q.
Proof.
  apply Qcompare_intro.
  destruct (p ?= q)%Q eqn:E; simpl.
  - apply Qeq_alt in E. now rewrite E.
  - apply Qlt_alt in E. now apply Qopp_lt_compat.
  - apply Qgt_alt in E. now apply Qopp_lt_compat.
Qed.

(** On valid floats the comparison of the numbers denoted is the IEEE
    comparison. *)
Lemma float_compare_exact f1 f2 :
  valid_binary prec emax f1 = true -> valid_binary prec emax f2 = true ->
  py_compare (PyFloat f1) (PyFloat f2) = SFcompare f1 f2.
Proof.
  intros V1 V2. unfold py_compare. simpl value.
  destruct f1 as [s1|s1| |s1 m1 e1], f2 as [s2|s2| |s2 m2 e2];
    try reflexivity; try (now destruct s1, s2); try (now destruct s1);
    try (now destruct s2).
  - (* zero, finite *)
    simpl. f_equal. apply Qcompare_intro. destruct s2; simpl cond_Zopp.
    + change (inject_Z (Zneg m2)) with (- inject_Z (Zpos m2))%Q.
      pose proof (positive_value m2 e2). lra.
    + apply positive_value.
  - (* finite, zero *)
    simpl. f_equal. apply Qcompare_intro. destruct s1; simpl cond_Zopp.
    + change (inject_Z (Zneg m1)) with (- inject_Z (Zpos m1))%Q.
      pose proof (positive_value m1 e1). lra.
    + apply positive_value.
  - (* finite, finite *)
    simpl. f_equal. destruct s1, s2; simpl cond_Zopp.
    + change (inject_Z (Zneg m1)) with (- inject_Z (Zpos m1))%Q.
      change (inject_Z (Zneg m2)) with (- inject_Z (Zpos m2))%Q.
      assert (E : forall a b : Q, (- a * b == - (a * b))%Q) by (intros; ring).
      rewrite !E, negative_compare, positive_compare by trivial.
      destruct (e1 ?= e2); reflexivity.
    + apply Qcompare_intro.
      change (inject_Z (Zneg m1)) with (- inject_Z (Zpos m1))%Q.
      pose proof (positive_value m1 e1). pose proof (positive_value m2 e2). lra.
    + apply Qcompare_intro.
      change (inject_Z (Zneg m2)) with (- inject_Z (Zpos m2))%Q.
      pose proof (positive_value m1 e1). pose proof (positive_value m2 e2). lra.
    + now apply positive_compare.
Qed.

(** The literals of the program, as the mantissa and exponent of the
    floats Python reads them as:
    0.03 ... 0.25, 299.99 ... 7499.99, 3.36, 0.6, 0.1 and 75.0. *)
Lemma literals :
  dec 3 100 = S754_finite false 8646911284551352 (-58) /\
  dec 6 100 = S754_finite false 8646911284551352 (-57) /\
  dec 9 100 = S754_finite false 6485183463413514 (-56) /\
  dec 12 100 = S754_finite false 8646911284551352 (-56) /\
  dec 15 100 = S754_finite false 5404319552844595 (-55) /\
  dec 18 100 = S754_finite false 6485183463413514 (-55) /\
  dec 21 100 = S754_finite false 7566047373982433 (-55) /\
  dec 23 100 = S754_finite false 8286623314361713 (-55) /\
  dec 25 100 = S754_finite false 4503599627370496 (-54) /\
  dec 29999 100 = S754_finite false 5277479891464356 (-44) /\
  dec 59999 100 = S754_finite false 5277567852394578 (-43) /\
  dec 99999 100 = S754_finite false 8796005061277778 (-43) /\
  dec 149999 100 = S754_finite false 6597025786190889 (-42) /\
  dec 249999 100 = S754_finite false 5497536148647444 (-41) /\
  dec 399999 100 = S754_finite false 8796071031975444 (-41) /\
  dec 599999 100 = S754_finite false 6597058771539722 (-40) /\
  dec 749999 100 = S754_finite false 8246326213203722 (-40) /\
  dec 336 100 = S754_finite false 7566047373982433 (-51) /\
  dec 6 10 = S754_finite false 5404319552844595 (-53) /\
  dec 1 10 = S754_finite false 7205759403792794 (-56) /\
  dec 750 10 = S754_finite false 5277655813324800 (-46).
Proof. vm_compute. repeat split. Qed.

(** They are valid binary64 numbers, so the program's comparisons against
    them are the IEEE comparisons. *)
Lemma literals_valid :
  forallb (valid_binary prec emax)
    [ dec 3 100;
      dec 6 100;
      dec 9 100;
      dec 12 100;
      dec 15 100;
      dec 18 100;
      dec 21 100;
      dec 23 100;
      dec 25 100;
      dec 29999 100;
      dec 59999 100;
      dec 99999 100;
      dec 149999 100;
      dec 249999 100;
      dec 399999 100;
      dec 599999 100;
      dec 749999 100;
      dec 336 100;
      dec 6 10;
      dec 1 10;
      dec 750 10;
      fzero; finf ] = true.
Proof. vm_compute. reflexivity. Qed.

Lemma float_order_exact f1 f2 :
  valid_binary prec emax f1 = true -> valid_binary prec emax f2 = true ->
  py_lt (PyFloat f1) (PyFloat f2) = SFltb f1 f2 /\
  py_le (PyFloat f1) (PyFloat f2) = SFleb f1 f2 /\
  py_eq (PyFloat f1) (PyFloat f2) = SFeqb f1 f2.
Proof.
  intros V1 V2. unfold py_lt, py_le, py_eq, SFltb, SFleb, SFeqb.
  now rewrite (float_compare_exact f1 f2 V1 V2).
Qed.

(** ** Sums *)
















(** ** Products *)

(** The float of a positive integer below [2^950] is normal, with an
    exponent of at most 898. *)
Lemma to_float_pos_below n x :
  1 <= n < 2 ^ 950 -> to_float (PyInt n) = Ok x ->
  exists mx ex, x = S754_finite false mx ex /\
                2 ^ 52 <= Zpos mx < 2 ^ 53 /\ -900 <= ex <= 900.
Proof.
  intros [Hn Hb]. destruct n as [|p|p]; try lia. unfold to_float.
  destruct (float_of_Z_pos p) as (M & HM & E). rewrite E.
  pose proof (digits2_pos_bounds p) as [B1 _].
  assert (Hd : 1 <= Zpos (digits2_pos p) <= 950).
  { split; [lia|].
    destruct (Z.lt_ge_cases 950 (Zpos (digits2_pos p))) as [L|]; [|lia].
    assert (2 ^ 950 <= 2 ^ (Zpos (digits2_pos p) - 1))
      by (apply Z.pow_le_mono_r; lia). lia. }
  destruct (rounded_cases M (Zpos (digits2_pos p) - 53) HM)
    as [[-> _]|(m & e & -> & Bm & Be & Be' & _ & _)]; [discriminate|].
  intros [= <-]. exists m, e. repeat split; lia.
Qed.

Lemma number_mul m1 e1 m2 e2 :
  (number m1 e1 * number m2 e2 == inject_Z (Zpos m1 * Zpos m2) * 2 ^ (e1 + e2))%Q.
Proof.
  unfold number. rewrite Qpower_plus by easy. rewrite inject_Z_mult. ring.
Qed.

Lemma number_pos m e : (0 < number m e)%Q.
Proof. apply positive_value. Qed.

(** The product of two normal floats, without underflow or overflow, is
    normal and within one part in [2^52] of the product of the
    numbers. *)
Lemma fmul_normal mx ex my ey :
  2 ^ 52 <= Zpos mx < 2 ^ 53 -> 2 ^ 52 <= Zpos my < 2 ^ 53 ->
  -1126 <= ex + ey <= 917 ->
  exists m e,
    fmul (S754_finite false mx ex) (S754_finite false my ey) =
      S754_finite false m e /\
    2 ^ 52 <= Zpos m < 2 ^ 53 /\ ex + ey + 52 <= e <= ex + ey + 54 /\
    (inject_Z (2 ^ 52 - 1) * (number mx ex * number my ey)
       <= inject_Z (2 ^ 52) * number m e)%Q /\
    (inject_Z (2 ^ 52) * number m e
       <= inject_Z (2 ^ 52 + 1) * (number mx ex * number my ey))%Q.
Proof.
  intros Hx Hy He. unfold fmul, SFmul. cbn [xorb].
  set (P := (mx * my)%positive).
  assert (EP : Zpos P = Zpos mx * Zpos my) by reflexivity.
  assert (BP : 2 ^ 104 <= Zpos P < 2 ^ 106).
  { rewrite EP. change (2 ^ 104) with (2 ^ 52 * 2 ^ 52).
    change (2 ^ 106) with (2 ^ 53 * 2 ^ 53). nia. }
  pose proof (digits2_pos_bounds P) as [D1 D2].
  set (d := Zpos (digits2_pos P)) in *.
  assert (Hd : 105 <= d <= 106).
  { split.
    - destruct (Z.lt_ge_cases d 105) as [L|]; [|lia].
      assert (2 ^ d <= 2 ^ 104) by (apply Z.pow_le_mono_r; lia). lia.
    - destruct (Z.lt_ge_cases 106 d) as [L|]; [|lia].
      assert (2 ^ 106 <= 2 ^ (d - 1)) by (apply Z.pow_le_mono_r; lia). lia. }
  pose proof (binary_round_aux_normal P (ex + ey)) as N. cbv zeta in N.
  fold d in N. destruct N as (m2 & R & B & _ & E); try lia.
  rewrite E. set (k := d - 53) in *.
  destruct (rounded_cases m2 (ex + ey + k)) as [[_ Hinf]|(m & e & -> & Bm & Be & Be' & V & _)];
    [lia|lia|].
  exists m, e. split; [reflexivity|]. split; [exact Bm|]. split; [lia|].
  assert (Pk : 0 < 2 ^ k) by (apply Z.pow_pos_nonneg; lia).
  assert (Lk : 2 ^ k * 2 ^ 52 <= Zpos P).
  { rewrite <- Z.pow_add_r by lia. replace (k + 52) with (d - 1) by lia. exact D1. }
  pose proof (Z.mul_div_le (Zpos P) (2 ^ k) Pk) as L1.
  pose proof (Z.mul_succ_div_gt (Zpos P) (2 ^ k) Pk) as L2.
  set (q := Zpos P / 2 ^ k) in *.
  assert (VN : (number m e == inject_Z (m2 * 2 ^ k) * 2 ^ (ex + ey))%Q).
  { unfold number. rewrite (pow2_scale (Zpos m) e (ex + ey)) by lia.
    replace (e - (ex + ey)) with ((e - (ex + ey + k)) + k) by lia.
    rewrite Z.pow_add_r by lia. rewrite Z.mul_assoc, V. reflexivity. }
  rewrite number_mul, VN. fold P. rewrite <- EP.
  rewrite !Qmult_assoc, <- !inject_Z_mult.
  split; (apply Qmult_le_compat_r; [|apply Qlt_le_weak, pow2_pos]);
    rewrite <- Zle_Qle; nia.
Qed.

(** Two products of three numbers, each with its two roundings, are
    close. *)
Lemma close_products (x1 a y1 b M G R : Q) :
  (0 < M)%Q -> (0 < G)%Q -> (0 < R)%Q ->
  let lo := inject_Z (2 ^ 52 - 1) in
  let c := inject_Z (2 ^ 52) in
  let hi := inject_Z (2 ^ 52 + 1) in
  (lo * (M * G) <= c * x1)%Q -> (c * x1 <= hi * (M * G))%Q ->
  (lo * (x1 * R) <= c * a)%Q -> (c * a <= hi * (x1 * R))%Q ->
  (lo * (G * R) <= c * y1)%Q -> (c * y1 <= hi * (G * R))%Q ->
  (lo * (M * y1) <= c * b)%Q -> (c * b <= hi * (M * y1))%Q ->
  close a b.
Proof.
  intros HM HG HR lo c hi X1 X2 A1 A2 Y1 Y2 B1 B2.
  assert (Hlo : (0 < lo)%Q) by reflexivity.
  assert (Hc : (0 < c)%Q) by reflexivity.
  assert (Hhi : (0 < hi)%Q) by reflexivity.
  set (T0 := (M * G * R)%Q).
  assert (HT : (0 < T0)%Q).
  { unfold T0. repeat apply Qmult_lt_0_compat; assumption. }
  (* c^2 a and c^2 b lie between lo^2 T and hi^2 T *)
  assert (Alo : (lo * lo * T0 <= c * c * a)%Q).
  { apply Qle_trans with (lo * (c * x1 * R))%Q.
    - setoid_replace (lo * lo * T0)%Q with (lo * ((lo * (M * G)) * R))%Q
        by (unfold T0; ring).
      apply Qmult_le_l; [exact Hlo|].
      apply Qmult_le_compat_r; [exact X1|now apply Qlt_le_weak].
    - setoid_replace (lo * (c * x1 * R))%Q with (c * (lo * (x1 * R)))%Q by ring.
      setoid_replace (c * c * a)%Q with (c * (c * a))%Q by ring.
      apply Qmult_le_l; [exact Hc|exact A1]. }
  assert (Ahi : (c * c * a <= hi * hi * T0)%Q).
  { apply Qle_trans with (hi * (c * x1 * R))%Q.
    - setoid_replace (c * c * a)%Q with (c * (c * a))%Q by ring.
      setoid_replace (hi * (c * x1 * R))%Q with (c * (hi * (x1 * R)))%Q by ring.
      apply Qmult_le_l; [exact Hc|exact A2].
    - setoid_replace (hi * hi * T0)%Q with (hi * ((hi * (M * G)) * R))%Q
        by (unfold T0; ring).
      apply Qmult_le_l; [exact Hhi|].
      apply Qmult_le_compat_r; [exact X2|now apply Qlt_le_weak]. }
  assert (Blo : (lo * lo * T0 <= c * c * b)%Q).
  { apply Qle_trans with (lo * (M * (c * y1)))%Q.
    - setoid_replace (lo * lo * T0)%Q with (lo * (M * (lo * (G * R))))%Q
        by (unfold T0; ring).
      apply Qmult_le_l; [exact Hlo|].
      apply Qmult_le_l; [exact HM|exact Y1].
    - setoid_replace (lo * (M * (c * y1)))%Q with (c * (lo * (M * y1)))%Q by ring.
      setoid_replace (c * c * b)%Q with (c * (c * b))%Q by ring.
      apply Qmult_le_l; [exact Hc|exact B1]. }
  assert (Bhi : (c * c * b <= hi * hi * T0)%Q).
  { apply Qle_trans with (hi * (M * (c * y1)))%Q.
    - setoid_replace (c * c * b)%Q with (c * (c * b))%Q by ring.
      setoid_replace (hi * (M * (c * y1)))%Q with (c * (hi * (M * y1)))%Q by ring.
      apply Qmult_le_l; [exact Hc|exact B2].
    - setoid_replace (hi * hi * T0)%Q with (hi * (M * (hi * (G * R))))%Q
        by (unfold T0; ring).
      apply Qmult_le_l; [exact Hhi|].
      apply Qmult_le_l; [exact HM|exact Y2]. }
  assert (Hcc : (0 < c * c)%Q) by reflexivity.
  unfold close. fold lo hi. split.
  - apply (Qmult_le_l _ _ (c * c)); [exact Hcc|].
    apply Qle_trans with (lo * lo * (hi * hi * T0))%Q.
    + setoid_replace (c * c * (lo ^ 2 * a))%Q with (lo * lo * (c * c * a))%Q
        by (simpl; ring).
      apply Qmult_le_l; [reflexivity|exact Ahi].
    + setoid_replace (lo * lo * (hi * hi * T0))%Q with (hi * hi * (lo * lo * T0))%Q
        by ring.
      setoid_replace (c * c * (hi ^ 2 * b))%Q with (hi * hi * (c * c * b))%Q
        by (simpl; ring).
      apply Qmult_le_l; [reflexivity|exact Blo].
  - apply (Qmult_le_l _ _ (c * c)); [exact Hcc|].
    apply Qle_trans with (lo * lo * (hi * hi * T0))%Q.
    + setoid_replace (c * c * (lo ^ 2 * b))%Q with (lo * lo * (c * c * b))%Q
        by (simpl; ring).
      apply Qmult_le_l; [reflexivity|exact Bhi].
    + setoid_replace (lo * lo * (hi * hi * T0))%Q with (hi * hi * (lo * lo * T0))%Q
        by ring.
      setoid_replace (c * c * (hi ^ 2 * a))%Q with (hi * hi * (c * c * a))%Q
        by (simpl; ring).
      apply Qmult_le_l; [reflexivity|exact Alo].
Qed.

(* ===================================================================== *)
(** * Outcomes of the arithmetic *)
(* ===================================================================== *)

Lemma only_overflow_ok {A : Type} (a : A) : only_overflow (Ok a).
Proof. intros e H. discriminate. Qed.

Lemma only_overflow_bind {A B : Type} (c : result A) (k : A -> result B) :
  only_overflow c -> (forall a, c = Ok a -> only_overflow (k a)) ->
  only_overflow (bind c k).
Proof.
  intros Hc Hk e. destruct c as [a|e']; simpl.
  - now apply Hk.
  - intros [= <-]. now apply Hc.
Qed.

Lemma to_float_only_overflow x : only_overflow (to_float x).
Proof.
  intros e. destruct x as [n|f]; unfold to_float; [|discriminate].
  destruct (float_of_Z n); try discriminate. now intros [= <-].
Qed.

Lemma binop_only_overflow iop fop x y : only_overflow (binop iop fop x y).
Proof.
  unfold binop.
  destruct x as [a|fa], y as [b|fb]; try apply only_overflow_ok;
    (apply only_overflow_bind; [apply to_float_only_overflow|intros ? _];
     apply only_overflow_bind; [apply to_float_only_overflow|intros ? _];
     apply only_overflow_ok).
Qed.

Lemma py_sum_only_overflow items :
  Forall only_overflow items -> only_overflow (py_sum items).
Proof.
  unfold py_sum. generalize (Ok (PyInt 0) : result pynum) (only_overflow_ok (PyInt 0)).
  intros acc Hacc H. revert acc Hacc.
  induction H as [|item items Hi _ IH]; intros acc Hacc; simpl; [exact Hacc|].
  apply IH.
  apply only_overflow_bind; [exact Hacc|intros ? _].
  apply only_overflow_bind; [exact Hi|intros ? _].
  apply binop_only_overflow.
Qed.

Lemma to_float_float f : to_float (PyFloat f) = Ok f.
Proof. reflexivity. Qed.


Lemma binop_float_r iop fop x f r :
  binop iop fop x (PyFloat f) = Ok r -> is_float r.
Proof.
  unfold binop. destruct x as [n|g]; [|intros [= <-]; now eexists].
  unfold to_float. destruct (float_of_Z n); simpl; try discriminate;
    intros [= <-]; now eexists.
Qed.

(** A sum of floats is a float, or the [int] 0 it starts from. *)
Lemma py_sum_floats items b :
  Forall (fun item => forall x, item = Ok x -> is_float x) items ->
  py_sum items = Ok b -> b = PyInt 0 \/ is_float b.
Proof.
  unfold py_sum. intros H.
  assert (G : forall acc,
    (forall a, acc = Ok a -> a = PyInt 0 \/ is_float a) ->
    fold_left (fun acc item => a <- acc ;; x <- item ;; py_add a x) items acc = Ok b ->
    b = PyInt 0 \/ is_float b).
  { induction H as [|item items Hi _ IH]; intros acc Hacc; simpl; [auto|].
    apply IH. intros a Ea. right.
    destruct acc as [a0|]; simpl in Ea; [|discriminate].
    destruct item as [x|]; simpl in Ea; [|discriminate].
    destruct (Hi x eq_refl) as [f ->].
    apply (binop_float_r Z.add fadd _ _ _ Ea). }
  apply G. intros a [= <-]. now left.
Qed.

Lemma py_sum_returns items :
  Forall (fun item => exists f, item = Ok (PyFloat f)) items ->
  exists b, py_sum items = Ok b.
Proof.
  unfold py_sum. intros H.
  assert (G : forall acc, (acc = PyInt 0 \/ is_float acc) ->
    exists b, fold_left (fun acc item => a <- acc ;; x <- item ;; py_add a x)
                items (Ok acc) = Ok b).
  { induction H as [|item items (f & ->) _ IH]; intros acc Hacc; simpl; [eauto|].
    destruct Hacc as [->|[g ->]]; apply IH; right; now eexists. }
  apply G. now left.
Qed.

Lemma py_max_float a b : is_float (py_max (PyFloat a) (PyFloat b)).
Proof. unfold py_max. destruct (py_gt _ _); now eexists. Qed.

Lemma py_min_float a b : is_float (py_min (PyFloat a) (PyFloat b)).
Proof. unfold py_min. destruct (py_lt _ _); now eexists. Qed.

Lemma py_add_float_l f b :
  b = PyInt 0 \/ is_float b -> exists g, py_add (PyFloat f) b = Ok (PyFloat g).
Proof. intros [->|[g ->]]; eexists; reflexivity. Qed.

(** A personal PV too large for a float fails every product with it. *)
Lemma py_mul_overflow_l c pv e :
  py_mul (PyFloat c) pv = Raise e ->
  forall r, py_mul pv (PyFloat r) = Raise e.
Proof.
  unfold py_mul, binop, to_float. destruct pv as [n|f]; simpl; [|discriminate].
  destruct (float_of_Z n); simpl; try discriminate. auto.
Qed.

Lemma py_mul_int_converts c n v :
  py_mul (PyFloat c) (PyInt n) = Ok v -> exists x, to_float (PyInt n) = Ok x.
Proof.
  unfold py_mul, binop. cbn [to_float bind].
  destruct (to_float (PyInt n)) as [x|]; [eauto|discriminate].
Qed.

(** The sum of integers is the integer sum. *)
Lemma py_sum_ints (zs : list Z) :
  py_sum (map (fun z => Ok (PyInt z)) zs) = Ok (PyInt (fold_right Z.add 0 zs)).
Proof.
  unfold py_sum.
  assert (G : forall acc,
    fold_left (fun acc item => a <- acc ;; x <- item ;; py_add a x)
      (map (fun z => Ok (PyInt z)) zs) (Ok (PyInt acc)) =
    Ok (PyInt (acc + fold_right Z.add 0 zs))).
  { induction zs as [|z zs IH]; intros acc; simpl.
    - now rewrite Z.add_0_r.
    - rewrite IH. now rewrite Z.add_assoc. }
  apply G.
Qed.

Lemma sum_nonneg zs : Forall (fun z => 0 <= z) zs -> 0 <= fold_right Z.add 0 zs.
Proof. induction 1; simpl; lia. Qed.

Lemma sum_bounds_member zs z :
  Forall (fun z => 0 <= z) zs -> In z zs -> z <= fold_right Z.add 0 zs.
Proof.
  induction 1 as [|y zs Hy Hzs IH]; simpl; [easy|].
  pose proof (sum_nonneg zs Hzs). intros [->|Hin]; [lia|].
  specialize (IH Hin). lia.
Qed.


(** ** Checks of the model against the interpreter *)

(** The largest integer that converts to a float, and the first that
    raises. *)
Lemma to_float_boundary :
  to_float (PyInt (2 ^ 1024 - 2 ^ 970 - 1)) =
    Ok (S754_finite false 9007199254740991 971) /\
  to_float (PyInt (2 ^ 1024 - 2 ^ 970)) = Raise overflow_error.
Proof. split; vm_compute; reflexivity. Qed.

(** An [int] is compared with a float by its exact value, not by the
    float it converts to: [2^53 + 1] converts to [2^53] and is above
    it. *)
Lemma mixed_comparison_exact :
  to_float (PyInt (2 ^ 53 + 1)) = Ok (float_of_Z (2 ^ 53)) /\
  py_lt (PyFloat (float_of_Z (2 ^ 53))) (PyInt (2 ^ 53 + 1)) = true /\
  py_eq (PyFloat (float_of_Z (2 ^ 53))) (PyInt (2 ^ 53)) = true.
Proof. repeat split; vm_compute; reflexivity. Qed.

(** [float] of strings with and without digits. *)
Lemma py_float_examples :
  py_float "0.03" = Ok (PyFloat (dec 3 100)) /\
  py_float ".5" = Ok (PyFloat (dec 5 10)) /\
  py_float "3." = Ok (PyFloat (float_of_Z 3)) /\
  (exists msg, py_float "" = Raise (ValueError msg)) /\
  (exists msg, py_float "." = Raise (ValueError msg)) /\
  (exists msg, py_float "1.2.3" = Raise (ValueError msg)).
Proof.
  repeat split; try (vm_compute; reflexivity); eexists; reflexivity.
Qed.

(** [max] and [min] keep their first argument on a tie and against a
    NaN. *)
Lemma py_max_min_examples :
  py_max (PyFloat fzero) (PyFloat (S754_zero true)) = PyFloat fzero /\
  py_max (PyFloat fzero) (PyFloat S754_nan) = PyFloat fzero /\
  py_min (PyFloat S754_nan) (PyFloat (dec 750 10)) = PyFloat S754_nan /\
  py_min (PyFloat (dec 2000 10)) (PyFloat (dec 750 10)) = PyFloat (dec 750 10).
Proof. repeat split. Qed.

(** The scenario of a new participant without frontline: group PV 150,
    3%, personal bonus 15.12, no differential bonus, CSI bonus
    21.168000000000003, retail profit 30.24, total 66.528. *)
Lemma new_ibo_earnings :
  calculate_group_pv new_ibo = Ok (PyInt 150) /\
  calculate_bonus_percentage new_ibo = Ok (PyFloat (dec 3 100)) /\
  calculate_personal_bonus new_ibo = Ok (PyFloat (dec 1512 100)) /\
  calculate_differential_bonus new_ibo = Ok (PyInt 0) /\
  calculate_csi_bonus new_ibo =
    Ok (PyFloat (S754_finite false 5958262307011167 (-48))) /\
  calculate_retail_profit new_ibo = Ok (PyFloat (dec 3024 100)) /\
  calculate_total_earnings new_ibo = Ok (PyFloat (dec 66528 1000)).
Proof. repeat split; vm_compute; reflexivity. Qed.

(* ===================================================================== *)
(** * The bonus schedule *)
(* ===================================================================== *)

(** ** Schedules in general *)

Lemma schedule_loop_find items v d :
  schedule_loop items v d =
  match find (fun t => contains t v) items with
  | Some t => py_float (percent t)
  | None => Ok d
  end.
Proof.
  induction items as [|t rest IH]; simpl; [reflexivity|].
  unfold contains at 1. destruct (py_le (pv_min t) v && py_le v (pv_max t)); auto.
Qed.

Lemma pairwise_In R t rest t' :
  pairwise R (t :: rest) = true -> In t' rest -> R t t' = true.
Proof.
  simpl. rewrite andb_true_iff, forallb_forall. intros [H _]. apply H.
Qed.

Lemma pairwise_tail R t rest :
  pairwise R (t :: rest) = true -> pairwise R rest = true.
Proof. simpl. rewrite andb_true_iff. tauto. Qed.

(** On a schedule whose tiers lie one below the other with percentages
    that do not decrease, the first tier found for a smaller value pays no
    more than the one found for a larger value. *)
Lemma find_monotone items v1 v2 t1 t2 :
  pairwise below items = true ->
  pairwise percent_le items = true ->
  forallb (fun t => percent_le t t) items = true ->
  py_lt v1 v2 = true ->
  find (fun t => contains t v1) items = Some t1 ->
  find (fun t => contains t v2) items = Some t2 ->
  percent_le t1 t2 = true.
Proof.
  intros Hb Hp Hr Hlt.
  induction items as [|t rest IH]; simpl; [discriminate|].
  simpl in Hr. apply andb_true_iff in Hr as [Hrt Hr].
  destruct (contains t v1) eqn:C1, (contains t v2) eqn:C2; intros E1 E2.
  - congruence.
  - injection E1 as <-. apply find_some in E2 as [In2 _].
    eapply pairwise_In; eauto.
  - injection E2 as <-. apply find_some in E1 as [In1 K1].
    exfalso.
    pose proof (pairwise_In _ _ _ _ Hb In1) as B. unfold below in B.
    unfold contains in C2, K1.
    apply andb_true_iff in C2 as [_ U2]. apply andb_true_iff in K1 as [L1 _].
    pose proof (py_lt_le_trans _ _ _ (py_le_lt_trans _ _ _ U2 B) L1) as F.
    pose proof (py_lt_trans _ _ _ F Hlt) as G.
    now rewrite py_lt_irrefl in G.
  - apply IH; eauto using pairwise_tail.
Qed.

Lemma in_gap_cons t t' rest v :
  in_gap (t :: t' :: rest) v =
  (py_lt (pv_max t) v && py_lt v (pv_min t')) || in_gap (t' :: rest) v.
Proof. reflexivity. Qed.

Lemma last_cons_default (t : tier) rest d d' :
  last (t :: rest) d = last (t :: rest) d'.
Proof.
  revert t. induction rest as [|a rest IH]; intros t; [reflexivity|].
  change (last (a :: rest) d = last (a :: rest) d'). apply IH.
Qed.

(** A value that is at least the minimum of some tier, at most the maximum
    of the last tier and in no gap lies in a tier. *)
Lemma find_covers items v t1 :
  forallb bounds_not_nan items = true ->
  is_nan v = false ->
  In t1 items -> py_le (pv_min t1) v = true ->
  py_le v (pv_max (last items t1)) = true ->
  in_gap items v = false ->
  exists t, find (fun t => contains t v) items = Some t.
Proof.
  intros Hb Hv. revert t1.
  induction items as [|t rest IH]; intros t1 Hin Hmin Hlast Hgap; [easy|].
  simpl. destruct (contains t v) eqn:C; [eauto|].
  simpl in Hb. apply andb_true_iff in Hb as [Hbt Hb].
  unfold bounds_not_nan in Hbt. apply andb_true_iff in Hbt as [Nmin Nmax].
  apply negb_true_iff in Nmin, Nmax.
  destruct rest as [|t' rest'].
  - (* a single tier *)
    destruct Hin as [->|[]]. simpl in Hlast.
    unfold contains in C. rewrite Hmin, Hlast in C. discriminate.
  - rewrite in_gap_cons in Hgap. apply orb_false_iff in Hgap as [G Hgap].
    change (last (t :: t' :: rest') t1) with (last (t' :: rest') t1) in Hlast.
    destruct (py_le v (pv_max t)) eqn:U.
    + (* at most the maximum of [t]: the tier of the hypothesis is later *)
      destruct Hin as [->|Hin].
      * unfold contains in C. rewrite Hmin, U in C. discriminate.
      * apply (IH Hb t1); trivial.
    + (* above the maximum of [t]: at least the minimum of the next tier *)
      apply py_le_false_lt in U; trivial.
      rewrite U in G. simpl in G.
      assert (Nmin' : is_nan (pv_min t') = false).
      { simpl in Hb. apply andb_true_iff in Hb as [Hb' _].
        unfold bounds_not_nan in Hb'. apply andb_true_iff in Hb' as [N _].
        now apply negb_true_iff in N. }
      assert (L' : py_le (pv_min t') v = true).
      { destruct (py_le (pv_min t') v) eqn:E; trivial.
        apply py_le_false_lt in E; trivial. congruence. }
      apply (IH Hb t'); trivial; [now left|].
      now rewrite (last_cons_default t' rest' t' t1).
Qed.

(** A value below the minimum of a tier is in none of the tiers from that
    one on. *)
Lemma find_none_below t rest v :
  pairwise below (t :: rest) = true ->
  forallb min_le_max (t :: rest) = true ->
  py_lt v (pv_min t) = true ->
  find (fun t => contains t v) (t :: rest) = None.
Proof.
  intros Hb Hm Hlt.
  assert (K : forall t', In t' (t :: rest) -> py_lt v (pv_min t') = true).
  { intros t' [<-|Hin]; trivial.
    pose proof (pairwise_In _ _ _ _ Hb Hin) as B. unfold below in B.
    simpl in Hm. apply andb_true_iff in Hm as [Hmt _]. unfold min_le_max in Hmt.
    eauto using py_lt_trans, py_lt_le_trans. }
  destruct (find _ _) as [t'|] eqn:E; [|reflexivity].
  apply find_some in E as [Hin C].
  unfold contains in C. apply andb_true_iff in C as [L _].
  pose proof (py_lt_le_trans _ _ _ (K t' Hin) L) as F.
  now rewrite py_lt_irrefl in F.
Qed.

(** A value in a gap is above the maximum of some tier of the list. *)
Lemma in_gap_above items v :
  in_gap items v = true ->
  exists t, In t items /\ py_lt (pv_max t) v = true.
Proof.
  induction items as [|t rest IH]; [discriminate|].
  destruct rest as [|t' rest']; [discriminate|].
  rewrite in_gap_cons. intros H. apply orb_true_iff in H as [H|H].
  - apply andb_true_iff in H as [H _]. exists t. split; [now left|trivial].
  - destruct (IH H) as (u & Hin & Hu). exists u. split; [now right|trivial].
Qed.

(** A value in a gap is in no tier. *)
Lemma in_gap_find_none items v :
  pairwise below items = true ->
  forallb min_le_max items = true ->
  in_gap items v = true ->
  find (fun t => contains t v) items = None.
Proof.
  induction items as [|t rest IH]; intros Hb Hm Hgap; [reflexivity|].
  destruct rest as [|t' rest']; [discriminate|].
  rewrite in_gap_cons in Hgap.
  assert (Hm' : forallb min_le_max (t' :: rest') = true).
  { simpl in Hm |- *. apply andb_true_iff in Hm. tauto. }
  assert (Above : py_lt (pv_max t) v = true ->
                  find (fun t => contains t v) (t :: t' :: rest') =
                  find (fun t => contains t v) (t' :: rest')).
  { intros A. cbn [find]. unfold contains at 1.
    destruct (py_le v (pv_max t)) eqn:E.
    - pose proof (py_lt_le_trans _ _ _ A E) as F.
      now rewrite py_lt_irrefl in F.
    - now rewrite andb_false_r. }
  apply orb_true_iff in Hgap as [H|H].
  - apply andb_true_iff in H as [A B]. rewrite (Above A).
    apply find_none_below; eauto using pairwise_tail.
  - destruct (in_gap_above _ _ H) as (u & Hin & Hu).
    pose proof (pairwise_In _ _ _ _ Hb Hin) as B. unfold below in B.
    assert (Mu : py_le (pv_min u) (pv_max u) = true).
    { rewrite forallb_forall in Hm'. apply (Hm' u Hin). }
    rewrite Above by eauto using py_lt_trans, py_lt_le_trans.
    apply IH; eauto using pairwise_tail.
Qed.

(** ** The schedule of the program *)

Lemma schedule_below : pairwise below BONUS_SCHEDULE = true.
Proof. vm_compute. reflexivity. Qed.

Lemma schedule_percent_le : pairwise percent_le BONUS_SCHEDULE = true.
Proof. vm_compute. reflexivity. Qed.

Lemma schedule_percent_refl :
  forallb (fun t => percent_le t t) BONUS_SCHEDULE = true.
Proof. vm_compute. reflexivity. Qed.

Lemma schedule_bounds : forallb bounds_not_nan BONUS_SCHEDULE = true.
Proof. vm_compute. reflexivity. Qed.

Lemma schedule_positive : forallb percent_positive BONUS_SCHEDULE = true.
Proof. vm_compute. reflexivity. Qed.

Lemma schedule_min_le_max : forallb min_le_max BONUS_SCHEDULE = true.
Proof. vm_compute. reflexivity. Qed.

Lemma schedule_last t : last BONUS_SCHEDULE t = mkTier "0.25" (PyInt 7500) (PyFloat finf).
Proof. reflexivity. Qed.

(** The key of every tier converts, to a positive float. *)
Lemma tier_percent t :
  In t BONUS_SCHEDULE ->
  exists p, py_float (percent t) = Ok p /\ py_lt (PyFloat fzero) p = true.
Proof.
  intros Hin.
  pose proof schedule_positive as H. rewrite forallb_forall in H.
  specialize (H t Hin). unfold percent_positive in H.
  destruct (py_float (percent t)) as [p|]; [eauto|discriminate].
Qed.

(** The lookup always returns: the percentage of the first tier that
    holds the value, or the default. *)
Lemma bonus_percentage_of_find v :
  bonus_percentage_of v =
  match find (fun t => contains t v) BONUS_SCHEDULE with
  | Some t => py_float (percent t)
  | None => Ok (PyFloat fzero)
  end.
Proof. apply schedule_loop_find. Qed.

Lemma bonus_percentage_of_total v :
  exists p, bonus_percentage_of v = Ok p /\ py_le (PyFloat fzero) p = true.
Proof.
  rewrite bonus_percentage_of_find.
  destruct (find _ _) as [t|] eqn:E.
  - apply find_some in E as [Hin _].
    destruct (tier_percent t Hin) as (p & -> & Hp). eauto using py_lt_le.
  - eexists. split; reflexivity.
Qed.

(** From the minimum of any tier on, the schedule leaves uncovered only
    the values in a gap. *)
Lemma covered_from_tier v t1 :
  In t1 BONUS_SCHEDULE -> py_le (pv_min t1) v = true ->
  in_gap BONUS_SCHEDULE v = false ->
  exists t, find (fun t => contains t v) BONUS_SCHEDULE = Some t.
Proof.
  intros Hin Hmin Hgap.
  assert (Hv : is_nan v = false) by eauto using py_le_is_nan_r.
  apply (find_covers BONUS_SCHEDULE v t1);
    [apply schedule_bounds | assumption.. | | assumption].
  rewrite schedule_last. now apply py_le_inf.
Qed.

Lemma covered_from_100 v :
  py_le (PyInt 100) v = true -> in_gap BONUS_SCHEDULE v = false ->
  exists t, find (fun t => contains t v) BONUS_SCHEDULE = Some t.
Proof.
  apply (covered_from_tier v (mkTier "0.03" (PyInt 100) (PyFloat (dec 29999 100)))).
  now left.
Qed.

(** No integer is in a gap: each gap lies between [k - 0.01] and [k]. *)
Lemma int_gap_empty a c n :
  py_le (PyInt (a - 1)) c = true ->
  py_lt c (PyInt n) && py_lt (PyInt n) (PyInt a) = false.
Proof.
  intros H. apply andb_false_iff.
  destruct (py_lt c (PyInt n)) eqn:E; [right|now left].
  pose proof (py_le_lt_trans _ _ _ H E) as F.
  rewrite py_lt_int in F |- *. apply Z.ltb_lt in F. apply Z.ltb_ge. lia.
Qed.

Lemma int_in_no_gap n : in_gap BONUS_SCHEDULE (PyInt n) = false.
Proof.
  unfold BONUS_SCHEDULE. rewrite !in_gap_cons. cbn [pv_min pv_max in_gap].
  rewrite !int_gap_empty by (vm_compute; reflexivity). reflexivity.
Qed.

Lemma bonus_percentage_of_values v p :
  bonus_percentage_of v = Ok p -> exists f, p = PyFloat f /\ In f percentages.
Proof.
  rewrite bonus_percentage_of_find.
  destruct (find _ _) as [t|] eqn:E.
  - apply find_some in E as [Hin _]. simpl in Hin.
    repeat (destruct Hin as [<-|Hin]; [intros [= <-]; eexists; split;
      [reflexivity|vm_compute; tauto]|]).
    destruct Hin.
  - intros [= <-]. eexists. split; [reflexivity|now left].
Qed.

Lemma bonus_percentage_of_float v p :
  bonus_percentage_of v = Ok p -> is_float p.
Proof.
  rewrite bonus_percentage_of_find.
  destruct (find _ _) as [t|].
  - unfold py_float. destruct (scan _ _ _ _) as [[n d]|]; [|discriminate].
    intros [= <-]. now eexists.
  - intros [= <-]. now eexists.
Qed.

Lemma bonus_percentage_of_only_overflow v :
  only_overflow (bonus_percentage_of v).
Proof.
  destruct (bonus_percentage_of_total v) as (p & -> & _).
  apply only_overflow_ok.
Qed.

Lemma multiplier_table :
  forallb (fun pu => forallb (multiplier_ok pu) percentages) percentages = true.
Proof. vm_compute. reflexivity. Qed.

Lemma multiplier_of_spec pu pc :
  In pu percentages -> In pc percentages ->
  exists m, multiplier_of pu pc = PyFloat m /\ finite_nonneg m = true /\
            (py_ge (PyFloat pc) (PyFloat pu) = true -> m = fzero).
Proof.
  intros Hu Hc. pose proof multiplier_table as T.
  rewrite forallb_forall in T. specialize (T pu Hu).
  rewrite forallb_forall in T. specialize (T pc Hc).
  unfold multiplier_ok in T.
  destruct (multiplier_of pu pc) as [|m]; [discriminate|].
  apply andb_true_iff in T as [T1 T2]. exists m. repeat split; trivial.
  intros G. rewrite G in T2. now destruct m as [[|]| | |].
Qed.

Lemma multiplier_positive_table :
  forallb (fun pu => forallb (multiplier_positive pu) percentages) percentages = true.
Proof. vm_compute. reflexivity. Qed.

Lemma multiplier_of_positive pu pc :
  In pu percentages -> In pc percentages ->
  py_lt (PyFloat pc) (PyFloat pu) = true ->
  py_lt (PyFloat fzero) (multiplier_of pu pc) = true.
Proof.
  intros Hu Hc L. pose proof multiplier_positive_table as T.
  rewrite forallb_forall in T. specialize (T pu Hu).
  rewrite forallb_forall in T. specialize (T pc Hc).
  unfold multiplier_positive in T. now rewrite L in T.
Qed.

Lemma multiplier_normal_table :
  forallb (fun pu => forallb (multiplier_normal pu) percentages) percentages = true.
Proof. vm_compute. reflexivity. Qed.

Lemma multiplier_of_normal pu pc :
  In pu percentages -> In pc percentages ->
  multiplier_of pu pc = PyFloat fzero \/
  exists m e, multiplier_of pu pc = PyFloat (S754_finite false m e) /\
              2 ^ 52 <= Zpos m < 2 ^ 53 /\ -60 <= e <= -54.
Proof.
  intros Hu Hc. pose proof multiplier_normal_table as T.
  rewrite forallb_forall in T. specialize (T pu Hu).
  rewrite forallb_forall in T. specialize (T pc Hc).
  unfold multiplier_normal in T.
  destruct (multiplier_of pu pc) as [|[[|]| | |[|] m e]]; try discriminate.
  - now left.
  - right. exists m, e. split; [reflexivity|].
    repeat (apply andb_true_iff in T as [T ?]).
    apply Z.leb_le in T. lia.
Qed.

Lemma csi_table : forallb csi_percentage_ok percentages = true.
Proof. vm_compute. reflexivity. Qed.

(** The CSI percentage of a percentage of the schedule. *)
Lemma csi_percentage_of_spec p :
  In p percentages ->
  exists c,
    csi_percentage_of p = PyFloat c /\ finite_nonneg c = true /\
    py_le (PyFloat c) (PyFloat (dec 1 10)) = true /\
    (py_ge (PyFloat p) (PyFloat (dec 1 10)) = true -> c = fzero) /\
    (py_lt (PyFloat p) (PyFloat (dec 1 10)) = true ->
     py_lt (PyFloat fzero) (PyFloat c) = true /\
     py_eq (PyFloat c) (PyFloat (fsub (dec 1 10) p)) = true).
Proof.
  intros Hp. pose proof csi_table as T.
  rewrite forallb_forall in T. specialize (T p Hp).
  unfold csi_percentage_ok in T.
  destruct (csi_percentage_of p) as [|c]; [discriminate T|].
  apply andb_true_iff in T as [T T3]. apply andb_true_iff in T as [T1 T2].
  exists c. split; [reflexivity|]. split; [exact T1|]. split; [exact T2|].
  destruct (py_ge (PyFloat p) (PyFloat (dec 1 10))) eqn:G.
  - split.
    + intros _. destruct c as [[|]| | |]; try discriminate T3. reflexivity.
    + intros L. unfold py_ge in G. apply py_le_not_lt in G. congruence.
  - split; [discriminate|]. intros _.
    apply andb_true_iff in T3 as [T3 T4]. split; assumption.
Qed.

(** ** Monotonicity and coverage outside the gaps *)

(** Outside the gaps the lookup never decreases: for all values
    [v1 < v2] with [v2] not strictly between the maximum of a tier and the
    minimum of the next one, which no integer [v2] is, the lookup returns
    for both and the percentage of [v1] is at most that of [v2]. *)
Lemma monotone_outside_gaps v1 v2 :
  py_lt v1 v2 = true ->
  in_gap BONUS_SCHEDULE v2 = false \/ (exists n, v2 = PyInt n) ->
  exists p1 p2,
    bonus_percentage_of v1 = Ok p1 /\ bonus_percentage_of v2 = Ok p2 /\
    py_le p1 p2 = true.
Proof.
  intros Hlt Hgap.
  assert (Hgap' : in_gap BONUS_SCHEDULE v2 = false).
  { destruct Hgap as [H|[n ->]]; [exact H|apply int_in_no_gap]. }
  clear Hgap. rename Hgap' into Hgap.
  rewrite !bonus_percentage_of_find.
  destruct (find _ _) as [t1|] eqn:E1 at 1;
    destruct (find (fun t => contains t v2) _) as [t2|] eqn:E2.
  - pose proof (find_monotone _ _ _ _ _ schedule_below schedule_percent_le
                  schedule_percent_refl Hlt E1 E2) as H.
    unfold percent_le in H.
    destruct (py_float (percent t1)) as [p1|]; [|discriminate].
    destruct (py_float (percent t2)) as [p2|]; [|discriminate]. eauto.
  - exfalso. apply find_some in E1 as [Hin C1].
    unfold contains in C1. apply andb_true_iff in C1 as [L1 _].
    pose proof (py_lt_le _ _ (py_le_lt_trans _ _ _ L1 Hlt)) as L2.
    destruct (covered_from_tier v2 t1 Hin L2 Hgap) as [t E]. congruence.
  - apply find_some in E2 as [Hin _].
    destruct (tier_percent t2 Hin) as (p & -> & Hp).
    exists (PyFloat fzero), p. auto using py_lt_le.
  - do 2 eexists. repeat split.
Qed.

(** The schedule covers the values from 100 on outside the gaps, and only
    those: a value [v >= 100] outside the gaps, as every integer is, lies
    in a tier and the lookup returns the positive percentage of the first
    such tier; a value inside a gap lies in no tier and the lookup returns
    the default 0.0. *)
Lemma covered_outside_gaps v :
  py_ge v (PyInt 100) = true ->
  (in_gap BONUS_SCHEDULE v = false ->
   exists t p,
     In t BONUS_SCHEDULE /\ contains t v = true /\
     py_float (percent t) = Ok p /\ bonus_percentage_of v = Ok p /\
     py_lt (PyFloat fzero) p = true) /\
  (in_gap BONUS_SCHEDULE v = true ->
   (forall t, In t BONUS_SCHEDULE -> contains t v = false) /\
   bonus_percentage_of v = Ok (PyFloat fzero)) /\
  (forall n, v = PyInt n -> in_gap BONUS_SCHEDULE v = false).
Proof.
  intros H100. unfold py_ge in H100. split; [|split].
  - intros Hgap. destruct (covered_from_100 v H100 Hgap) as [t E].
    pose proof (find_some _ _ E) as [Hin C].
    destruct (tier_percent t Hin) as (p & Hp & Hpos).
    exists t, p. rewrite bonus_percentage_of_find, E. auto.
  - intros Hgap.
    pose proof (in_gap_find_none _ _ schedule_below schedule_min_le_max Hgap) as N.
    split.
    + intros t Hin. apply (find_none _ _ N t Hin).
    + rewrite bonus_percentage_of_find. now rewrite N.
  - intros n ->. apply int_in_no_gap.
Qed.

(* ===================================================================== *)
(** * Group volume *)
(* ===================================================================== *)

(** Induction over a participant and, through [frontline], the
    participants below it. *)
Lemma AmwayIBO_induction (P : AmwayIBO -> Prop) :
  (forall m fl pv vcs l, Forall P fl -> P (mkIBO m fl pv vcs l)) ->
  forall self, P self.
Proof.
  intros H. fix IH 1. intros [m fl pv vcs l]. apply H.
  induction fl as [|c fl IHfl]; constructor; [apply IH | exact IHfl].
Qed.

Lemma calculate_group_pv_only_overflow self :
  only_overflow (calculate_group_pv self).
Proof.
  induction self as [m fl pv vcs l IH] using AmwayIBO_induction. simpl.
  apply only_overflow_bind.
  - apply py_sum_only_overflow. now apply Forall_map.
  - intros ? _. apply binop_only_overflow.
Qed.

Lemma group_pv_int self :
  nonneg_int_volumes self = true ->
  exists g, calculate_group_pv self = Ok (PyInt g) /\ 0 <= g.
Proof.
  induction self as [m fl pv vcs l IH] using AmwayIBO_induction.
  simpl. intros H. apply andb_true_iff in H as [Hpv Hfl].
  destruct pv as [n|]; [|discriminate]. apply Z.leb_le in Hpv.
  assert (K : exists zs, map calculate_group_pv fl = map (fun z => Ok (PyInt z)) zs
                         /\ Forall (fun z => 0 <= z) zs).
  { clear Hpv. induction IH as [|c fl Hc _ IHfl].
    - exists []. split; [reflexivity|constructor].
    - simpl in Hfl. apply andb_true_iff in Hfl as [Hc' Hfl].
      destruct (Hc Hc') as (g & Eg & Hg). destruct (IHfl Hfl) as (zs & Ezs & Hzs).
      exists (g :: zs). simpl. rewrite Eg, Ezs. split; [reflexivity|now constructor]. }
  destruct K as (zs & -> & Hzs). rewrite py_sum_ints. simpl.
  eexists. split; [reflexivity|].
  assert (0 <= fold_right Z.add 0 zs); [|lia].
  induction Hzs; simpl; lia.
Qed.

Lemma frontline_group_pvs fl :
  forallb nonneg_int_volumes fl = true ->
  exists zs, map calculate_group_pv fl = map (fun z => Ok (PyInt z)) zs /\
             Forall (fun z => 0 <= z) zs.
Proof.
  induction fl as [|c fl IH]; simpl; intros H.
  - exists []. split; [reflexivity|constructor].
  - apply andb_true_iff in H as [Hc Hfl].
    destruct (group_pv_int c Hc) as (g & Eg & Hg).
    destruct (IH Hfl) as (zs & Ezs & Hzs).
    exists (g :: zs). simpl. rewrite Eg, Ezs. split; [reflexivity|now constructor].
Qed.

(** The group PV of a frontline child is at most that of its sponsor. *)
Lemma frontline_group_pv_le U C g :
  nonneg_int_volumes U = true -> In C (frontline U) ->
  calculate_group_pv U = Ok (PyInt g) ->
  exists gc, calculate_group_pv C = Ok (PyInt gc) /\ gc <= g.
Proof.
  destruct U as [m fl pv vcs l]. simpl. intros H Hin.
  apply andb_true_iff in H as [Hpv Hfl].
  destruct pv as [n|]; [|discriminate]. apply Z.leb_le in Hpv.
  destruct (frontline_group_pvs fl Hfl) as (zs & Ezs & Hzs).
  rewrite Ezs, py_sum_ints. simpl. intros [= <-].
  apply (in_map calculate_group_pv) in Hin. rewrite Ezs in Hin.
  apply in_map_iff in Hin as (z & Ez & Hz).
  exists z. split; [now symmetry|].
  pose proof (sum_bounds_member zs z Hzs Hz). lia.
Qed.

Lemma nonneg_int_volumes_frontline U C :
  nonneg_int_volumes U = true -> In C (frontline U) ->
  nonneg_int_volumes C = true.
Proof.
  destruct U as [m fl pv vcs l]. simpl. intros H Hin.
  apply andb_true_iff in H as [_ H]. rewrite forallb_forall in H. auto.
Qed.

Lemma participants_pos self : 1 <= participants self.
Proof.
  induction self as [m fl pv vcs l IH] using AmwayIBO_induction.
  cbn [participants].
  assert (0 <= fold_right Z.add 0 (map participants fl)); [|lia].
  induction IH as [|c fl Hc _ IHfl]; cbn [map fold_right]; lia.
Qed.








(* ===================================================================== *)
(** * Bonus percentage *)
(* ===================================================================== *)

Lemma calculate_bonus_percentage_only_overflow self :
  only_overflow (calculate_bonus_percentage self).
Proof.
  apply only_overflow_bind.
  - apply calculate_group_pv_only_overflow.
  - intros ? _. apply bonus_percentage_of_only_overflow.
Qed.

Lemma calculate_bonus_percentage_values self p :
  calculate_bonus_percentage self = Ok p ->
  exists f, p = PyFloat f /\ In f percentages.
Proof.
  unfold calculate_bonus_percentage.
  destruct (calculate_group_pv self); simpl; [|discriminate].
  apply bonus_percentage_of_values.
Qed.


Lemma nonneg_int_volumes_percentage self :
  nonneg_int_volumes self = true ->
  exists p, calculate_bonus_percentage self = Ok (PyFloat p) /\ In p percentages.
Proof.
  intros H. destruct (group_pv_int self H) as (g & Eg & _).
  unfold calculate_bonus_percentage. rewrite Eg. simpl.
  destruct (bonus_percentage_of_total (PyInt g)) as (p & Ep & _).
  destruct (bonus_percentage_of_values _ _ Ep) as (f & -> & Hf). eauto.
Qed.

(** C4: at the boundaries of the tiers the lookup, on the group PV of a
    participant without frontline, returns: 100.0 -> 0.03, 299.99 -> 0.03,
    300.0 -> 0.06, 7499.99 -> 0.23, 7500.0 -> 0.25, and for 99.99, below
    the first tier, the default 0.0 and no exception. *)
Theorem tier_boundary_exactness :
  let P (pv p : float) :=
    calculate_group_pv (childless (PyFloat pv) (PyInt 90)) = Ok (PyFloat pv) /\
    calculate_bonus_percentage (childless (PyFloat pv) (PyInt 90)) = Ok (PyFloat p) in
  P (dec 1000 10) (dec 3 100) /\
  P (dec 29999 100) (dec 3 100) /\
  P (dec 3000 10) (dec 6 100) /\
  P (dec 749999 100) (dec 23 100) /\
  P (dec 75000 10) (dec 25 100) /\
  P (dec 9999 100) fzero.
Proof. vm_compute. repeat split. Qed.

(** C2: the schedule leaves gaps from 100 on.  The group PV of
    [gap_upline], 1499.9900000000002, is at least 100 and lies between
    the maximum 1499.99 of the 12% tier and the minimum 1500 of the next:
    no tier holds it and [calculate_bonus_percentage] returns the default
    0.0, documented in the method as the percentage "if total PV is below
    the minimum threshold". *)
Theorem gap_group_pv_gets_default :
  exists v,
    calculate_group_pv gap_upline = Ok v /\
    py_ge v (PyInt 100) = true /\
    py_lt (PyFloat (dec 149999 100)) v = true /\
    py_lt v (PyInt 1500) = true /\
    (forall t, In t BONUS_SCHEDULE -> contains t v = false) /\
    calculate_bonus_percentage gap_upline = Ok (PyFloat fzero).
Proof.
  eexists. split; [vm_compute; reflexivity|].
  split; [vm_compute; reflexivity|].
  split; [vm_compute; reflexivity|].
  split; [vm_compute; reflexivity|].
  split; [|vm_compute; reflexivity].
  apply find_none. vm_compute. reflexivity.
Qed.

(** C1: the lookup decreases into a gap.  The group PV 1499.99 of
    [at_tier_maximum] is below the group PV 1499.9900000000002 of
    [gap_upline]; the first is paid 0.12 and the second, in the gap above
    the 12% tier, the default 0.0. *)
Theorem tier_monotonicity_broken_in_gap :
  exists v1 v2,
    calculate_group_pv at_tier_maximum = Ok v1 /\
    calculate_group_pv gap_upline = Ok v2 /\
    py_lt v1 v2 = true /\
    calculate_bonus_percentage at_tier_maximum = Ok (PyFloat (dec 12 100)) /\
    calculate_bonus_percentage gap_upline = Ok (PyFloat fzero) /\
    py_le (PyFloat (dec 12 100)) (PyFloat fzero) = false.
Proof.
  do 2 eexists. repeat (split; [vm_compute; reflexivity|]).
  vm_compute. reflexivity.
Qed.

(** Hence neither claim holds of the lookup as a function of all
    values. *)
Lemma tier_monotonicity_fails : ~ tier_monotonicity.
Proof.
  intros H.
  specialize (H (PyFloat (dec 29999 100)) (PyFloat (dec 299995 1000))
                (PyFloat (dec 3 100)) (PyFloat fzero)).
  discriminate H; vm_compute; reflexivity.
Qed.

Lemma full_coverage_fails : ~ full_coverage.
Proof.
  intros H.
  destruct (H (PyFloat (dec 299995 1000))) as (t & Hin & C);
    [vm_compute; reflexivity|].
  assert (N : find (fun t => contains t (PyFloat (dec 299995 1000)))
                BONUS_SCHEDULE = None) by (vm_compute; reflexivity).
  pose proof (find_none _ _ N t Hin) as F. simpl in F. congruence.
Qed.

(* ===================================================================== *)
(** * Personal bonus and the qualification gate *)
(* ===================================================================== *)

Lemma percentage_times_personal_bv_only_overflow self :
  only_overflow (percentage_times_personal_bv self).
Proof.
  apply only_overflow_bind;
    [apply calculate_bonus_percentage_only_overflow|intros ? _].
  apply only_overflow_bind; [apply binop_only_overflow|intros ? _].
  apply binop_only_overflow.
Qed.

Lemma calculate_personal_bonus_gate self :
  (below_gate self -> calculate_personal_bonus self = Raise qualification_error) /\
  (~ below_gate self ->
   calculate_personal_bonus self = percentage_times_personal_bv self).
Proof.
  unfold calculate_personal_bonus, below_gate.
  destruct (py_mul (PyFloat (dec 6 10)) (_personal_pv self)) as [t|e] eqn:E; simpl.
  - destruct (py_lt (_vcs_pv self) t) eqn:G; split; trivial.
    + intros H. exfalso. apply H. eauto.
    + intros (t' & [= <-] & G'). congruence.
  - split; [intros (t & [=] & _)|intros _].
    unfold percentage_times_personal_bv.
    pose proof (binop_only_overflow _ _ _ _ _ E) as ->.
    destruct (calculate_bonus_percentage self) as [p|e'] eqn:Ep; simpl.
    + unfold calculate_personal_bv, BV_TO_PV_RATIO.
      now rewrite (py_mul_overflow_l _ _ _ E).
    + now rewrite (calculate_bonus_percentage_only_overflow _ _ Ep).
Qed.


(** C5, as stated, fails: with a personal PV of 0 the VCS PV
    [0.59 * 0 = 0.0] is not below [0.6 * 0 = 0.0] and the method returns
    [0.0 * 0.0]. *)
Lemma gate_fails_at_59_percent_fails : ~ gate_fails_at_59_percent.
Proof.
  intros H. specialize (H (childless (PyInt 0) (PyFloat fzero)) eq_refl).
  vm_compute in H. discriminate H.
Qed.

(** C5 (amended): [calculate_personal_bonus] raises the qualification
    error if and only if [vcs_pv < 0.6 * personal_pv], and otherwise it is
    [calculate_bonus_percentage() * calculate_personal_bv()].  A
    participant with [vcs_pv = 0.60 * personal_pv] never raises it; one
    with [vcs_pv = 0.59 * personal_pv] raises it whenever its personal PV
    is a positive integer, and does not when its personal PV is 0. *)
Theorem qualification_gate :
  (forall self,
     calculate_personal_bonus self = Raise qualification_error <->
     below_gate self) /\
  (forall self,
     calculate_personal_bonus self <> Raise qualification_error ->
     calculate_personal_bonus self = percentage_times_personal_bv self) /\
  (forall self,
     py_mul (PyFloat (dec 6 10)) (_personal_pv self) = Ok (_vcs_pv self) ->
     calculate_personal_bonus self <> Raise qualification_error) /\
  (forall self n,
     _personal_pv self = PyInt n -> 1 <= n ->
     py_mul (PyFloat (dec 59 100)) (_personal_pv self) = Ok (_vcs_pv self) ->
     calculate_personal_bonus self = Raise qualification_error) /\
  (forall self,
     _personal_pv self = PyInt 0 ->
     py_mul (PyFloat (dec 59 100)) (_personal_pv self) = Ok (_vcs_pv self) ->
     calculate_personal_bonus self <> Raise qualification_error).
Proof.
  assert (Iff : forall self,
     calculate_personal_bonus self = Raise qualification_error <->
     below_gate self).
  { intros self. destruct (calculate_personal_bonus_gate self) as [Hr Hn].
    split; [|exact Hr]. intros E.
    destruct (py_mul (PyFloat (dec 6 10)) (_personal_pv self)) as [t|e] eqn:Et.
    - destruct (py_lt (_vcs_pv self) t) eqn:G.
      + exists t. rewrite Et. auto.
      + exfalso. rewrite Hn in E.
        * now apply percentage_times_personal_bv_only_overflow in E.
        * unfold below_gate. rewrite Et. intros (t' & [= <-] & G'). congruence.
    - exfalso. rewrite Hn in E.
      + now apply percentage_times_personal_bv_only_overflow in E.
      + unfold below_gate. rewrite Et. intros (t' & [=] & _). }
  split; [exact Iff|]. split; [|split; [|split]].
  - intros self H. apply calculate_personal_bonus_gate.
    intros G. apply H. now apply Iff.
  - intros self E H. apply Iff in H as (t & Et & G).
    rewrite E in Et. injection Et as <-. now rewrite py_lt_irrefl in G.
  - intros self n Epv Hn E59. apply Iff. unfold below_gate.
    rewrite Epv in E59 |- *.
    destruct (py_mul_int_converts _ _ _ E59) as [x Ex].
    destruct (gate_59_below_60 n x Hn Ex) as (t59 & t60 & E1 & E2 & L).
    rewrite E59 in E1. injection E1 as <-. eauto.
  - intros self Epv E59 H. apply Iff in H as (t & Et & G).
    rewrite Epv in E59, Et.
    assert (K59 : py_mul (PyFloat (dec 59 100)) (PyInt 0) = Ok (PyFloat fzero))
      by reflexivity.
    assert (K60 : py_mul (PyFloat (dec 6 10)) (PyInt 0) = Ok (PyFloat fzero))
      by reflexivity.
    rewrite K59 in E59. rewrite K60 in Et.
    injection E59 as E59. injection Et as <-. rewrite <- E59 in G.
    now rewrite py_lt_irrefl in G.
Qed.

Lemma qualification_gate_witness :
  let self := childless (PyInt 150) (PyFloat (dec 885 10)) in
  _personal_pv self = PyInt 150 /\ 1 <= 150 /\
  py_mul (PyFloat (dec 59 100)) (_personal_pv self) = Ok (_vcs_pv self) /\
  calculate_personal_bonus self = Raise qualification_error.
Proof.
  intros self. split; [reflexivity|]. split; [lia|]. split; [reflexivity|].
  apply (proj1 (proj2 (proj2 (proj2 qualification_gate))) self 150);
    [reflexivity|lia|reflexivity].
Defined.

(* ===================================================================== *)
(** * Differential bonus *)
(* ===================================================================== *)

Lemma calculate_multiplier_value U C pu pc :
  calculate_bonus_percentage U = Ok (PyFloat pu) ->
  calculate_bonus_percentage C = Ok (PyFloat pc) ->
  calculate_multiplier (mkDifferentialBonus U C) = Ok (multiplier_of pu pc).
Proof. unfold calculate_multiplier. simpl. now intros -> ->. Qed.

Lemma calculate_amount_only_overflow d : only_overflow (calculate_amount d).
Proof.
  unfold calculate_amount.
  apply only_overflow_bind.
  { unfold calculate_multiplier.
    apply only_overflow_bind;
      [apply calculate_bonus_percentage_only_overflow|intros ? _].
    apply only_overflow_bind;
      [apply calculate_bonus_percentage_only_overflow|intros ? _].
    apply only_overflow_bind; [apply binop_only_overflow|intros ? _].
    apply only_overflow_ok. }
  intros ? _. apply only_overflow_bind;
    [apply calculate_group_pv_only_overflow|intros ? _].
  apply only_overflow_bind; [apply binop_only_overflow|intros ? _].
  apply binop_only_overflow.
Qed.

Lemma calculate_amount_float d a : calculate_amount d = Ok a -> is_float a.
Proof.
  unfold calculate_amount.
  destruct (calculate_multiplier d) as [m|]; simpl; [|discriminate].
  destruct (calculate_group_pv (ibo2 d)) as [g|]; simpl; [|discriminate].
  destruct (py_mul m g) as [mg|]; simpl; [|discriminate].
  apply (binop_float_r Z.mul fmul).
Qed.

Lemma calculate_differential_bonus_only_overflow self :
  only_overflow (calculate_differential_bonus self).
Proof.
  apply py_sum_only_overflow. apply Forall_map. apply Forall_forall.
  intros d _. apply calculate_amount_only_overflow.
Qed.

Lemma calculate_differential_bonus_shape self b :
  calculate_differential_bonus self = Ok b -> b = PyInt 0 \/ is_float b.
Proof.
  apply py_sum_floats. apply Forall_map. apply Forall_forall.
  intros d _ x. apply calculate_amount_float.
Qed.

(** The amount for a frontline child whose group PV converts to a float
    is computed. *)
Lemma frontline_amount_returns U C g :
  In C (frontline U) -> nonneg_int_volumes U = true ->
  calculate_group_pv C = Ok (PyInt g) -> g < 2 ^ 1023 ->
  exists a, calculate_amount (mkDifferentialBonus U C) = Ok (PyFloat a).
Proof.
  intros Hin HU Eg Hlt.
  pose proof (nonneg_int_volumes_frontline U C HU Hin) as HC.
  destruct (group_pv_int C HC) as (g' & Eg' & Hg).
  assert (g' = g) by congruence. subst g'.
  destruct (nonneg_int_volumes_percentage U HU) as (pu & Eu & Hu).
  destruct (nonneg_int_volumes_percentage C HC) as (pc & Ec & Hc).
  destruct (multiplier_of_spec pu pc Hu Hc) as (m & Em & _).
  destruct (to_float_total g (conj Hg Hlt)) as [gf Ef].
  unfold calculate_amount.
  rewrite (calculate_multiplier_value U C pu pc Eu Ec), Em. simpl.
  rewrite Eg. simpl. unfold py_mul, binop. cbn [to_float bind].
  rewrite Ef. simpl. eauto.
Qed.

(** C7, as stated, fails: for the upline of forty and one of its
    frontline the method returns [(0.2 * 150) * 3.36 = 100.8], and the
    multiplier times the group BV is [0.2 * (150 * 3.36)], the next float
    above 100.8. *)
Lemma amount_is_multiplier_times_group_bv_fails :
  ~ amount_is_multiplier_times_group_bv.
Proof.
  intros H.
  specialize (H upline_of_forty new_ibo
                (PyFloat (S754_finite false 7093169413108531 (-46)))
                (PyFloat (S754_finite false 7093169413108532 (-46)))).
  discriminate H; [now left|vm_compute; reflexivity..].
Qed.

(** A finite number that is not negative converts to a float that is a
    zero or positive and finite. *)
Lemma finite_nonneg_number_converts g :
  finite_nonneg_number g = true ->
  exists gf, to_float g = Ok gf /\
    match gf with
    | S754_zero _ => True
    | S754_finite s _ _ => s = false
    | _ => False
    end.
Proof.
  destruct g as [n|f]; simpl.
  - intros H. apply andb_true_iff in H as [H0 H1].
    apply Z.leb_le in H0. apply Z.ltb_lt in H1.
    destruct (to_float_total n (conj H0 H1)) as [gf E].
    exists gf. split; [exact E|].
    pose proof (to_float_nonneg n gf H0 E) as N.
    destruct gf as [[|]| | |[|] m e]; simpl in N; try discriminate; trivial.
  - intros H. exists f. rewrite to_float_float. split; [reflexivity|].
    destruct f as [s|s| |[|] m e]; simpl in H; try discriminate; trivial.
Qed.

(** The product of the multiplier, a float that is a zero or positive
    and finite, and 3.36 is not negative, and a zero when the multiplier
    is. *)
Lemma amount_sign m gf :
  finite_nonneg m = true ->
  match gf with
  | S754_zero _ => True
  | S754_finite s _ _ => s = false
  | _ => False
  end ->
  let a := fmul (fmul m gf) (dec 336 100) in
  py_ge (PyFloat a) (PyFloat fzero) = true /\
  (m = fzero -> py_eq (PyFloat a) (PyFloat fzero) = true).
Proof.
  intros Hm Hg.
  replace (dec 336 100) with (S754_finite false 7566047373982433 (-51))
    by (vm_compute; reflexivity).
  destruct m as [[|]| | |[|] mm em]; try discriminate Hm;
    destruct gf as [sg| | |sg mg eg]; try contradiction; cbv zeta.
  - destruct sg; split; reflexivity.
  - subst sg. split; reflexivity.
  - destruct sg; split; try reflexivity; discriminate.
  - subst sg. split; [|discriminate].
    apply nonneg_ge_zero. apply fmul_nonneg_positive.
    apply fmul_finite_nonneg; reflexivity.
Qed.

(** With a multiplier of the schedule and a group PV that is a normal
    float, the amount and the multiplier times the group BV are both
    [+0.0] or close. *)
Lemma amount_close pu pc m mg eg :
  In pu percentages -> In pc percentages ->
  multiplier_of pu pc = PyFloat m ->
  2 ^ 52 <= Zpos mg < 2 ^ 53 -> -900 <= eg <= 900 ->
  let gf := S754_finite false mg eg in
  let a := fmul (fmul m gf) (dec 336 100) in
  let b := fmul m (fmul gf (dec 336 100)) in
  (m = fzero /\ a = fzero /\ b = fzero) \/
  (exists ma ea mb eb,
     a = S754_finite false ma ea /\ b = S754_finite false mb eb /\
     close (number ma ea) (number mb eb)).
Proof.
  intros Hu Hc Em Hg He gf a b. unfold a, b, gf.
  replace (dec 336 100) with (S754_finite false 7566047373982433 (-51))
    by (vm_compute; reflexivity).
  assert (Hr : 2 ^ 52 <= Zpos 7566047373982433 < 2 ^ 53) by (simpl; lia).
  destruct (fmul_normal mg eg 7566047373982433 (-51) Hg Hr ltac:(lia))
    as (my & ey & Ey & Hy & Bey & Y1 & Y2).
  rewrite Ey.
  destruct (multiplier_of_normal pu pc Hu Hc) as [E0|(mm & em & E1 & Hm & Bem)].
  - left. rewrite E0 in Em. injection Em as <-. repeat split.
  - right. rewrite E1 in Em. injection Em as <-.
    destruct (fmul_normal mm em mg eg Hm Hg ltac:(lia))
      as (m1 & e1 & E1' & H1 & Be1 & X1 & X2).
    rewrite E1'.
    destruct (fmul_normal m1 e1 7566047373982433 (-51) H1 Hr ltac:(lia))
      as (ma & ea & Ea & Ha & Bea & A1 & A2).
    destruct (fmul_normal mm em my ey Hm Hy ltac:(lia))
      as (mb & eb & Eb & Hb & Beb & B1 & B2).
    rewrite Ea, Eb. exists ma, ea, mb, eb. split; [reflexivity|].
    split; [reflexivity|].
    apply (close_products (number m1 e1) (number ma ea) (number my ey)
             (number mb eb) (number mm em) (number mg eg)
             (number 7566047373982433 (-51)));
      try apply number_pos; assumption.
Qed.

(** C7 (amended): for an upline [U] and a frontline child [C] with bonus
    percentages [pu] and [pc], the multiplier is [max(0.0, pu - pc)] and
    the amount is [(multiplier * group PV of C) * 3.36], the two products
    taken and rounded in this order; the group BV of [C] is
    [group PV * 3.36], and the multiplier times the group BV is
    [multiplier * (group PV * 3.36)].  When the group PV of [C] is a
    normal float with an exponent from -900 to 900, which every integer
    from 1 to below [2^950] converts to, the two are both [+0.0], with a
    multiplier of [+0.0], or positive floats that differ by no more than
    the rounding of the products: the factor between them is at most
    [((2^52 + 1) / (2^52 - 1))^2]. *)
Theorem differential_amount_left_to_right U C pu pc g gf :
  In C (frontline U) ->
  calculate_bonus_percentage U = Ok (PyFloat pu) ->
  calculate_bonus_percentage C = Ok (PyFloat pc) ->
  calculate_group_pv C = Ok g ->
  to_float g = Ok gf ->
  exists m,
    py_max (PyFloat fzero) (PyFloat (fsub pu pc)) = PyFloat m /\
    calculate_multiplier (mkDifferentialBonus U C) = Ok (PyFloat m) /\
    calculate_amount (mkDifferentialBonus U C) =
      Ok (PyFloat (fmul (fmul m gf) (dec 336 100))) /\
    calculate_group_bv C = Ok (PyFloat (fmul gf (dec 336 100))) /\
    multiplier_times_group_bv (mkDifferentialBonus U C) =
      Ok (PyFloat (fmul m (fmul gf (dec 336 100)))) /\
    (forall mg eg,
       gf = S754_finite false mg eg ->
       2 ^ 52 <= Zpos mg < 2 ^ 53 -> -900 <= eg <= 900 ->
       (m = fzero /\
        fmul (fmul m gf) (dec 336 100) = fzero /\
        fmul m (fmul gf (dec 336 100)) = fzero) \/
       (exists ma ea mb eb,
          fmul (fmul m gf) (dec 336 100) = S754_finite false ma ea /\
          fmul m (fmul gf (dec 336 100)) = S754_finite false mb eb /\
          close (number ma ea) (number mb eb))) /\
    (forall n,
       g = PyInt n -> 1 <= n < 2 ^ 950 ->
       exists mg eg,
         gf = S754_finite false mg eg /\
         2 ^ 52 <= Zpos mg < 2 ^ 53 /\ -900 <= eg <= 900).
Proof.
  intros _ Eu Ec Eg Ef.
  destruct (calculate_bonus_percentage_values _ _ Eu) as (fu & [= <-] & Hu).
  destruct (calculate_bonus_percentage_values _ _ Ec) as (fc & [= <-] & Hc).
  destruct (multiplier_of_spec pu pc Hu Hc) as (m & Em & _).
  exists m. pose proof Em as Em'. unfold multiplier_of in Em'.
  split; [exact Em'|].
  assert (K : calculate_multiplier (mkDifferentialBonus U C) = Ok (PyFloat m)).
  { now rewrite (calculate_multiplier_value U C pu pc Eu Ec), Em. }
  assert (BV : calculate_group_bv C = Ok (PyFloat (fmul gf (dec 336 100)))).
  { unfold calculate_group_bv. rewrite Eg. cbn [bind].
    unfold py_mul, binop, BV_TO_PV_RATIO.
    destruct g as [n|f].
    - rewrite Ef, to_float_float. reflexivity.
    - rewrite to_float_float in Ef. injection Ef as <-.
      rewrite !to_float_float. reflexivity. }
  split; [exact K|]. split; [|split; [exact BV|split; [|split]]].
  - unfold calculate_amount. rewrite K. cbn [bind ibo2]. rewrite Eg. cbn [bind].
    unfold py_mul, binop, BV_TO_PV_RATIO.
    destruct g as [n|f].
    + rewrite to_float_float, Ef. cbn [bind]. rewrite !to_float_float. reflexivity.
    + rewrite to_float_float in Ef. injection Ef as <-.
      rewrite !to_float_float. cbn [bind]. rewrite !to_float_float. reflexivity.
  - unfold multiplier_times_group_bv. rewrite K. cbn [bind ibo2]. rewrite BV.
    cbn [bind]. unfold py_mul, binop. rewrite !to_float_float. reflexivity.
  - intros mg eg -> Hg He. now apply (amount_close pu pc m mg eg).
  - intros n -> Hn. now apply (to_float_pos_below n gf).
Qed.

(** When the group BV of the child is past the largest float the two
    differ altogether: the amount is [0.0 * 1e308 * 3.36 = 0.0], the
    multiplier times the group BV is [0.0 * inf], no number. *)
Lemma amount_and_group_bv_on_overflow :
  calculate_amount (mkDifferentialBonus huge_upline huge_child) =
    Ok (PyFloat fzero) /\
  calculate_group_bv huge_child = Ok (PyFloat finf) /\
  multiplier_times_group_bv (mkDifferentialBonus huge_upline huge_child) =
    Ok (PyFloat S754_nan).
Proof. repeat split; vm_compute; reflexivity. Qed.

Lemma differential_amount_left_to_right_witness :
  In new_ibo (frontline upline_of_forty) /\
  calculate_amount (mkDifferentialBonus upline_of_forty new_ibo) =
    Ok (PyFloat (S754_finite false 7093169413108531 (-46))) /\
  multiplier_times_group_bv (mkDifferentialBonus upline_of_forty new_ibo) =
    Ok (PyFloat (S754_finite false 7093169413108532 (-46))) /\
  close (number 7093169413108531 (-46)) (number 7093169413108532 (-46)).
Proof.
  assert (Hin : In new_ibo (frontline upline_of_forty)) by now left.
  destruct (differential_amount_left_to_right upline_of_forty new_ibo
              (dec 23 100) (dec 3 100) (PyInt 150) (float_of_Z 150) Hin)
    as (m & Em & _ & Ea & _ & Eb & Hclose & Hint);
    [vm_compute; reflexivity..|].
  assert (M : m = S754_finite false 7205759403792794 (-55)).
  { vm_compute in Em. congruence. }
  subst m.
  split; [exact Hin|].
  assert (A : fmul (fmul (S754_finite false 7205759403792794 (-55)) (float_of_Z 150))
                   (dec 336 100) = S754_finite false 7093169413108531 (-46))
    by (vm_compute; reflexivity).
  assert (B : fmul (S754_finite false 7205759403792794 (-55))
                   (fmul (float_of_Z 150) (dec 336 100)) =
              S754_finite false 7093169413108532 (-46))
    by (vm_compute; reflexivity).
  rewrite A in Ea. rewrite B in Eb.
  split; [exact Ea|]. split; [exact Eb|].
  destruct (Hint 150 eq_refl ltac:(split; [lia|reflexivity])) as (mg & eg & Eg & Hg & He).
  destruct (Hclose mg eg Eg Hg He) as [(F & _)|(ma & ea & mb & eb & Ea' & Eb' & Cl)];
    [discriminate F|].
  rewrite A in Ea'. rewrite B in Eb'.
  injection Ea' as <- <-. injection Eb' as <- <-. exact Cl.
Defined.

(** C8, as stated, fails: the group PV of [overflowing_child],
    [1e308 + (0 + 1e308)], is [+inf]; it and its upline are in the 25%
    tier, the multiplier is [0.0], and the amount [0.0 * inf * 3.36] is a
    NaN, which is neither [>= 0] nor [== 0]. *)
Lemma differential_nonnegativity_fails : ~ differential_nonnegativity.
Proof.
  intros H.
  destruct (H overflowing_upline overflowing_child
              (PyFloat (dec 25 100)) (PyFloat (dec 25 100)) (PyFloat S754_nan))
    as [F _]; [now left|vm_compute; reflexivity..|].
  vm_compute in F. discriminate F.
Qed.

(** C8 (amended): for an upline [U] and a frontline child [C] whose
    bonus percentages [pu] and [pc] are computed, and a group PV of [C]
    that is a finite number not below 0, an integer below [2^1023] or a
    float, the multiplier [max(0.0, pu - pc)] is not negative, [+0.0]
    when [pc >= pu] and positive when [pc < pu], and the amount is
    computed, is not negative, and is 0 when [pc >= pu]. *)
Theorem differential_nonnegative U C pu pc g :
  In C (frontline U) ->
  calculate_bonus_percentage U = Ok pu ->
  calculate_bonus_percentage C = Ok pc ->
  calculate_group_pv C = Ok g ->
  finite_nonneg_number g = true ->
  exists m a,
    calculate_multiplier (mkDifferentialBonus U C) = Ok (PyFloat m) /\
    py_ge (PyFloat m) (PyFloat fzero) = true /\
    (py_ge pc pu = true -> m = fzero) /\
    (py_lt pc pu = true -> py_gt (PyFloat m) (PyFloat fzero) = true) /\
    calculate_amount (mkDifferentialBonus U C) = Ok (PyFloat a) /\
    py_ge (PyFloat a) (PyFloat fzero) = true /\
    (py_ge pc pu = true -> py_eq (PyFloat a) (PyFloat fzero) = true).
Proof.
  intros _ Eu Ec Eg Hg.
  destruct (calculate_bonus_percentage_values _ _ Eu) as (fu & -> & Hu).
  destruct (calculate_bonus_percentage_values _ _ Ec) as (fc & -> & Hc).
  destruct (multiplier_of_spec fu fc Hu Hc) as (m & Em & Hm & Hz).
  destruct (finite_nonneg_number_converts g Hg) as (gf & Ef & Hgf).
  destruct (amount_sign m gf Hm Hgf) as [A1 A2].
  exists m, (fmul (fmul m gf) (dec 336 100)).
  split; [now rewrite (calculate_multiplier_value U C fu fc Eu Ec), Em|].
  split; [apply nonneg_ge_zero; now apply finite_nonneg_nonneg|].
  split; [exact Hz|]. split.
  { intros L. pose proof (multiplier_of_positive fu fc Hu Hc L) as P.
    now rewrite Em in P. }
  split; [|split; [exact A1|intros G; apply A2; now apply Hz]].
  unfold calculate_amount.
  rewrite (calculate_multiplier_value U C fu fc Eu Ec), Em. cbn [bind ibo2].
  rewrite Eg. cbn [bind]. unfold py_mul, binop, BV_TO_PV_RATIO.
  destruct g as [n|f].
  - rewrite !to_float_float, Ef. cbn [bind]. rewrite !to_float_float. reflexivity.
  - rewrite to_float_float in Ef. injection Ef as <-.
    rewrite !to_float_float. cbn [bind]. rewrite !to_float_float. reflexivity.
Qed.

Lemma differential_nonnegative_witness :
  let C := childless (PyFloat (dec 137188 100)) (PyInt 90) in
  In C (frontline gap_upline) /\
  calculate_bonus_percentage gap_upline = Ok (PyFloat fzero) /\
  calculate_bonus_percentage C = Ok (PyFloat (dec 12 100)) /\
  py_ge (PyFloat (dec 12 100)) (PyFloat fzero) = true /\
  calculate_multiplier (mkDifferentialBonus gap_upline C) = Ok (PyFloat fzero) /\
  exists a,
    calculate_amount (mkDifferentialBonus gap_upline C) = Ok (PyFloat a) /\
    py_eq (PyFloat a) (PyFloat fzero) = true.
Proof.
  intros C.
  assert (Hin : In C (frontline gap_upline)) by now left.
  assert (Eu : calculate_bonus_percentage gap_upline = Ok (PyFloat fzero))
    by (vm_compute; reflexivity).
  assert (Ec : calculate_bonus_percentage C = Ok (PyFloat (dec 12 100)))
    by (vm_compute; reflexivity).
  assert (G : py_ge (PyFloat (dec 12 100)) (PyFloat fzero) = true)
    by (vm_compute; reflexivity).
  destruct (differential_nonnegative gap_upline C _ _ (PyFloat (dec 137188 100))
              Hin Eu Ec eq_refl eq_refl)
    as (m & a & Em & _ & Hz & _ & Ea & _ & Ha).
  split; [exact Hin|]. split; [exact Eu|]. split; [exact Ec|].
  split; [exact G|]. split; [rewrite Em, (Hz G); reflexivity|].
  exists a. split; [exact Ea|exact (Ha G)].
Defined.

(* ===================================================================== *)
(** * Customer sales incentive *)
(* ===================================================================== *)

Lemma calculate_csi_bonus_only_overflow self :
  only_overflow (calculate_csi_bonus self).
Proof.
  unfold calculate_csi_bonus, uncapped_csi_bonus, calculate_csi_percentage.
  apply only_overflow_bind; [|intros ? _; apply only_overflow_ok].
  apply only_overflow_bind.
  { apply only_overflow_bind;
      [apply calculate_bonus_percentage_only_overflow|intros ? _].
    apply only_overflow_bind; [apply binop_only_overflow|intros ? _].
    apply only_overflow_ok. }
  intros ? _. apply only_overflow_bind; [apply binop_only_overflow|intros ? _].
  apply binop_only_overflow.
Qed.

Lemma calculate_retail_profit_only_overflow self :
  only_overflow (calculate_retail_profit self).
Proof.
  unfold calculate_retail_profit.
  apply only_overflow_bind; [apply binop_only_overflow|intros ? _].
  apply binop_only_overflow.
Qed.

(** C9: the CSI percentage is [max(0.0, 0.1 - bonus percentage)]: it is
    computed whenever the bonus percentage is, it lies between 0.0 and
    0.1, it is [+0.0] when the bonus percentage is at least 0.1 and the
    positive difference when it is below.  The CSI bonus is the product
    [csi_percentage * vcs_pv * 3.36] clamped at 75.0: the product itself
    when it is not above 75.0, and 75.0 when it is, so never above 75.0,
    and 75.0 for a product of 200.0. *)
Theorem csi_bonus_clamped self :
  (forall p,
     calculate_bonus_percentage self = Ok (PyFloat p) ->
     calculate_csi_percentage self =
       Ok (py_max (PyFloat fzero) (PyFloat (fsub (dec 1 10) p)))) /\
  (forall p,
     calculate_bonus_percentage self = Ok p ->
     exists c,
       calculate_csi_percentage self = Ok (PyFloat c) /\
       py_ge (PyFloat c) (PyFloat fzero) = true /\
       py_le (PyFloat c) (PyFloat (dec 1 10)) = true /\
       (py_ge p (PyFloat (dec 1 10)) = true -> c = fzero) /\
       (py_lt p (PyFloat (dec 1 10)) = true ->
        py_gt (PyFloat c) (PyFloat fzero) = true /\
        exists d, py_sub (PyFloat (dec 1 10)) p = Ok d /\
                  py_eq (PyFloat c) d = true)) /\
  (forall c a u,
     calculate_csi_percentage self = Ok c ->
     py_mul c (_vcs_pv self) = Ok a -> py_mul a BV_TO_PV_RATIO = Ok u ->
     uncapped_csi_bonus self = Ok u /\
     calculate_csi_bonus self = Ok (py_min u (PyFloat (dec 750 10))) /\
     (py_gt u (PyFloat (dec 750 10)) = true ->
      calculate_csi_bonus self = Ok (PyFloat (dec 750 10))) /\
     (py_gt u (PyFloat (dec 750 10)) = false ->
      calculate_csi_bonus self = Ok u)) /\
  (forall b,
     calculate_csi_bonus self = Ok b ->
     py_gt b (PyFloat (dec 750 10)) = false) /\
  (uncapped_csi_bonus self = Ok (PyFloat (dec 2000 10)) ->
   calculate_csi_bonus self = Ok (PyFloat (dec 750 10))).
Proof.
  split; [|split; [|split; [|split]]].
  - intros p Ep. unfold calculate_csi_percentage. now rewrite Ep.
  - intros p Ep.
    destruct (calculate_bonus_percentage_values _ _ Ep) as (pf & -> & Hp).
    destruct (csi_percentage_of_spec pf Hp) as (c & Ec & Hc & Hle & Hz & Hpos).
    exists c. unfold calculate_csi_percentage. rewrite Ep. cbn [bind].
    unfold py_sub, binop. rewrite !to_float_float. cbn [bind].
    unfold csi_percentage_of in Ec. rewrite Ec.
    split; [reflexivity|]. split; [|split; [exact Hle|split; [exact Hz|]]].
    + apply nonneg_ge_zero. now apply finite_nonneg_nonneg.
    + intros L. destruct (Hpos L) as [P Q]. split; [exact P|].
      eexists. split; [reflexivity|exact Q].
  - intros c a u Ec Ea Eu.
    assert (E : uncapped_csi_bonus self = Ok u).
    { unfold uncapped_csi_bonus. rewrite Ec. simpl. rewrite Ea. exact Eu. }
    unfold calculate_csi_bonus. rewrite E. simpl. unfold py_min, py_gt.
    repeat split; trivial; now intros ->.
  - intros b. unfold calculate_csi_bonus.
    destruct (uncapped_csi_bonus self) as [u|]; simpl; [|discriminate].
    intros [= <-]. unfold py_min, py_gt.
    destruct (py_lt (PyFloat (dec 750 10)) u) eqn:L; [|exact L].
    apply py_lt_irrefl.
  - intros E. unfold calculate_csi_bonus. rewrite E. reflexivity.
Qed.

Lemma csi_bonus_clamped_witness :
  (uncapped_csi_bonus retail_heavy = Ok (PyFloat (dec 2000 10)) /\
   calculate_csi_bonus retail_heavy = Ok (PyFloat (dec 750 10))) /\
  (calculate_bonus_percentage twelve_percent = Ok (PyFloat (dec 12 100)) /\
   py_ge (PyFloat (dec 12 100)) (PyFloat (dec 1 10)) = true /\
   calculate_csi_percentage twelve_percent = Ok (PyFloat fzero)).
Proof.
  assert (E : uncapped_csi_bonus retail_heavy = Ok (PyFloat (dec 2000 10)))
    by (vm_compute; reflexivity).
  assert (P : calculate_bonus_percentage twelve_percent = Ok (PyFloat (dec 12 100)))
    by (vm_compute; reflexivity).
  assert (G : py_ge (PyFloat (dec 12 100)) (PyFloat (dec 1 10)) = true)
    by (vm_compute; reflexivity).
  split.
  - split; [exact E|].
    apply (proj2 (proj2 (proj2 (proj2 (csi_bonus_clamped retail_heavy)))) E).
  - split; [exact P|]. split; [exact G|].
    destruct (proj1 (proj2 (csi_bonus_clamped twelve_percent)) _ P)
      as (c & Ec & _ & _ & Hz & _).
    rewrite Ec. now rewrite (Hz G).
Defined.

(* ===================================================================== *)
(** * Total earnings *)
(* ===================================================================== *)

(** Past the gate, the only exception of the total is that of a
    conversion. *)
Lemma calculate_total_earnings_past_gate self :
  ~ below_gate self -> only_overflow (calculate_total_earnings self).
Proof.
  intros G. unfold calculate_total_earnings.
  rewrite (proj2 (calculate_personal_bonus_gate self) G).
  apply only_overflow_bind;
    [apply percentage_times_personal_bv_only_overflow|intros ? _].
  apply only_overflow_bind;
    [apply calculate_differential_bonus_only_overflow|intros ? _].
  apply only_overflow_bind; [apply binop_only_overflow|intros ? _].
  apply only_overflow_bind;
    [apply calculate_csi_bonus_only_overflow|intros ? _].
  apply only_overflow_bind; [apply binop_only_overflow|intros ? _].
  apply only_overflow_bind;
    [apply calculate_retail_profit_only_overflow|intros ? _].
  apply binop_only_overflow.
Qed.



(* ===================================================================== *)
(** * The construction interface: constructed participants qualify *)
(* ===================================================================== *)

Section Construction.

Lemma update_length ref f st : length (update ref f st) = length st.
Proof.
  revert ref. induction st as [|o rest IH]; intros [|ref]; simpl; auto.
Qed.

Lemma nth_error_update ref f st i :
  nth_error (update ref f st) i =
  if Nat.eqb i ref then option_map f (nth_error st i) else nth_error st i.
Proof.
  revert ref i. induction st as [|o rest IH]; intros [|ref] [|i]; simpl; auto.
  - now destruct (Nat.eqb _ _).
Qed.

Lemma constructed_well_formed st : constructed st -> well_formed st.
Proof.
  induction 1 as [|st sp month _ IH Hsp].
  - intros [|i] o; discriminate.
  - unfold __init__. cbn [fst].
    set (new := mkObject sp month [] (PyInt 150) (PyInt 90) IBO_LEVEL_IBO).
    assert (Happ : well_formed (st ++ [new])).
    { intros i o Ho. rewrite length_app. simpl.
      destruct (Nat.lt_ge_cases i (length st)) as [Hi|Hi].
      - rewrite nth_error_app1 in Ho by exact Hi.
        destruct (IH i o Ho) as (Hp & Hv & Hf). repeat split; trivial.
        eapply Forall_impl; [|exact Hf]. simpl. lia.
      - rewrite nth_error_app2 in Ho by exact Hi.
        destruct (i - length st)%nat as [|[|k]]; simpl in Ho; try discriminate.
        injection Ho as <-. repeat split; constructor. }
    destruct sp as [s|]; [|exact Happ].
    specialize (Hsp s eq_refl).
    intros i o. unfold add_frontline. rewrite nth_error_update, update_length.
    destruct (Nat.eqb_spec i s) as [->|Hne]; [|apply Happ].
    destruct (nth_error (st ++ [new]) s) as [o0|] eqn:E0; simpl; [|discriminate].
    intros [= <-]. simpl.
    destruct (Happ s o0 E0) as (Hp & Hv & Hf). repeat split; trivial.
    apply Forall_app. split; [exact Hf|].
    constructor; [|constructor]. rewrite length_app. simpl. lia.
Qed.

Lemma sequence_map_Forall {A : Type} (f : nat -> option A) (I : A -> bool) refs :
  Forall (fun j => exists a, f j = Some a /\ I a = true) refs ->
  exists l, sequence (map f refs) = Some l /\ forallb I l = true.
Proof.
  induction 1 as [|j refs (a & Ea & Ha) _ (l & El & Hl)]; simpl.
  - exists []. auto.
  - rewrite Ea, El. exists (a :: l). simpl. rewrite Ha, Hl. auto.
Qed.

(** In a constructed store the references end: every participant is read
    with a fuel of the size of the store, and its volumes are the
    constructor's throughout. *)
Lemma tree_of_well_formed st :
  well_formed st ->
  forall fuel ref,
    (ref < length st)%nat -> (length st - ref <= fuel)%nat ->
    exists self, tree_of st fuel ref = Some self /\
                 constructor_volumes self = true.
Proof.
  intros Hwf. induction fuel as [|fuel IH]; intros ref Hlt Hfuel; [lia|].
  simpl. destruct (nth_error st ref) as [o|] eqn:Eo.
  - destruct (Hwf ref o Eo) as (Hp & Hv & Hf).
    destruct (sequence_map_Forall (tree_of st fuel) constructor_volumes
                (o_frontline o)) as (fl & Efl & Hfl).
    { eapply Forall_impl; [|exact Hf]. simpl. intros j Hj. apply IH; lia. }
    rewrite Efl. eexists. split; [reflexivity|].
    simpl. rewrite Hp, Hv, Hfl. reflexivity.
  - apply nth_error_None in Eo. lia.
Qed.

Lemma constructor_volumes_fields self :
  constructor_volumes self = true ->
  _personal_pv self = PyInt 150 /\ _vcs_pv self = PyInt 90.
Proof.
  destruct self as [m fl [p|] [v|] l]; simpl; try discriminate.
  intros H. apply andb_true_iff in H as [H _].
  apply andb_true_iff in H as [Hp Hv].
  apply Z.eqb_eq in Hp, Hv. now subst.
Qed.

Lemma constructor_volumes_nonneg self :
  constructor_volumes self = true -> nonneg_int_volumes self = true.
Proof.
  induction self as [m fl pv vcs l IH] using AmwayIBO_induction.
  simpl. intros H. apply andb_true_iff in H as [Hv Hfl].
  destruct pv as [p|]; [|discriminate]. destruct vcs as [v|]; [|discriminate].
  apply andb_true_iff in Hv as [Hp _]. apply Z.eqb_eq in Hp. subst p.
  simpl. clear -IH Hfl.
  induction IH as [|c fl Hc _ IHfl]; [reflexivity|].
  simpl in Hfl |- *. apply andb_true_iff in Hfl as [H1 H2].
  now rewrite (Hc H1), (IHfl H2).
Qed.

(** With the volumes of the constructor the threshold of the gate,
    [0.6 * 150], rounds to exactly [90.0], which the VCS PV of 90 is not
    below. *)
Lemma constructor_volumes_gate self :
  constructor_volumes self = true ->
  py_mul (PyFloat (dec 6 10)) (_personal_pv self) = Ok (PyFloat (dec 900 10)) /\
  py_eq (_vcs_pv self) (PyFloat (dec 900 10)) = true /\
  ~ below_gate self.
Proof.
  intros H. destruct (constructor_volumes_fields self H) as [Hp Hv].
  unfold below_gate. rewrite Hp, Hv.
  assert (E : py_mul (PyFloat (dec 6 10)) (PyInt 150) = Ok (PyFloat (dec 900 10)))
    by (vm_compute; reflexivity).
  rewrite E. repeat split.
  intros (t & [= <-] & G). vm_compute in G. discriminate.
Qed.

Lemma constructor_volumes_personal_bonus self :
  constructor_volumes self = true ->
  exists a, calculate_personal_bonus self = Ok (PyFloat a).
Proof.
  intros H. destruct (constructor_volumes_gate self H) as (_ & _ & G).
  rewrite (proj2 (calculate_personal_bonus_gate self) G).
  unfold percentage_times_personal_bv, calculate_bonus_percentage,
    calculate_personal_bv.
  destruct (group_pv_int self (constructor_volumes_nonneg self H)) as (g & -> & _).
  simpl. destruct (bonus_percentage_of_total (PyInt g)) as (p & Ep & _).
  rewrite Ep. destruct (bonus_percentage_of_float _ _ Ep) as [f ->].
  destruct (constructor_volumes_fields self H) as [-> _].
  simpl. eexists. reflexivity.
Qed.

(** With the volumes of the constructor and a group PV below [2^1023],
    the total is computed. *)
Lemma constructor_volumes_total_earnings self g :
  constructor_volumes self = true ->
  calculate_group_pv self = Ok (PyInt g) -> g < 2 ^ 1023 ->
  exists total, calculate_total_earnings self = Ok (PyFloat total).
Proof.
  intros Hv Eg Hg.
  pose proof (constructor_volumes_nonneg self Hv) as Hn.
  destruct (constructor_volumes_fields self Hv) as [Epv Evcs].
  destruct (constructor_volumes_personal_bonus self Hv) as [a Ea].
  destruct (nonneg_int_volumes_percentage self Hn) as (p & Ep & _).
  assert (Hdb : exists b, calculate_differential_bonus self = Ok b /\
                          (b = PyInt 0 \/ is_float b)).
  { destruct (py_sum_returns (map calculate_amount (differential_bonus_list self)))
      as [b Eb].
    - apply Forall_map. apply Forall_forall. intros d Hd.
      unfold differential_bonus_list in Hd.
      apply in_map_iff in Hd as (C & <- & Hin).
      destruct (frontline_group_pv_le self C g Hn Hin Eg) as (gc & Egc & Hgc).
      apply (frontline_amount_returns self C gc Hin Hn Egc). lia.
    - exists b. split; [exact Eb|].
      now apply calculate_differential_bonus_shape in Eb. }
  destruct Hdb as (b & Eb & Hb).
  destruct (py_add_float_l a b Hb) as [s1 E1].
  assert (Hcsi : exists c, calculate_csi_bonus self = Ok (PyFloat c)).
  { unfold calculate_csi_bonus, uncapped_csi_bonus, calculate_csi_percentage.
    rewrite Ep, Evcs. cbn [bind]. unfold py_sub, binop.
    rewrite !to_float_float. cbn [bind].
    destruct (py_max_float fzero (fsub (dec 1 10) p)) as [c ->].
    unfold py_mul, binop, BV_TO_PV_RATIO. rewrite !to_float_float.
    replace (to_float (PyInt 90)) with (Ok (float_of_Z 90)) by reflexivity.
    cbn [bind]. rewrite !to_float_float. cbn [bind]. destruct (py_min_float (fmul (fmul c (float_of_Z 90)) (dec 336 100))
                            (dec 750 10)) as [r ->]. eauto. }
  destruct Hcsi as [c Ec].
  unfold calculate_total_earnings.
  rewrite Ea, Eb. cbn [bind]. rewrite E1. cbn [bind]. rewrite Ec. cbn [bind].
  unfold calculate_retail_profit. rewrite Evcs.
  eexists. reflexivity.
Qed.

(** With the volumes of the constructor the group PV is 150 for each
    participant. *)
Lemma constructor_volumes_group_pv self :
  constructor_volumes self = true ->
  calculate_group_pv self = Ok (PyInt (150 * participants self)).
Proof.
  induction self as [m fl pv vcs l IH] using AmwayIBO_induction.
  intros H. cbn [constructor_volumes] in H.
  apply andb_true_iff in H as [Hv Hfl].
  destruct pv as [p|]; [|discriminate]. destruct vcs as [v|]; [|discriminate].
  apply andb_true_iff in Hv as [Hp _]. apply Z.eqb_eq in Hp. subst p.
  assert (K : map calculate_group_pv fl =
              map (fun z => Ok (PyInt z)) (map (fun c => 150 * participants c) fl)).
  { clear -IH Hfl. induction IH as [|c fl Hc _ IHfl]; [reflexivity|].
    cbn [forallb map] in Hfl |- *. apply andb_true_iff in Hfl as [H1 H2].
    now rewrite (Hc H1), (IHfl H2). }
  assert (S : fold_right Z.add 0 (map (fun c => 150 * participants c) fl) =
              150 * fold_right Z.add 0 (map participants fl)).
  { clear. induction fl as [|c fl IHfl]; cbn [fold_right map]; lia. }
  cbn [calculate_group_pv participants].
  rewrite K, py_sum_ints, S. cbn [bind]. unfold py_add, binop. do 2 f_equal.
  lia.
Qed.

(** C10: every object the constructor creates has a personal PV of 150
    and a VCS PV of 90.  For every participant of a constructed store the
    threshold of the gate, [0.6 * 150], is exactly the VCS PV 90, so
    [calculate_personal_bonus] returns, [calculate_total_earnings] never
    raises a [ValueError], and it returns when the group PV, 150 for
    each participant, is below [2^1023]. *)
Theorem constructed_participants_qualify st ref :
  constructed st -> (ref < length st)%nat ->
  (forall o, nth_error st ref = Some o ->
             o_personal_pv o = PyInt 150 /\ o_vcs_pv o = PyInt 90) /\
  exists self,
    tree_of st (length st) ref = Some self /\
    constructor_volumes self = true /\
    py_mul (PyFloat (dec 6 10)) (_personal_pv self) = Ok (PyFloat (dec 900 10)) /\
    py_eq (_vcs_pv self) (PyFloat (dec 900 10)) = true /\
    (exists a, calculate_personal_bonus self = Ok (PyFloat a)) /\
    (forall msg, calculate_total_earnings self <> Raise (ValueError msg)) /\
    calculate_group_pv self = Ok (PyInt (150 * participants self)) /\
    (150 * participants self < 2 ^ 1023 ->
     exists total, calculate_total_earnings self = Ok (PyFloat total)).
Proof.
  intros Hc Hlt. pose proof (constructed_well_formed st Hc) as Hwf. split.
  - intros o Ho. destruct (Hwf ref o Ho) as (Hp & Hv & _). auto.
  - destruct (tree_of_well_formed st Hwf (length st) ref Hlt) as (self & E & Hv);
      [lia|].
    exists self. destruct (constructor_volumes_gate self Hv) as (Em & Eq & G).
    do 4 (split; [assumption|]). split; [|split; [|split]].
    + now apply constructor_volumes_personal_bonus.
    + intros msg F.
      now apply (calculate_total_earnings_past_gate self G) in F.
    + now apply constructor_volumes_group_pv.
    + apply constructor_volumes_total_earnings; trivial.
      now apply constructor_volumes_group_pv.
Qed.

Lemma constructed_participants_qualify_witness :
  constructed small_store /\ (0 < length small_store)%nat /\
  exists self,
    tree_of small_store (length small_store) 0 = Some self /\
    constructor_volumes self = true /\
    py_mul (PyFloat (dec 6 10)) (_personal_pv self) = Ok (PyFloat (dec 900 10)) /\
    py_eq (_vcs_pv self) (PyFloat (dec 900 10)) = true /\
    (exists a, calculate_personal_bonus self = Ok (PyFloat a)) /\
    (forall msg, calculate_total_earnings self <> Raise (ValueError msg)) /\
    calculate_group_pv self = Ok (PyInt (150 * participants self)) /\
    (150 * participants self < 2 ^ 1023 ->
     exists total, calculate_total_earnings self = Ok (PyFloat total)).
Proof.
  assert (C : constructed small_store).
  { unfold small_store.
    repeat (apply constructed_new;
            [|intros s E; try discriminate E; injection E as <-; simpl; lia]).
    apply constructed_empty. }
  assert (L : (0 < length small_store)%nat) by (simpl; lia).
  split; [exact C|]. split; [exact L|].
  apply (proj2 (constructed_participants_qualify small_store 0%nat C L)).
Defined.

End Construction.

(* ===================================================================== *)
(** * The bonus percentage of integer volumes, and at the edges *)
(* ===================================================================== *)

(** An integer is at most a bound strictly between [k] and [k + 1] when
    it is at most [k]. *)
Lemma py_le_int_below c k n :
  py_lt (PyInt k) c = true -> py_lt c (PyInt (k + 1)) = true ->
  py_le (PyInt n) c = (n <=? k).
Proof.
  intros L U. destruct (Z.leb_spec n k) as [H|H].
  - apply py_lt_le. apply (py_le_lt_trans _ (PyInt k)); [|exact L].
    rewrite py_le_int. now apply Z.leb_le.
  - destruct (py_le (PyInt n) c) eqn:E; [|reflexivity].
    apply py_le_not_lt in E.
    assert (F : py_lt c (PyInt n) = true).
    { apply (py_lt_le_trans _ (PyInt (k + 1))); [exact U|].
      rewrite py_le_int. apply Z.leb_le. lia. }
    congruence.
Qed.

Ltac decide_leb :=
  repeat match goal with
         | |- context [?a <=? ?b] =>
             first [ rewrite (proj2 (Z.leb_le a b)) by lia
                   | rewrite (proj2 (Z.leb_gt a b)) by lia ]
         end.

Lemma bonus_percentage_of_int n :
  bonus_percentage_of (PyInt n) = Ok (PyFloat (percentage_of_int n)).
Proof.
  unfold bonus_percentage_of, BONUS_SCHEDULE, schedule_loop, percentage_of_int.
  cbn [pv_min pv_max percent].
  rewrite !py_le_int.
  rewrite (py_le_int_below _ 299), (py_le_int_below _ 599),
    (py_le_int_below _ 999), (py_le_int_below _ 1499),
    (py_le_int_below _ 2499), (py_le_int_below _ 3999),
    (py_le_int_below _ 5999), (py_le_int_below _ 7499)
    by (vm_compute; reflexivity).
  rewrite (py_le_inf (PyInt n)) by reflexivity.
  destruct (Z.ltb_spec n 100); [decide_leb; reflexivity|].
  destruct (Z.ltb_spec n 300); [decide_leb; vm_compute; reflexivity|].
  destruct (Z.ltb_spec n 600); [decide_leb; vm_compute; reflexivity|].
  destruct (Z.ltb_spec n 1000); [decide_leb; vm_compute; reflexivity|].
  destruct (Z.ltb_spec n 1500); [decide_leb; vm_compute; reflexivity|].
  destruct (Z.ltb_spec n 2500); [decide_leb; vm_compute; reflexivity|].
  destruct (Z.ltb_spec n 4000); [decide_leb; vm_compute; reflexivity|].
  destruct (Z.ltb_spec n 6000); [decide_leb; vm_compute; reflexivity|].
  destruct (Z.ltb_spec n 7500); [decide_leb; vm_compute; reflexivity|].
  decide_leb. vm_compute. reflexivity.
Qed.

Lemma percentage_of_int_monotone n1 n2 :
  n1 <= n2 ->
  py_le (PyFloat (percentage_of_int n1)) (PyFloat (percentage_of_int n2)) = true.
Proof.
  intros H. destruct (Z.eq_dec n1 n2) as [->|Hne].
  - unfold percentage_of_int.
    repeat (destruct (_ <? _); [reflexivity|]). reflexivity.
  - destruct (monotone_outside_gaps (PyInt n1) (PyInt n2))
      as (p1 & p2 & E1 & E2 & L).
    + rewrite py_lt_int. apply Z.ltb_lt. lia.
    + right. eauto.
    + rewrite bonus_percentage_of_int in E1, E2.
      injection E1 as <-. injection E2 as <-. exact L.
Qed.

(** X1: on integer group PVs the lookup is the step function of the
    tier minima: 0.0 below 100, and from the minimum of a tier to below
    the next the percentage of the tier; it never decreases, and from
    100 on it is positive. *)
Theorem integer_group_pv_percentage self n :
  calculate_group_pv self = Ok (PyInt n) ->
  calculate_bonus_percentage self = Ok (PyFloat (percentage_of_int n)) /\
  (100 <= n -> py_lt (PyFloat fzero) (PyFloat (percentage_of_int n)) = true) /\
  (forall self' n',
     calculate_group_pv self' = Ok (PyInt n') -> n <= n' ->
     exists p p',
       calculate_bonus_percentage self = Ok p /\
       calculate_bonus_percentage self' = Ok p' /\
       py_le p p' = true).
Proof.
  intros E.
  assert (P : forall s k, calculate_group_pv s = Ok (PyInt k) ->
              calculate_bonus_percentage s = Ok (PyFloat (percentage_of_int k))).
  { intros s k Ek. unfold calculate_bonus_percentage. rewrite Ek. cbn [bind].
    apply bonus_percentage_of_int. }
  split; [exact (P _ _ E)|]. split.
  - intros H. unfold percentage_of_int.
    destruct (Z.ltb_spec n 100); [lia|].
    repeat (destruct (_ <? _); [reflexivity|]). reflexivity.
  - intros self' n' E' H.
    exists (PyFloat (percentage_of_int n)), (PyFloat (percentage_of_int n')).
    split; [exact (P _ _ E)|]. split; [exact (P _ _ E')|].
    now apply percentage_of_int_monotone.
Qed.

Lemma integer_group_pv_percentage_witness :
  calculate_group_pv upline_of_forty = Ok (PyInt 6150) /\
  calculate_bonus_percentage upline_of_forty = Ok (PyFloat (dec 23 100)).
Proof.
  assert (E : calculate_group_pv upline_of_forty = Ok (PyInt 6150))
    by (vm_compute; reflexivity).
  split; [exact E|].
  rewrite (proj1 (integer_group_pv_percentage upline_of_forty 6150 E)).
  reflexivity.
Defined.

(** A value no tier holds gets the default. *)
Lemma bonus_percentage_of_default v :
  (forall t, In t BONUS_SCHEDULE -> contains t v = false) ->
  bonus_percentage_of v = Ok (PyFloat fzero).
Proof.
  intros H. rewrite bonus_percentage_of_find.
  destruct (find _ _) as [t|] eqn:E; [|reflexivity].
  apply find_some in E as [Hin C]. rewrite (H t Hin) in C. discriminate.
Qed.

(** X2: the lookup at the edges.  It returns for every group PV that is
    computed; a group PV that is a NaN or below 100, a negative one
    too, gets the default 0.0, and a group PV from 7500 on, [+inf] too,
    gets 0.25. *)
Theorem bonus_percentage_at_the_edges self v :
  calculate_group_pv self = Ok v ->
  (exists p, calculate_bonus_percentage self = Ok p /\
             py_le (PyFloat fzero) p = true /\
             py_le p (PyFloat (dec 25 100)) = true) /\
  (is_nan v = true -> calculate_bonus_percentage self = Ok (PyFloat fzero)) /\
  (py_lt v (PyInt 100) = true ->
   calculate_bonus_percentage self = Ok (PyFloat fzero)) /\
  (py_ge v (PyInt 7500) = true ->
   calculate_bonus_percentage self = Ok (PyFloat (dec 25 100))).
Proof.
  intros E. unfold calculate_bonus_percentage. rewrite E. cbn [bind].
  split; [|split; [|split]].
  - destruct (bonus_percentage_of_total v) as (p & Ep & Hp).
    exists p. split; [exact Ep|]. split; [exact Hp|].
    destruct (bonus_percentage_of_values v p Ep) as (f & -> & Hf).
    simpl in Hf.
    repeat (destruct Hf as [<-|Hf]; [reflexivity|]). destruct Hf.
  - intros N. apply bonus_percentage_of_default. intros t _.
    unfold contains. destruct (py_le (pv_min t) v) eqn:L; [|reflexivity].
    apply py_le_is_nan_r in L. congruence.
  - intros L. apply bonus_percentage_of_default. intros t Hin.
    unfold contains. destruct (py_le (pv_min t) v) eqn:M; [|reflexivity].
    exfalso. pose proof (py_le_lt_trans _ _ _ M L) as F.
    simpl in Hin.
    repeat (destruct Hin as [<-|Hin]; [vm_compute in F; discriminate F|]).
    destruct Hin.
  - intros G. unfold py_ge in G.
    pose proof (py_le_is_nan_r _ _ G) as N.
    rewrite bonus_percentage_of_find.
    assert (F : forall t, In t BONUS_SCHEDULE ->
                py_lt (pv_max t) (PyInt 7500) = true -> contains t v = false).
    { intros t _ L. unfold contains.
      destruct (py_le v (pv_max t)) eqn:M; [|apply andb_false_r].
      pose proof (py_le_lt_trans _ _ _ G (py_le_lt_trans _ _ _ M L)) as K.
      rewrite py_lt_irrefl in K. discriminate. }
    unfold BONUS_SCHEDULE in *. cbn [find].
    rewrite !F by (simpl; tauto || (vm_compute; reflexivity)).
    unfold contains. cbn [pv_min pv_max]. rewrite G, (py_le_inf v N).
    reflexivity.
Qed.

Lemma bonus_percentage_at_the_edges_witness :
  calculate_group_pv (childless (PyFloat S754_nan) (PyInt 90)) =
    Ok (PyFloat S754_nan) /\
  calculate_bonus_percentage (childless (PyFloat S754_nan) (PyInt 90)) =
    Ok (PyFloat fzero).
Proof.
  assert (E : calculate_group_pv (childless (PyFloat S754_nan) (PyInt 90)) =
              Ok (PyFloat S754_nan)) by reflexivity.
  split; [exact E|].
  apply (proj1 (proj2 (bonus_percentage_at_the_edges _ _ E))). reflexivity.
Defined.

(* ===================================================================== *)
(** * The earnings of an upline and the VCS PV of its downline *)
(* ===================================================================== *)

Lemma calculate_group_pv_with_vcs x self :
  calculate_group_pv (with_vcs x self) = calculate_group_pv self.
Proof.
  induction self as [m fl pv vcs l IH] using AmwayIBO_induction.
  cbn [with_vcs calculate_group_pv]. rewrite map_map.
  replace (map (fun c => calculate_group_pv (with_vcs x c)) fl)
    with (map calculate_group_pv fl); [reflexivity|].
  apply map_ext_in. intros c Hc. rewrite Forall_forall in IH.
  symmetry. now apply IH.
Qed.

Lemma calculate_bonus_percentage_with_vcs x self :
  calculate_bonus_percentage (with_vcs x self) = calculate_bonus_percentage self.
Proof.
  unfold calculate_bonus_percentage. now rewrite calculate_group_pv_with_vcs.
Qed.

(** X3: no query on a participant reads the VCS PV of the participants
    below it: with any other VCS PV throughout its downline, one below
    the gate too, the group PV, the bonus percentage, each part of the
    earnings and the total are the same. *)
Theorem downline_vcs_pv_is_not_read m fl pv vcs l x :
  let self := mkIBO m fl pv vcs l in
  let self' := mkIBO m (map (with_vcs x) fl) pv vcs l in
  calculate_group_pv self' = calculate_group_pv self /\
  calculate_bonus_percentage self' = calculate_bonus_percentage self /\
  calculate_personal_bonus self' = calculate_personal_bonus self /\
  calculate_differential_bonus self' = calculate_differential_bonus self /\
  calculate_csi_bonus self' = calculate_csi_bonus self /\
  calculate_retail_profit self' = calculate_retail_profit self /\
  calculate_total_earnings self' = calculate_total_earnings self.
Proof.
  intros self self'.
  assert (G : calculate_group_pv self' = calculate_group_pv self).
  { unfold self', self. cbn [calculate_group_pv]. rewrite map_map.
    replace (map (fun c => calculate_group_pv (with_vcs x c)) fl)
      with (map calculate_group_pv fl); [reflexivity|].
    apply map_ext. intros c. symmetry. apply calculate_group_pv_with_vcs. }
  assert (P : calculate_bonus_percentage self' = calculate_bonus_percentage self).
  { unfold calculate_bonus_percentage. now rewrite G. }
  assert (B : calculate_personal_bonus self' = calculate_personal_bonus self).
  { unfold calculate_personal_bonus. rewrite P. reflexivity. }
  assert (D : calculate_differential_bonus self' = calculate_differential_bonus self).
  { unfold calculate_differential_bonus, differential_bonus_list.
    unfold self' at 2. unfold self at 2. cbn [frontline].
    rewrite !map_map. f_equal. apply map_ext. intros c.
    unfold calculate_amount, calculate_multiplier. cbn [ibo1 ibo2].
    now rewrite P, calculate_bonus_percentage_with_vcs,
      calculate_group_pv_with_vcs. }
  assert (C : calculate_csi_bonus self' = calculate_csi_bonus self).
  { unfold calculate_csi_bonus, uncapped_csi_bonus, calculate_csi_percentage.
    rewrite P. reflexivity. }
  assert (R : calculate_retail_profit self' = calculate_retail_profit self)
    by reflexivity.
  repeat (split; [assumption|]).
  unfold calculate_total_earnings. now rewrite B, D, C, R.
Qed.

(* ===================================================================== *)
(** * The exceptions of the total *)
(* ===================================================================== *)

Lemma below_gate_or_not self : below_gate self \/ ~ below_gate self.
Proof.
  unfold below_gate.
  destruct (py_mul (PyFloat (dec 6 10)) (_personal_pv self)) as [t|e].
  - destruct (py_lt (_vcs_pv self) t) eqn:L.
    + left. eauto.
    + right. intros (t' & [= <-] & L'). congruence.
  - right. intros (t' & [=] & _).
Qed.

(** X4: [calculate_total_earnings] raises the qualification error when
    and only when the participant itself is below the gate; any other
    exception of it is that of a conversion to float. *)
Theorem total_earnings_exceptions self :
  (calculate_total_earnings self = Raise qualification_error <->
   below_gate self) /\
  (forall e,
     calculate_total_earnings self = Raise e ->
     e = qualification_error \/ e = overflow_error) /\
  (forall msg,
     calculate_total_earnings self = Raise (ValueError msg) ->
     below_gate self).
Proof.
  assert (Q : below_gate self ->
              calculate_total_earnings self = Raise qualification_error).
  { intros G. unfold calculate_total_earnings.
    now rewrite (proj1 (calculate_personal_bonus_gate self) G). }
  assert (V : forall msg,
            calculate_total_earnings self = Raise (ValueError msg) ->
            below_gate self).
  { intros msg E. destruct (below_gate_or_not self) as [G|G]; [exact G|].
    apply (calculate_total_earnings_past_gate self G) in E. discriminate. }
  split; [split; [apply V|exact Q]|]. split; [|exact V].
  intros e E. destruct (below_gate_or_not self) as [G|G].
  - left. rewrite (Q G) in E. congruence.
  - right. now apply (calculate_total_earnings_past_gate self G).
Qed.

Lemma total_earnings_exceptions_witness :
  calculate_total_earnings unqualified = Raise qualification_error.
Proof.
  apply (proj1 (total_earnings_exceptions unqualified)).
  eexists. split; [reflexivity|]. vm_compute. reflexivity.
Defined.

(* ===================================================================== *)
(** * The earnings of constructed participants *)
(* ===================================================================== *)

(** X5: a participant built by the constructor, with its participants
    all at 150 and 90, is paid by the number [N] of participants of its
    group: its percentage is that of [150 * N], its personal bonus that
    percentage of 504.0 and at most 126.0, its retail profit 30.24, and
    its CSI bonus is never cut by the cap: it is at most
    21.168000000000003 and 0.0 from seven participants on. *)
Theorem constructor_volumes_earnings self :
  constructor_volumes self = true ->
  let p := percentage_of_int (150 * participants self) in
  calculate_bonus_percentage self = Ok (PyFloat p) /\
  py_le (PyFloat (dec 3 100)) (PyFloat p) = true /\
  calculate_personal_bonus self = Ok (PyFloat (fmul p (dec 5040 10))) /\
  py_le (PyFloat (fmul p (dec 5040 10))) (PyFloat (dec 1260 10)) = true /\
  calculate_retail_profit self = Ok (PyFloat (dec 3024 100)) /\
  calculate_csi_bonus self = uncapped_csi_bonus self /\
  exists c,
    calculate_csi_bonus self = Ok (PyFloat c) /\
    py_le (PyFloat fzero) (PyFloat c) = true /\
    py_le (PyFloat c) (PyFloat (fmul (fmul (dec 7 100) (float_of_Z 90)) (dec 336 100))) = true /\
    (7 <= participants self -> c = fzero).
Proof.
  intros H p.
  pose proof (constructor_volumes_group_pv self H) as G.
  destruct (constructor_volumes_fields self H) as [Epv Evcs].
  destruct (constructor_volumes_gate self H) as (_ & _ & Gate).
  pose proof (participants_pos self) as N.
  assert (P : calculate_bonus_percentage self = Ok (PyFloat p)).
  { unfold calculate_bonus_percentage. rewrite G. cbn [bind].
    apply bonus_percentage_of_int. }
  assert (B : calculate_personal_bonus self = Ok (PyFloat (fmul p (dec 5040 10)))).
  { rewrite (proj2 (calculate_personal_bonus_gate self) Gate).
    unfold percentage_times_personal_bv, calculate_personal_bv.
    rewrite P, Epv. cbn [bind]. reflexivity. }
  assert (R : calculate_retail_profit self = Ok (PyFloat (dec 3024 100))).
  { unfold calculate_retail_profit. rewrite Evcs. vm_compute. reflexivity. }
  assert (U : uncapped_csi_bonus self =
              Ok (PyFloat (fmul (fmul (match csi_percentage_of p with
                                       | PyFloat c => c | PyInt _ => fzero end)
                                      (float_of_Z 90)) (dec 336 100)))).
  { unfold uncapped_csi_bonus, calculate_csi_percentage. rewrite P, Evcs.
    cbn [bind]. unfold py_sub, binop. rewrite !to_float_float. cbn [bind].
    unfold csi_percentage_of.
    destruct (py_max_float fzero (fsub (dec 1 10) p)) as [c ->].
    reflexivity. }
  split; [exact P|]. split; [|split; [exact B|split; [|split; [exact R|]]]].
  - unfold p, percentage_of_int.
    destruct (Z.ltb_spec (150 * participants self) 100); [lia|].
    repeat (destruct (_ <? _); [reflexivity|]). reflexivity.
  - unfold p, percentage_of_int.
    repeat (destruct (_ <? _); [vm_compute; reflexivity|]).
    vm_compute. reflexivity.
  - unfold calculate_csi_bonus. rewrite U. cbn [bind].
    unfold p, percentage_of_int in *.
    destruct (Z.ltb_spec (150 * participants self) 100); [lia|].
    destruct (Z.ltb_spec (150 * participants self) 300);
      [split; [vm_compute; reflexivity|]; eexists; split; [vm_compute; reflexivity|];
       split; [reflexivity|]; split; [reflexivity|]; intros; lia|].
    destruct (Z.ltb_spec (150 * participants self) 600);
      [split; [vm_compute; reflexivity|]; eexists; split; [vm_compute; reflexivity|];
       split; [reflexivity|]; split; [reflexivity|]; intros; lia|].
    destruct (Z.ltb_spec (150 * participants self) 1000);
      [split; [vm_compute; reflexivity|]; eexists; split; [vm_compute; reflexivity|];
       split; [reflexivity|]; split; [reflexivity|]; intros; lia|].
    repeat (destruct (_ <? _);
      [split; [vm_compute; reflexivity|]; exists fzero;
       split; [vm_compute; reflexivity|];
       split; [reflexivity|]; split; [reflexivity|]; reflexivity|]).
    split; [vm_compute; reflexivity|]. exists fzero.
    split; [vm_compute; reflexivity|].
    split; [reflexivity|]. split; reflexivity.
Qed.

Lemma constructor_volumes_earnings_witness :
  constructor_volumes upline_of_forty = true /\
  calculate_personal_bonus upline_of_forty =
    Ok (PyFloat (fmul (dec 23 100) (dec 5040 10))) /\
  calculate_csi_bonus upline_of_forty = Ok (PyFloat fzero).
Proof.
  assert (H : constructor_volumes upline_of_forty = true) by reflexivity.
  destruct (constructor_volumes_earnings upline_of_forty H)
    as (_ & _ & B & _ & _ & _ & c & Ec & _ & _ & Z).
  split; [exact H|]. split.
  - rewrite B. reflexivity.
  - rewrite Ec, Z; [reflexivity|]. vm_compute. discriminate.
Defined.

(* ===================================================================== *)
(** * The percentages as text *)
(* ===================================================================== *)

Lemma label_table : forallb label_exact percentages = true.
Proof. vm_compute. reflexivity. Qed.

Lemma fields_table :
  forallb (fun pu => forallb (fields_agree pu) percentages) percentages = true.
Proof. vm_compute. reflexivity. Qed.

Lemma percent_label_spec p :
  In p percentages ->
  exists n,
    percent_label (PyFloat p) = Ok n /\ 0 <= n <= 25 /\
    py_eq (PyFloat (dec n 100)) (PyFloat p) = true /\
    percent_field (PyFloat p) = Ok (str_of_int n).
Proof.
  intros Hp. pose proof label_table as T.
  rewrite forallb_forall in T. specialize (T p Hp). unfold label_exact in T.
  destruct (percent_label (PyFloat p)) as [n|]; [|discriminate T].
  destruct (percent_field (PyFloat p)) as [s|]; [|discriminate T].
  apply andb_true_iff in T as [T T4]. apply andb_true_iff in T as [T T3].
  apply andb_true_iff in T as [T1 T2].
  apply Z.leb_le in T1, T2. apply String.eqb_eq in T4. subst s.
  exists n. repeat split; trivial.
Qed.

(** X6: the percentage shown in a line of the tree, [int(p * 100)], is
    for every percentage the lookup returns a number of hundredths from
    0 to 25 that denotes the very percentage: the cut at the point
    loses nothing; and the field [{p * 100:.0f}] of [__repr__] shows the
    same number. *)
Theorem percentage_label_exact self p :
  calculate_bonus_percentage self = Ok p ->
  exists n,
    percent_label p = Ok n /\ 0 <= n <= 25 /\
    py_eq (PyFloat (dec n 100)) p = true /\
    percent_field p = Ok (str_of_int n).
Proof.
  intros E. destruct (calculate_bonus_percentage_values _ _ E) as (f & -> & Hf).
  now apply percent_label_spec.
Qed.

Lemma percentage_label_exact_witness :
  exists n,
    percent_label (PyFloat (dec 23 100)) = Ok n /\ 0 <= n <= 25 /\
    py_eq (PyFloat (dec n 100)) (PyFloat (dec 23 100)) = true /\
    percent_field (PyFloat (dec 23 100)) = Ok (str_of_int n).
Proof.
  apply (percentage_label_exact upline_of_forty). vm_compute. reflexivity.
Defined.

(** X7: the line of the multiplier in [__repr__] is consistent: the
    multiplier shown is the difference of the two percentages shown, and
    0 when the second is the larger. *)
Theorem repr_multiplier_fields self pu pc :
  calculate_bonus_percentage (ibo1 self) = Ok pu ->
  calculate_bonus_percentage (ibo2 self) = Ok pc ->
  exists a b,
    percent_label pu = Ok a /\ percent_label pc = Ok b /\
    multiplier_fields self =
      Ok (str_of_int (Z.max 0 (a - b)) ++ "% (" ++ str_of_int a ++ "% - " ++
          str_of_int b ++ "%)" ++ newline)%string.
Proof.
  intros Eu Ec.
  destruct (calculate_bonus_percentage_values _ _ Eu) as (fu & -> & Hu).
  destruct (calculate_bonus_percentage_values _ _ Ec) as (fc & -> & Hc).
  destruct (percent_label_spec fu Hu) as (a & La & _ & _ & Fa).
  destruct (percent_label_spec fc Hc) as (b & Lb & _ & _ & Fb).
  exists a, b. split; [exact La|]. split; [exact Lb|].
  pose proof fields_table as T.
  rewrite forallb_forall in T. specialize (T fu Hu).
  rewrite forallb_forall in T. specialize (T fc Hc).
  unfold fields_agree in T. rewrite La, Lb in T.
  destruct (percent_field (multiplier_of fu fc)) as [s|] eqn:Es; [|discriminate T].
  apply String.eqb_eq in T. subst s.
  unfold multiplier_fields.
  destruct self as [U C]. cbn [ibo1 ibo2] in *.
  rewrite (calculate_multiplier_value U C fu fc Eu Ec). cbn [bind].
  rewrite Es. cbn [bind]. rewrite Eu. cbn [bind]. rewrite Fa. cbn [bind].
  rewrite Ec. cbn [bind]. rewrite Fb. reflexivity.
Qed.

Lemma repr_multiplier_fields_witness :
  multiplier_fields (mkDifferentialBonus upline_of_forty new_ibo) =
    Ok ("20% (23% - 3%)" ++ newline)%string.
Proof.
  destruct (repr_multiplier_fields (mkDifferentialBonus upline_of_forty new_ibo)
              (PyFloat (dec 23 100)) (PyFloat (dec 3 100)))
    as (a & b & La & Lb & E); [vm_compute; reflexivity..|].
  vm_compute in La, Lb. injection La as <-. injection Lb as <-.
  rewrite E. reflexivity.
Defined.

(* ===================================================================== *)
(** * The table of earnings *)
(* ===================================================================== *)









(* ===================================================================== *)
(** * The table of levels *)
(* ===================================================================== *)

(** X13: the table [IBO_LEVELS] has 23 names, no name twice.  The level
    the constructor gives, [IBO_LEVELS['IBO']], is 0; the first 22 names
    are numbered from 0 to 21 in their order, and the last name, Founders
    Crown Ambassador, has the 8 of Founders Sapphire: the numbers do not
    tell the names apart. *)
Theorem levels_table :
  getitem IBO_LEVELS "IBO" = Some IBO_LEVEL_IBO /\
  length IBO_LEVELS = 23%nat /\
  NoDup (map fst IBO_LEVELS) /\
  map snd (firstn 22 IBO_LEVELS) = map Z.of_nat (seq 0 22) /\
  getitem IBO_LEVELS "Founders Crown Ambassador" = Some 8 /\
  getitem IBO_LEVELS "Founders Sapphire" = Some 8 /\
  getitem IBO_LEVELS "Distributor" = None.
Proof.
  split; [reflexivity|]. split; [reflexivity|]. split; [|repeat split].
  unfold IBO_LEVELS. cbn [map fst].
  repeat (constructor;
          [cbn [In]; intros H;
           repeat (destruct H as [H|H]; [discriminate H|]); exact H|]).
  constructor.
Qed.

(* ===================================================================== *)
(** * Checks of the formatting against the interpreter *)
(* ===================================================================== *)

(** [format(x, '.2f')] and [format(x, '.0f')] round the exact value of
    the float, a tie to the even digit: ['0.12'] for 0.125, ['0.38'] for
    0.375, ['2.67'] for 2.675, ['-0.00'] for -0.001, ['0'] for 0.5 and
    ['2'] for 1.5; [int] cuts at the point: [int(0.29 * 100)] is 28. *)
Lemma format_examples :
  format_f 2 (PyFloat (dec 125 1000)) = Ok "0.12"%string /\
  format_f 2 (PyFloat (dec 375 1000)) = Ok "0.38"%string /\
  format_f 2 (PyFloat (dec 2675 1000)) = Ok "2.67"%string /\
  format_f 2 (PyFloat (dec (-1) 1000)) = Ok "-0.00"%string /\
  format_f 0 (PyFloat (dec 5 10)) = Ok "0"%string /\
  format_f 0 (PyFloat (dec 15 10)) = Ok "2"%string /\
  format_f 2 (PyInt 150) = Ok "150.00"%string /\
  format_f 2 (PyFloat finf) = Ok "inf"%string /\
  percent_label (PyFloat (dec 29 100)) = Ok 28 /\
  str_of_int (-40) = "-40"%string /\
  ljust "ab" 4 = "ab  "%string /\ rjust "ab" 4 = "  ab"%string /\
  ljust "abcde" 4 = "abcde"%string.
Proof. repeat split; vm_compute; reflexivity. Qed.

(* ===================================================================== *)
(** * The tree as text *)
(* ===================================================================== *)

Lemma line_feeds_app s t : line_feeds (s ++ t) = line_feeds s + line_feeds t.
Proof. induction s as [|c s IH]; cbn [append line_feeds]; lia. Qed.

Lemma line_feeds_copies n s : line_feeds s = 0 -> line_feeds (copies n s) = 0.
Proof.
  intros H. induction n as [|n IH]; [reflexivity|].
  cbn [copies]. rewrite line_feeds_app. lia.
Qed.

Lemma digit_char_feed n : Ascii.eqb (digit_char (n mod 10)) "010" = false.
Proof.
  pose proof (Z.mod_pos_bound n 10 ltac:(lia)) as B.
  assert (C : n mod 10 = 0 \/ n mod 10 = 1 \/ n mod 10 = 2 \/ n mod 10 = 3 \/
              n mod 10 = 4 \/ n mod 10 = 5 \/ n mod 10 = 6 \/ n mod 10 = 7 \/
              n mod 10 = 8 \/ n mod 10 = 9) by lia.
  repeat (destruct C as [->|C]; [reflexivity|]). now rewrite C.
Qed.

Lemma line_feeds_digits_before fuel n acc :
  line_feeds (digits_before fuel n acc) = line_feeds acc.
Proof.
  revert n acc. induction fuel as [|fuel IH]; intros n acc; [reflexivity|].
  cbn [digits_before]. destruct (n <? 10); [|rewrite IH];
    cbn [line_feeds]; now rewrite digit_char_feed.
Qed.

Lemma line_feeds_fraction_digits p n acc :
  line_feeds (fraction_digits p n acc) = line_feeds acc.
Proof.
  revert n acc. induction p as [|p IH]; intros n acc; [reflexivity|].
  cbn [fraction_digits]. rewrite IH. cbn [line_feeds].
  now rewrite digit_char_feed.
Qed.

Lemma line_feeds_str_of_nat n : line_feeds (str_of_nat n) = 0.
Proof. unfold str_of_nat. now rewrite line_feeds_digits_before. Qed.

Lemma line_feeds_str_of_int n : line_feeds (str_of_int n) = 0.
Proof.
  unfold str_of_int. destruct (n <? 0); [|apply line_feeds_str_of_nat].
  rewrite line_feeds_app, line_feeds_str_of_nat. reflexivity.
Qed.

Lemma line_feeds_fixed_point p n : line_feeds (fixed_point p n) = 0.
Proof.
  unfold fixed_point. rewrite line_feeds_app, line_feeds_str_of_nat.
  destruct p as [|p]; [reflexivity|].
  cbn [line_feeds Ascii.eqb Bool.eqb]. now rewrite line_feeds_fraction_digits.
Qed.

Lemma line_feeds_format_float p f : line_feeds (format_float p f) = 0.
Proof.
  destruct f as [s|s| |s m e]; cbn [format_float].
  - rewrite line_feeds_app, line_feeds_fixed_point. now destruct s.
  - now destruct s.
  - reflexivity.
  - rewrite line_feeds_app, line_feeds_fixed_point. now destruct s.
Qed.

Lemma line_feeds_format_f p x s : format_f p x = Ok s -> line_feeds s = 0.
Proof.
  unfold format_f. destruct (to_float x); cbn [bind]; [|discriminate].
  intros [= <-]. apply line_feeds_format_float.
Qed.

(** The first line of the text of a participant is one line. *)
Lemma line_feeds_tree_line self depth last s :
  tree_line self depth last = Ok s -> line_feeds s = 0.
Proof.
  unfold tree_line. cbv zeta.
  destruct (calculate_bonus_percentage self) as [p|]; cbn [bind]; [|discriminate].
  destruct (py_mul p (PyInt 100)) as [p100|]; cbn [bind]; [|discriminate].
  destruct (py_int p100) as [label|]; cbn [bind]; [|discriminate].
  destruct (calculate_group_pv self) as [gpv|]; cbn [bind]; [|discriminate].
  destruct (format_f 2 gpv) as [s1|] eqn:E1; cbn [bind]; [|discriminate].
  destruct (calculate_group_bv self) as [gbv|]; cbn [bind]; [|discriminate].
  destruct (format_f 2 gbv) as [s2|] eqn:E2; cbn [bind]; [|discriminate].
  destruct (format_f 2 (_personal_pv self)) as [s3|] eqn:E3; cbn [bind];
    [|discriminate].
  destruct (calculate_personal_bv self) as [pbv|]; cbn [bind]; [|discriminate].
  destruct (format_f 2 pbv) as [s4|] eqn:E4; cbn [bind]; [|discriminate].
  intros E.
  apply (f_equal (fun r => match r with Ok t => line_feeds t | Raise _ => 0 end))
    in E.
  cbv beta iota in E. rewrite <- E.
  apply line_feeds_format_f in E1, E2, E3, E4.
  rewrite !line_feeds_app, E1, E2, E3, E4, line_feeds_str_of_int.
  unfold str_mul. rewrite line_feeds_copies by reflexivity.
  now destruct last.
Qed.

Lemma tree_loop_lines structure count depth items :
  Forall (fun c => forall d l s, structure c d l = Ok s ->
                                 lines s = participants c) items ->
  forall index info s,
    tree_loop structure count depth items index info = Ok s ->
    line_feeds s =
      line_feeds info + fold_right Z.add 0 (map participants items).
Proof.
  induction 1 as [|c items Hc _ IH]; intros index info s.
  - cbn [tree_loop map fold_right]. intros [= <-]. lia.
  - cbn [tree_loop map fold_right].
    destruct (structure c (depth + 1) _) as [t|] eqn:Et; cbn [bind];
      [|discriminate].
    intros E. apply IH in E. apply Hc in Et. unfold lines in Et.
    rewrite !line_feeds_app in E. change (line_feeds newline) with 1 in E. lia.
Qed.

Lemma get_tree_structure_lines self :
  forall depth last s,
    get_tree_structure self depth last = Ok s -> lines s = participants self.
Proof.
  induction self as [m fl pv vcs l IH] using AmwayIBO_induction.
  intros depth last s. cbn [get_tree_structure participants].
  destruct (tree_line _ depth last) as [info|] eqn:El; cbn [bind];
    [|discriminate].
  intros E. apply (tree_loop_lines _ _ _ _ IH) in E.
  apply line_feeds_tree_line in El. unfold lines. lia.
Qed.

Lemma frontline_participants_le self c :
  In c (frontline self) -> participants c < participants self.
Proof.
  destruct self as [m fl pv vcs l]. cbn [frontline participants].
  induction fl as [|c' fl IH]; [intros []|].
  cbn [map fold_right]. intros [->|H].
  - assert (0 <= fold_right Z.add 0 (map participants fl)); [|lia].
    clear. induction fl as [|x fl IH]; cbn [map fold_right]; [lia|].
    pose proof (participants_pos x). lia.
  - specialize (IH H). pose proof (participants_pos c'). lia.
Qed.

Lemma constructor_volumes_frontline self c :
  constructor_volumes self = true -> In c (frontline self) ->
  constructor_volumes c = true.
Proof.
  destruct self as [m fl pv vcs l]. cbn [constructor_volumes frontline].
  intros H Hin. apply andb_true_iff in H as [_ H].
  rewrite forallb_forall in H. now apply H.
Qed.

(** With the volumes of the constructor the first line is computed. *)
Lemma constructor_volumes_tree_line self depth last :
  constructor_volumes self = true -> 150 * participants self < 2 ^ 1023 ->
  exists s, tree_line self depth last = Ok s.
Proof.
  intros H B. pose proof (participants_pos self) as N.
  pose proof (constructor_volumes_group_pv self H) as G.
  destruct (constructor_volumes_fields self H) as [Epv _].
  assert (P : calculate_bonus_percentage self =
              Ok (PyFloat (percentage_of_int (150 * participants self)))).
  { unfold calculate_bonus_percentage. rewrite G. cbn [bind].
    apply bonus_percentage_of_int. }
  set (q := percentage_of_int (150 * participants self)) in P. clearbody q.
  destruct (calculate_bonus_percentage_values _ _ P) as (f & Ef & Hf).
  injection Ef as <-.
  destruct (percent_label_spec q Hf) as (n & Ln & _).
  destruct (to_float_total (150 * participants self) ltac:(lia)) as [x Ex].
  unfold tree_line. cbv zeta. rewrite P. cbn [bind]. unfold percent_label in Ln.
  destruct (py_mul (PyFloat q) (PyInt 100)) as [p100|]; cbn [bind] in Ln |- *;
    [|discriminate Ln].
  rewrite Ln. cbn [bind]. rewrite G. cbn [bind].
  unfold calculate_group_bv, calculate_personal_bv. rewrite G, Epv.
  unfold format_f at 1. rewrite Ex. cbn [bind].
  unfold py_mul at 1, binop, BV_TO_PV_RATIO. rewrite Ex. cbn [bind to_float].
  eexists. reflexivity.
Qed.

Lemma constructor_volumes_tree_loop structure count depth items :
  Forall (fun c => forall d l, exists s, structure c d l = Ok s) items ->
  forall index info, exists s,
    tree_loop structure count depth items index info = Ok s.
Proof.
  induction 1 as [|c items Hc _ IH]; intros index info.
  - eexists. reflexivity.
  - cbn [tree_loop]. destruct (Hc (depth + 1) (index =? count - 1)) as [t ->].
    cbn [bind]. apply IH.
Qed.

Lemma constructor_volumes_tree_structure self :
  constructor_volumes self = true -> 150 * participants self < 2 ^ 1023 ->
  forall depth last, exists s, get_tree_structure self depth last = Ok s.
Proof.
  induction self as [m fl pv vcs l IH] using AmwayIBO_induction.
  intros H B depth last.
  destruct (constructor_volumes_tree_line _ depth last H B) as [info El].
  cbn [get_tree_structure]. rewrite El. cbn [bind].
  apply constructor_volumes_tree_loop.
  rewrite Forall_forall in IH |- *. intros c Hc d l'.
  apply IH; [exact Hc| |].
  - apply (constructor_volumes_frontline _ c H Hc).
  - pose proof (frontline_participants_le (mkIBO m fl pv vcs l) c Hc). lia.
Qed.

(** X9: the text of [get_tree_structure] has one line for each
    participant at and below the one it is asked of, whatever the depth
    and the branch it is drawn with; and for a participant built by the
    constructor, with a group PV below [2^1023], the text is computed. *)
Theorem tree_structure_one_line_each self depth last_frontline :
  (forall s,
     get_tree_structure self depth last_frontline = Ok s ->
     lines s = participants self) /\
  (constructor_volumes self = true -> 150 * participants self < 2 ^ 1023 ->
   exists s,
     get_tree_structure self depth last_frontline = Ok s /\
     lines s = participants self).
Proof.
  split.
  - apply get_tree_structure_lines.
  - intros H B.
    destruct (constructor_volumes_tree_structure self H B depth last_frontline)
      as [s E].
    exists s. split; [exact E|]. now apply get_tree_structure_lines in E.
Qed.

Lemma tree_structure_one_line_each_witness :
  exists s,
    get_tree_structure upline_of_forty 0 false = Ok s /\ lines s = 41.
Proof.
  destruct (proj2 (tree_structure_one_line_each upline_of_forty 0 false))
    as (s & E & L); [reflexivity|vm_compute; reflexivity|].
  exists s. split; [exact E|]. rewrite L. reflexivity.
Defined.

(* ===================================================================== *)
(** * The construction interface: sponsors and frontlines *)
(* ===================================================================== *)

Section Links.

Lemma nth_error_snoc {A : Type} (l : list A) (a : A) i :
  nth_error (l ++ [a]) i =
  if (i <? length l)%nat then nth_error l i
  else if (i =? length l)%nat then Some a else None.
Proof.
  destruct (Nat.ltb_spec i (length l)) as [H|H].
  - now apply nth_error_app1.
  - rewrite nth_error_app2 by exact H.
    destruct (Nat.eqb_spec i (length l)) as [->|Hne].
    + now rewrite Nat.sub_diag.
    + destruct (i - length l)%nat as [|[|k]] eqn:E; try lia; reflexivity.
Qed.

Lemma init_ref sp month st : snd (__init__ sp month st) = length st.
Proof. reflexivity. Qed.

Lemma init_length sp month st :
  length (fst (__init__ sp month st)) = S (length st).
Proof.
  unfold __init__. cbn [fst]. destruct sp as [p|]; unfold add_frontline;
    rewrite ?update_length, length_app; simpl; lia.
Qed.

Lemma init_sponsor_of sp month st i :
  sponsor_of (fst (__init__ sp month st)) i =
  if (i =? length st)%nat then sp else sponsor_of st i.
Proof.
  unfold __init__, sponsor_of. cbn [fst].
  assert (K : match nth_error
                      (st ++ [mkObject sp month [] (PyInt 150) (PyInt 90) IBO_LEVEL_IBO]) i
              with Some o => sponsor o | None => None end =
              if (i =? length st)%nat then sp
              else match nth_error st i with Some o => sponsor o | None => None end).
  { rewrite nth_error_snoc.
    destruct (Nat.ltb_spec i (length st)) as [H|H];
      destruct (Nat.eqb_spec i (length st)) as [E|E]; try lia; try reflexivity.
    now rewrite (proj2 (nth_error_None st i)) by lia. }
  destruct sp as [p|]; [|exact K].
  unfold add_frontline. rewrite nth_error_update.
  destruct (Nat.eqb_spec i p) as [->|Hne]; [|exact K].
  rewrite <- K.
  destruct (nth_error (st ++ _) p); reflexivity.
Qed.

Lemma init_frontline_of sp month st s :
  (forall p, sp = Some p -> (p < length st)%nat) ->
  frontline_of (fst (__init__ sp month st)) s =
  match sp with
  | Some p => if (s =? p)%nat then frontline_of st s ++ [length st]
              else frontline_of st s
  | None => frontline_of st s
  end.
Proof.
  intros Hsp. unfold __init__, frontline_of. cbn [fst].
  assert (K : nth_error
                (st ++ [mkObject sp month [] (PyInt 150) (PyInt 90) IBO_LEVEL_IBO]) s =
              if (s <? length st)%nat then nth_error st s
              else if (s =? length st)%nat
                   then Some (mkObject sp month [] (PyInt 150) (PyInt 90) IBO_LEVEL_IBO)
                   else None) by apply nth_error_snoc.
  assert (N : (length st <= s)%nat -> nth_error st s = None)
    by (intros H; now apply nth_error_None).
  destruct sp as [p|].
  - specialize (Hsp p eq_refl). unfold add_frontline. rewrite nth_error_update, K.
    destruct (Nat.eqb_spec s p) as [->|Hne].
    + destruct (Nat.ltb_spec p (length st)); [|lia].
      destruct (nth_error st p) eqn:F; [reflexivity|].
      apply nth_error_None in F. lia.
    + destruct (Nat.ltb_spec s (length st)) as [H|H]; [reflexivity|].
      rewrite (N H). now destruct (s =? length st)%nat.
  - rewrite K. destruct (Nat.ltb_spec s (length st)) as [H|H]; [reflexivity|].
    rewrite (N H). now destruct (s =? length st)%nat.
Qed.

Lemma sponsor_of_outside st i : (length st <= i)%nat -> sponsor_of st i = None.
Proof.
  intros H. unfold sponsor_of. apply nth_error_None in H. now rewrite H.
Qed.

Lemma linked_init sp month st :
  linked st -> (forall p, sp = Some p -> (p < length st)%nat) ->
  linked (fst (__init__ sp month st)).
Proof.
  intros L Hsp s. destruct (L s) as (D & M & B).
  assert (Fresh : ~ In (length st) (frontline_of st s)).
  { intros H. apply M in H. rewrite sponsor_of_outside in H by lia.
    discriminate. }
  rewrite (init_frontline_of sp month st s Hsp), init_length.
  split; [|split].
  - destruct sp as [p|]; [|exact D].
    destruct (s =? p)%nat; [|exact D].
    apply NoDup_app; try assumption; [repeat constructor; intros []|].
    intros a Ha [<-|[]]. now apply Fresh.
  - intros i. rewrite init_sponsor_of.
    destruct (Nat.eqb_spec i (length st)) as [->|Hi].
    + destruct sp as [p|].
      * destruct (Nat.eqb_spec s p) as [->|Hne].
        -- rewrite in_app_iff. simpl. tauto.
        -- split; [intros H; now apply Fresh in H|].
           intros [= <-]. now elim Hne.
      * split; [intros H; now apply Fresh in H|discriminate].
    + rewrite <- M. destruct sp as [p|]; [|tauto].
      destruct (s =? p)%nat; [|tauto].
      rewrite in_app_iff. simpl. intuition lia.
  - intros p. rewrite init_sponsor_of.
    destruct (Nat.eqb_spec s (length st)) as [->|Hs].
    + intros E. specialize (Hsp p E). lia.
    + intros E. specialize (B p E). lia.
Qed.

Lemma constructed_linked st : constructed st -> linked st.
Proof.
  induction 1 as [|st sp month _ IH Hsp].
  - intros s. unfold frontline_of, sponsor_of.
    destruct s; simpl; (split; [constructor|]); (split; [|discriminate]);
      intros i; (split; [intros []|]); destruct i; discriminate.
  - now apply linked_init.
Qed.

End Links.

(** X10: in every store the constructor builds, the two directions of
    the references agree.  The frontline of an object lists the objects
    whose sponsor it is, each of them once and each created after it; so
    an object is in the frontline of its sponsor and of no other object,
    and no object is below itself. *)
Theorem frontline_lists_the_sponsored st s os :
  constructed st -> nth_error st s = Some os ->
  NoDup (o_frontline os) /\
  (forall i, In i (o_frontline os) <->
             exists o, nth_error st i = Some o /\ sponsor o = Some s) /\
  Forall (fun i => (s < i < length st)%nat) (o_frontline os) /\
  (forall p, sponsor os = Some p ->
             (p < s)%nat /\
             exists op, nth_error st p = Some op /\ In s (o_frontline op)).
Proof.
  intros C E. pose proof (constructed_linked st C) as L.
  destruct (L s) as (D & M & B).
  unfold frontline_of in D, M. unfold sponsor_of in B. rewrite E in D, M, B.
  assert (S : forall i, sponsor_of st i = Some s <->
                        exists o, nth_error st i = Some o /\ sponsor o = Some s).
  { intros i. unfold sponsor_of. destruct (nth_error st i) as [o|].
    - split; [eauto|]. now intros (o' & [= <-] & H).
    - split; [discriminate|]. now intros (o' & H & _). }
  split; [exact D|]. split; [|split].
  - intros i. now rewrite M, S.
  - apply Forall_forall. intros i Hi. apply M in Hi.
    destruct (L i) as (_ & _ & Bi). specialize (Bi s Hi). lia.
  - intros p Hp. specialize (B p Hp). split; [lia|].
    destruct (nth_error st p) as [op|] eqn:Ep.
    + exists op. split; [reflexivity|].
      destruct (L p) as (_ & Mp & _). unfold frontline_of in Mp.
      rewrite Ep in Mp. apply Mp. unfold sponsor_of. now rewrite E.
    + apply nth_error_None in Ep. lia.
Qed.

Lemma frontline_lists_the_sponsored_witness :
  exists os,
    nth_error small_store 0 = Some os /\ o_frontline os = [1; 2]%nat /\
    NoDup (o_frontline os) /\
    forall i, In i (o_frontline os) <->
              exists o, nth_error small_store i = Some o /\ sponsor o = Some 0%nat.
Proof.
  assert (C : constructed small_store).
  { unfold small_store.
    repeat (apply constructed_new;
            [|intros s E; try discriminate E; injection E as <-; simpl; lia]).
    apply constructed_empty. }
  eexists. split; [reflexivity|]. split; [reflexivity|].
  destruct (frontline_lists_the_sponsored small_store 0%nat _ C eq_refl)
    as (D & M & _).
  split; [exact D|exact M].
Defined.

(* ===================================================================== *)
(** * A random downline *)
(* ===================================================================== *)

Lemma sequence_map_Forall2 {A : Type} (f : nat -> option A)
    (P : nat -> A -> Prop) refs :
  Forall (fun j => exists a, f j = Some a /\ P j a) refs ->
  exists l, sequence (map f refs) = Some l /\ Forall2 P refs l.
Proof.
  induction 1 as [|j refs (a & Ea & Ha) _ (l & El & Hl)]; simpl.
  - exists []. auto.
  - rewrite Ea, El. exists (a :: l). auto.
Qed.

(** The participants of a store that is well formed are counted by any
    function that counts one for an object and its own value for each
    object of the frontline. *)
Lemma tree_of_participants st (size : nat -> Z) :
  well_formed st ->
  (forall i, (i < length st)%nat ->
     size i = 1 + fold_right Z.add 0 (map size (frontline_of st i))) ->
  forall fuel ref,
    (ref < length st)%nat -> (length st - ref <= fuel)%nat ->
    exists self, tree_of st fuel ref = Some self /\
                 constructor_volumes self = true /\
                 participants self = size ref.
Proof.
  intros Hwf Hsize. induction fuel as [|fuel IH]; intros ref Hlt Hfuel; [lia|].
  simpl. pose proof (Hsize ref Hlt) as Href. unfold frontline_of in Href.
  destruct (nth_error st ref) as [o|] eqn:Eo.
  - destruct (Hwf ref o Eo) as (Hp & Hv & Hf).
    destruct (sequence_map_Forall2 (tree_of st fuel)
                (fun j t => constructor_volumes t = true /\
                            participants t = size j)
                (o_frontline o)) as (fl & Efl & Hfl).
    { eapply Forall_impl; [|exact Hf]. simpl. intros j Hj. apply IH; lia. }
    rewrite Efl. eexists. split; [reflexivity|].
    cbn [constructor_volumes participants]. rewrite Hp, Hv, Href.
    clear -Hfl. induction Hfl as [|j t refs fl [Hc Hn] _ [IH1 IH2]].
    + split; reflexivity.
    + cbn [forallb map fold_right]. rewrite Hc, Hn.
      apply andb_true_iff in IH1 as [_ IH1]. cbn [andb] in *.
      split; [exact IH1|]. lia.
  - apply nth_error_None in Eo. lia.
Qed.

Lemma sponsored_by_same st st' refs :
  (forall i, In i refs -> frontline_of st' i = frontline_of st i) ->
  sponsored_by st' refs = sponsored_by st refs.
Proof.
  unfold sponsored_by. induction refs as [|r refs IH]; intros H; [reflexivity|].
  cbn [map fold_right]. rewrite H by now left.
  rewrite IH; [reflexivity|]. intros i Hi. apply H. now right.
Qed.

Lemma sponsored_by_none st refs :
  (forall i, In i refs -> frontline_of st i = []) ->
  sponsored_by st refs = 0%nat.
Proof.
  unfold sponsored_by. induction refs as [|r refs IH]; intros H; [reflexivity|].
  cbn [map fold_right]. rewrite H by now left.
  rewrite IH; [reflexivity|]. intros i Hi. apply H. now right.
Qed.

Lemma sponsored_by_one_more st st' refs s x :
  NoDup refs -> In s refs ->
  frontline_of st' s = frontline_of st s ++ [x] ->
  (forall i, i <> s -> frontline_of st' i = frontline_of st i) ->
  sponsored_by st' refs = S (sponsored_by st refs).
Proof.
  intros D. induction D as [|r refs Hr D IH]; intros Hin Es Hother; [destruct Hin|].
  unfold sponsored_by in *. cbn [map fold_right].
  destruct (Nat.eq_dec r s) as [->|Hne].
  - rewrite Es, length_app. cbn [length].
    fold (sponsored_by st' refs). fold (sponsored_by st refs).
    rewrite (sponsored_by_same st st' refs); [lia|].
    intros i Hi. apply Hother. intros ->. contradiction.
  - rewrite (Hother r Hne). destruct Hin as [->|Hin]; [contradiction|].
    rewrite (IH Hin Es Hother). lia.
Qed.

Lemma star_root month : star 0 (fst (__init__ None month [])).
Proof.
  split; [reflexivity|]. split; [reflexivity|]. split; [reflexivity|].
  intros i Hi. split; [|lia]. destruct i as [|[|i]]; [lia|reflexivity..].
Qed.

Lemma star_init n month st :
  star n st -> star (S n) (fst (__init__ (Some 0%nat) month st)).
Proof.
  intros (L & S0 & F0 & R).
  assert (Hsp : forall p, Some 0%nat = Some p -> (p < length st)%nat)
    by (intros p [= <-]; lia).
  split; [now rewrite init_length, L|]. split; [|split].
  - rewrite init_sponsor_of, L. exact S0.
  - rewrite (init_frontline_of _ month st 0 Hsp). cbn [Nat.eqb].
    rewrite F0, L. symmetry. apply seq_S.
  - intros i Hi. rewrite (init_frontline_of _ month st i Hsp), init_sponsor_of.
    destruct (R i Hi) as [Fi Si].
    destruct (Nat.eqb_spec i 0); [lia|]. split; [exact Fi|].
    intros Hle. rewrite L. destruct (Nat.eqb_spec i (S n)); [reflexivity|].
    apply Si. lia.
Qed.

Lemma star_two_levels n st : star n st -> two_levels n 0 st.
Proof.
  intros (L & S0 & F0 & R).
  split; [rewrite L; lia|]. split; [exact S0|]. split; [exact F0|].
  split; [|split; [|split]].
  - intros i Hi. destruct (R i ltac:(lia)) as [Fi Si].
    split; [apply Si; lia|]. rewrite Fi. constructor.
  - intros i Hi. apply R. lia.
  - intros i Hi. lia.
  - apply sponsored_by_none. intros i Hi. apply in_seq in Hi. apply R. lia.
Qed.

Lemma two_levels_init n k month st s :
  two_levels n k st -> (1 <= s <= n)%nat ->
  two_levels n (S k) (fst (__init__ (Some s) month st)) /\
  frontline_of (fst (__init__ (Some s) month st)) (length st) = [].
Proof.
  intros (L & S0 & F0 & Mid & Leaf & Sp & Sum) Hs.
  assert (Hsp : forall p, Some s = Some p -> (p < length st)%nat)
    by (intros p [= <-]; lia).
  assert (Fl : forall i, frontline_of (fst (__init__ (Some s) month st)) i =
                         if (i =? s)%nat then frontline_of st i ++ [length st]
                         else frontline_of st i)
    by (intros i; apply (init_frontline_of _ month st i Hsp)).
  split.
  - split; [rewrite init_length, L; lia|]. split; [|split; [|split; [|split; [|split]]]].
    + rewrite init_sponsor_of, L. exact S0.
    + rewrite Fl. destruct (Nat.eqb_spec 0 s); [lia|exact F0].
    + intros i Hi. rewrite Fl, init_sponsor_of.
      destruct (Mid i Hi) as [Si Fi].
      destruct (Nat.eqb_spec i (length st)); [lia|]. split; [exact Si|].
      destruct (Nat.eqb_spec i s); [|exact Fi].
      apply Forall_app. split; [exact Fi|]. constructor; [lia|constructor].
    + intros i Hi. rewrite Fl. destruct (Nat.eqb_spec i s); [lia|].
      now apply Leaf.
    + intros i Hi. rewrite init_length in Hi. rewrite init_sponsor_of.
      destruct (Nat.eqb_spec i (length st)); [eauto|]. apply Sp. lia.
    + rewrite <- Sum.
      apply (sponsored_by_one_more st _ (seq 1 n) s (length st)).
      * apply seq_NoDup.
      * apply in_seq. lia.
      * rewrite Fl. now rewrite Nat.eqb_refl.
      * intros i Hi. rewrite Fl. now destruct (Nat.eqb_spec i s).
  - rewrite Fl. destruct (Nat.eqb_spec (length st) s); [lia|].
    apply Leaf. lia.
Qed.

Lemma frontline_loop_star count : forall n month st acc,
  star n st -> constructed st ->
  exists st',
    frontline_loop count 0 month st acc = (st', acc ++ seq (S n) count) /\
    star (n + count) st' /\ constructed st'.
Proof.
  induction count as [|count IH]; intros n month st acc Hstar Hc.
  - exists st. cbn [frontline_loop seq]. rewrite app_nil_r, Nat.add_0_r. auto.
  - cbn [frontline_loop].
    pose proof (init_ref (Some 0%nat) month st) as Eref.
    pose proof (star_init n month st Hstar) as Hstar'.
    assert (Hc' : constructed (fst (__init__ (Some 0%nat) month st))).
    { apply constructed_new; [exact Hc|]. intros s [= <-].
      destruct Hstar as (L & _). lia. }
    destruct (__init__ (Some 0%nat) month st) as [st1 new_ibo].
    cbn [fst snd] in *. subst new_ibo.
    destruct (IH (S n) month st1 (acc ++ [length st]) Hstar' Hc')
      as (st' & E & Hs & Hc'').
    exists st'. rewrite E. destruct Hstar as (L & _). rewrite L.
    split; [|split; [|exact Hc'']].
    + f_equal. rewrite <- app_assoc. reflexivity.
    + now replace (n + S count)%nat with (S n + count)%nat by lia.
Qed.

Section RandomDownline.

Variable rng : Type.
Variable seed : Z -> rng.
Variable randbelow : rng -> nat -> nat * rng.

(** What [random.choice] relies on: a draw below [n] is below [n]. *)
Hypothesis randbelow_lt :
  forall g n, (0 < n)%nat -> (fst (randbelow g n) < n)%nat.

Lemma choice_member seq0 g :
  seq0 <> [] ->
  exists x g', choice rng randbelow seq0 g = Some (x, g') /\ In x seq0.
Proof.
  intros Hne. unfold choice.
  assert (Hlen : (0 < length seq0)%nat) by (destruct seq0; [congruence|simpl; lia]).
  pose proof (randbelow_lt g (length seq0) Hlen) as Hlt.
  destruct (randbelow g (length seq0)) as [i g']. cbn [fst] in Hlt.
  destruct (nth_error seq0 i) as [x|] eqn:E.
  - exists x, g'. split; [reflexivity|]. now apply nth_error_In in E.
  - apply nth_error_None in E. lia.
Qed.

Lemma downline_loop_two_levels count : forall n k month st g acc,
  two_levels n k st -> constructed st ->
  exists st' g',
    let added := if (n =? 0)%nat then 0%nat else count in
    downline_loop rng randbelow count month (seq 1 n) st g acc =
      Some (acc ++ seq (length st) added, st', g') /\
    two_levels n (k + added) st' /\ constructed st'.
Proof.
  induction count as [|count IH]; intros n k month st g acc Htl Hc.
  - exists st, g. cbn [downline_loop].
    destruct (n =? 0)%nat; cbn [seq]; rewrite app_nil_r, Nat.add_0_r; auto.
  - cbn [downline_loop]. destruct n as [|n].
    + exists st, g. cbn [seq Nat.eqb]. rewrite app_nil_r, Nat.add_0_r. auto.
    + remember (seq 1 (S n)) as cf eqn:Ecf.
      assert (Hne : cf <> []) by (subst cf; discriminate).
      destruct (choice_member cf g Hne) as (s & g1 & Ech & Hin).
      destruct cf as [|c cf']; [congruence|]. rewrite Ech.
      rewrite Ecf in Hin. apply in_seq in Hin.
      destruct (two_levels_init (S n) k month st s Htl ltac:(lia)) as [Htl' Hnew].
      assert (Hc' : constructed (fst (__init__ (Some s) month st))).
      { apply constructed_new; [exact Hc|]. intros p [= <-].
        destruct Htl as (L & _). lia. }
      pose proof (init_ref (Some s) month st) as Eref.
      pose proof (init_length (Some s) month st) as Elen.
      destruct (__init__ (Some s) month st) as [st1 new_ibo].
      cbn [fst snd] in *. subst new_ibo.
      unfold frontline_of in Hnew.
      destruct (nth_error st1 (length st)) as [o|] eqn:Eo;
        [|apply nth_error_None in Eo; lia].
      rewrite Hnew, app_nil_r, Ecf.
      destruct (IH (S n) (S k) month st1 g1 (acc ++ [length st]) Htl' Hc')
        as (st' & g' & E & Htl'' & Hc'').
      cbn [Nat.eqb] in E, Htl'' |- *. exists st', g'. rewrite E, Elen.
      split; [|split; [|exact Hc'']].
      * f_equal. f_equal. f_equal. rewrite <- app_assoc. reflexivity.
      * now replace (k + S count)%nat with (S k + count)%nat by lia.
Qed.

Lemma two_levels_participants n k st :
  two_levels n k st -> constructed st ->
  exists self,
    tree_of st (length st) 0 = Some self /\
    constructor_volumes self = true /\
    participants self = Z.of_nat (length st).
Proof.
  intros (L & S0 & F0 & Mid & Leaf & Sp & Sum) Hc.
  pose proof (constructed_well_formed st Hc) as Hwf.
  destruct (tree_of_participants st (group_size n st) Hwf) with
    (fuel := length st) (ref := 0%nat) as (self & E & Hv & Hp); try lia.
  - intros i Hi. unfold group_size at 1.
    destruct (Nat.eqb_spec i 0) as [->|Hi0].
    + rewrite F0, L, <- Sum. unfold sponsored_by.
      assert (K : forall refs, Forall (fun j => (1 <= j)%nat) refs ->
                fold_right Z.add 0 (map (group_size n st) refs) =
                Z.of_nat (length refs) +
                Z.of_nat (fold_right Nat.add 0%nat
                            (map (fun i => length (frontline_of st i)) refs))).
      { induction 1 as [|j refs Hj _ IH]; [reflexivity|].
        cbn [map fold_right length]. rewrite IH. unfold group_size at 1.
        destruct (Nat.eqb_spec j 0); lia. }
      rewrite K, length_seq; [lia|].
      apply Forall_forall. intros j Hj. apply in_seq in Hj. lia.
    + destruct (Nat.le_gt_cases i n) as [Hle|Hgt].
      * destruct (Mid i ltac:(lia)) as [_ Fi].
        assert (K : forall refs, Forall (fun j => (n < j)%nat) refs ->
                  fold_right Z.add 0 (map (group_size n st) refs) =
                  Z.of_nat (length refs)).
        { induction 1 as [|j refs Hj _ IH]; [reflexivity|].
          cbn [map fold_right length]. rewrite IH. unfold group_size.
          destruct (Nat.eqb_spec j 0); [lia|].
          rewrite (Leaf j Hj). cbn [length]. lia. }
        now rewrite (K _ Fi).
      * rewrite (Leaf i Hgt). reflexivity.
  - exists self. auto.
Qed.

(** The call on a root that was just created. *)
Lemma create_random_downline_root month frontline_count downline_count g :
  let n := Z.to_nat frontline_count in
  let k := if (n =? 0)%nat then 0%nat else Z.to_nat downline_count in
  exists st g',
    create_random_downline rng seed randbelow 0 month frontline_count
      downline_count (fst (__init__ None month [])) g =
      Some (seq 1 (n + k), st, g') /\
    two_levels n k st /\ constructed st.
Proof.
  intros n k. unfold create_random_downline.
  assert (C0 : constructed (fst (__init__ None month []))).
  { apply constructed_new; [constructor|discriminate]. }
  destruct (frontline_loop_star n 0 month _ [] (star_root month) C0)
    as (st1 & E1 & Hstar & Hc1).
  fold n. rewrite E1. cbn [app Nat.add] in *.
  pose proof (star_two_levels n st1 Hstar) as Htl.
  assert (L : length st1 = S n) by apply Hstar.
  assert (F0 : frontline_of st1 0 = seq 1 n) by apply Hstar.
  unfold frontline_of in F0.
  destruct (nth_error st1 0) as [o|] eqn:Eo;
    [|apply nth_error_None in Eo; lia].
  rewrite F0.
  destruct (downline_loop_two_levels (Z.to_nat downline_count) n 0 month st1
              (seed month) (seq 1 n) Htl Hc1) as (st' & g' & E & Htl' & Hc').
  cbn zeta in E. fold k in E, Htl'. cbn [Nat.add] in Htl'.
  exists st', g'. rewrite E. split; [|auto].
  rewrite L, seq_app. reflexivity.
Qed.

(** X11: [create_random_downline] on a root that was just created.
    Whatever the generator draws, the call returns the new IBOs in the
    order of their creation: [frontline_count] IBOs sponsored by the root
    and, unless that frontline is empty, [downline_count] more, each
    sponsored by a member of that frontline and with no frontline of its
    own: no IBO is placed deeper than the second level, since the list
    the sponsors are drawn from is extended by the frontline of an IBO
    that was just created.  The group of the root is all of the store.
    The generator is seeded first, so the state it had before does not
    matter. *)
Theorem random_downline_of_a_root month frontline_count downline_count g :
  let n := Z.to_nat frontline_count in
  let k := if (n =? 0)%nat then 0%nat else Z.to_nat downline_count in
  let root := fst (__init__ None month []) in
  (exists st g',
     create_random_downline rng seed randbelow 0 month frontline_count
       downline_count root g = Some (seq 1 (n + k), st, g') /\
     constructed st /\
     length st = S (n + k) /\
     frontline_of st 0 = seq 1 n /\
     (forall i, (1 <= i <= n)%nat -> sponsor_of st i = Some 0%nat) /\
     (forall i, (n < i < length st)%nat ->
        frontline_of st i = [] /\
        exists s, sponsor_of st i = Some s /\ (1 <= s <= n)%nat) /\
     exists self,
       tree_of st (length st) 0 = Some self /\
       participants self = Z.of_nat (length st)) /\
  (forall g2,
     create_random_downline rng seed randbelow 0 month frontline_count
       downline_count root g2 =
     create_random_downline rng seed randbelow 0 month frontline_count
       downline_count root g).
Proof.
  intros n k root. split; [|reflexivity].
  destruct (create_random_downline_root month frontline_count downline_count g)
    as (st & g' & E & Htl & Hc).
  fold n k root in E, Htl.
  destruct (two_levels_participants n k st Htl Hc) as (self & Et & _ & Hp).
  destruct Htl as (L & S0 & F0 & Mid & Leaf & Sp & Sum).
  exists st, g'. split; [exact E|]. split; [exact Hc|]. split; [exact L|].
  split; [exact F0|]. split; [|split].
  - intros i Hi. now apply Mid.
  - intros i Hi. split; [apply Leaf; lia|]. now apply Sp.
  - exists self. auto.
Qed.


End RandomDownline.

Lemma lcg_randbelow_lt g n :
  (0 < n)%nat -> (fst (lcg_randbelow g n) < n)%nat.
Proof.
  intros H. unfold lcg_randbelow. cbn [fst].
  pose proof (Z.mod_pos_bound ((1103515245 * g + 12345) mod 2 ^ 31) (Z.of_nat n)
                ltac:(lia)). lia.
Qed.

Lemma random_downline_of_a_root_witness :
  exists st g',
    create_random_downline Z lcg_seed lcg_randbelow 0 1 3 4
      (fst (__init__ None 1 [])) 0 = Some (seq 1 7, st, g') /\
    length st = 8%nat /\ frontline_of st 0 = [1; 2; 3]%nat.
Proof.
  destruct (proj1 (random_downline_of_a_root Z lcg_seed lcg_randbelow
                     lcg_randbelow_lt 1 3 4 0))
    as (st & g' & E & _ & L & F & _).
  exists st, g'. split; [exact E|]. split; [exact L|exact F].
Defined.

